(** * Murasaki-Translator: ASS adapter and repair passes

    A shallow embedding of
      - [fixer/kana_fixer.py]   ([KanaFixer]),
      - [fixer/number_fixer.py] ([NumberFixer]),
      - [documents/ass.py]      ([AssDocument.load] / [AssDocument.save]),
    and the properties of the specification stated over it.

    A Python [str] is a sequence of Unicode code points: it is modelled as a
    list of code points, each a [Z]. *)

From Stdlib Require Import Ascii String ZArith Arith Bool List Lia.
From Stdlib Require DecimalNat DecimalFacts.
Import ListNotations.

Open Scope Z_scope.

(** ** Python strings *)

Definition char := Z.
Definition str := list char.

(** An ASCII literal as a Python string. *)
Definition lit (s : string) : str :=
  map (fun a => Z.of_N (N_of_ascii a)) (list_ascii_of_string s).

Definition eqc (a b : char) : bool := a =? b.

(** [c in s] for a one-character [c] and a string [s]. *)
Definition char_in (c : char) (s : str) : bool := existsb (eqc c) s.

(** [enumerate]. *)
Fixpoint enumerate_from {A} (i : nat) (l : list A) : list (nat * A) :=
  match l with
  | [] => []
  | x :: l' => (i, x) :: enumerate_from (S i) l'
  end.

Definition enumerate {A} (l : list A) : list (nat * A) := enumerate_from 0 l.

(** ** Built-in string operations *)

(** [str.isspace] on one character, which is also the class [\s] of [re]
    on [str] patterns (CPython's [_PyUnicode_IsWhitespace]). *)
Definition is_space (c : char) : bool :=
  ((0x09 <=? c) && (c <=? 0x0D)) || ((0x1C <=? c) && (c <=? 0x20))
  || eqc c 0x85 || eqc c 0xA0 || eqc c 0x1680
  || ((0x2000 <=? c) && (c <=? 0x200A))
  || eqc c 0x2028 || eqc c 0x2029 || eqc c 0x202F || eqc c 0x205F
  || eqc c 0x3000.

(** The zero digit of each run of ten decimal digits (general category Nd,
    Unicode 14.0 as shipped with CPython 3.11): the class [\d] of [re] on
    [str] patterns, and the digits [int] accepts. *)
Definition DECIMAL_ZEROS : list char :=
  [ 0x30; 0x660; 0x6F0; 0x7C0; 0x966; 0x9E6; 0xA66; 0xAE6; 0xB66; 0xBE6;
    0xC66; 0xCE6; 0xD66; 0xDE6; 0xE50; 0xED0; 0xF20; 0x1040; 0x1090; 0x17E0;
    0x1810; 0x1946; 0x19D0; 0x1A80; 0x1A90; 0x1B50; 0x1BB0; 0x1C40; 0x1C50;
    0xA620; 0xA8D0; 0xA900; 0xA9D0; 0xA9F0; 0xAA50; 0xABF0; 0xFF10; 0x104A0;
    0x10D30; 0x11066; 0x110F0; 0x11136; 0x111D0; 0x112F0; 0x11450; 0x114D0;
    0x11650; 0x116C0; 0x11730; 0x118E0; 0x11950; 0x11C50; 0x11D50; 0x11DA0;
    0x16A60; 0x16AC0; 0x16B50; 0x1D7CE; 0x1D7D8; 0x1D7E2; 0x1D7EC; 0x1D7F6;
    0x1E140; 0x1E2F0; 0x1E950; 0x1FBF0 ].

Fixpoint decimal_in (zeros : list char) (c : char) : option Z :=
  match zeros with
  | [] => None
  | z :: zeros' =>
      if (z <=? c) && (c <=? z + 9) then Some (c - z) else decimal_in zeros' c
  end.

(** The decimal value of a character, when it is a decimal digit. *)
Definition decimal (c : char) : option Z := decimal_in DECIMAL_ZEROS c.

Definition is_digit (c : char) : bool :=
  match decimal c with Some _ => true | None => false end.

Fixpoint lstrip (s : str) : str :=
  match s with
  | c :: s' => if is_space c then lstrip s' else s
  | [] => []
  end.

Definition rstrip (s : str) : str := rev (lstrip (rev s)).

Definition strip (s : str) : str := rstrip (lstrip s).

Fixpoint startswith (s prefix : str) : bool :=
  match prefix, s with
  | [], _ => true
  | p :: prefix', c :: s' => eqc c p && startswith s' prefix'
  | _ :: _, [] => false
  end.

(** [sub in s]. *)
Fixpoint contains (s sub : str) : bool :=
  startswith s sub || match s with [] => false | _ :: s' => contains s' sub end.

(** [s.replace(old, new)] for a non-empty [old]; [skip] counts the
    characters of the current occurrence still to pass over. *)
Fixpoint replace_go (old new s : str) (skip : nat) : str :=
  match s with
  | [] => []
  | c :: s' =>
      match skip with
      | S k => replace_go old new s' k
      | O =>
          if startswith s old then new ++ replace_go old new s' (length old - 1)
          else c :: replace_go old new s' 0
      end
  end.

Definition replace (s old new : str) : str := replace_go old new s 0.

(** [s.split(sep, maxsplit)] for a non-empty [sep]; [maxsplit = None] is
    the default (no limit). [cur] is the current piece, reversed. *)
Fixpoint split_go (sep : str) (maxsplit : option nat) (s : str) (skip : nat)
    (cur : str) : list str :=
  match s with
  | [] => [rev cur]
  | c :: s' =>
      match skip with
      | S k => split_go sep maxsplit s' k cur
      | O =>
          let allowed := match maxsplit with Some O => false | _ => true end in
          if allowed && startswith s sep then
            rev cur :: split_go sep (option_map Nat.pred maxsplit) s'
                         (length sep - 1) []
          else split_go sep maxsplit s' 0 (c :: cur)
      end
  end.

Definition split (s sep : str) (maxsplit : option nat) : list str :=
  split_go sep maxsplit s 0 [].

(** [sep.join(l)]. *)
Fixpoint join (sep : str) (l : list str) : str :=
  match l with
  | [] => []
  | [x] => x
  | x :: l' => x ++ sep ++ join sep l'
  end.

(** [f.readlines()] on the decoded text: lines keep their newline. *)
Fixpoint readlines_go (s cur : str) : list str :=
  match s with
  | [] => match cur with [] => [] | _ => [rev cur] end
  | c :: s' =>
      if eqc c 0x0A then rev (c :: cur) :: readlines_go s' []
      else readlines_go s' (c :: cur)
  end.

Definition readlines (s : str) : list str := readlines_go s [].

(** [str(n)] for a non-negative integer (the event index). *)
Fixpoint uint_chars (d : Decimal.uint) : str :=
  match d with
  | Decimal.Nil => []
  | Decimal.D0 d' => 0x30 :: uint_chars d'
  | Decimal.D1 d' => 0x31 :: uint_chars d'
  | Decimal.D2 d' => 0x32 :: uint_chars d'
  | Decimal.D3 d' => 0x33 :: uint_chars d'
  | Decimal.D4 d' => 0x34 :: uint_chars d'
  | Decimal.D5 d' => 0x35 :: uint_chars d'
  | Decimal.D6 d' => 0x36 :: uint_chars d'
  | Decimal.D7 d' => 0x37 :: uint_chars d'
  | Decimal.D8 d' => 0x38 :: uint_chars d'
  | Decimal.D9 d' => 0x39 :: uint_chars d'
  end.

Definition str_of_nat (n : nat) : str := uint_chars (Nat.to_uint n).

(** The value of a run of decimal digits. *)
Definition int_of_digits (s : str) : Z :=
  fold_left (fun acc c => 10 * acc + match decimal c with Some v => v | None => 0 end) s 0.

(** [sys.int_info.default_max_str_digits]: the most digits [int] converts
    from a decimal string; above it [int] raises [ValueError]. *)
Definition INT_MAX_STR_DIGITS : nat := 4300.

(** White space as [int] sees it around the number: an ASCII character by
    the C table (tab to carriage return, and space), another character by
    [str.isspace]. *)
Definition int_space (c : char) : bool :=
  if c <? 127 then ((0x09 <=? c) && (c <=? 0x0D)) || eqc c 0x20 else is_space c.

Fixpoint int_lstrip (s : str) : str :=
  match s with
  | c :: s' => if int_space c then int_lstrip s' else s
  | [] => []
  end.

(** The number after white space and sign: decimal digits, single
    underscores between digits, then white space only. [seen] counts the
    digits read, [last_us] says that an underscore was just read. Gives the
    value and the number of digits. *)
Fixpoint int_body (s : str) (seen : nat) (last_us : bool) (acc : Z) : option (Z * nat) :=
  match s with
  | [] => if last_us || (seen =? 0)%nat then None else Some (acc, seen)
  | c :: s' =>
      match decimal c with
      | Some v => int_body s' (S seen) false (10 * acc + v)
      | None =>
          if last_us || (seen =? 0)%nat then None
          else if eqc c 0x5F then int_body s' seen true acc
          else if forallb int_space s then Some (acc, seen) else None
      end
  end.

(** [int(s)] for a [str] [s], in base ten; [None] when it raises
    [ValueError]. *)
Definition int_of_str (s : str) : option Z :=
  let s1 := int_lstrip s in
  let signed :=
    match s1 with
    | c :: s2 => if eqc c 0x2B then (false, s2)
                 else if eqc c 0x2D then (true, s2) else (false, s1)
    | [] => (false, [])
    end in
  match int_body (snd signed) 0 false 0 with
  | Some (v, digits) =>
      if (INT_MAX_STR_DIGITS <? digits)%nat then None
      else Some (if fst signed then - v else v)
  | None => None
  end.

(** ** The [re] module

    The patterns of the source use single-character classes, sequencing,
    alternation, greedy and lazy repetition of a class, and the anchors
    [^] and [$]. [run] lists the ends of all matches of a pattern at one
    position in the order in which the backtracking matcher finds them: the
    head is the match [re] returns. A position is the character before it
    (none at the start of the text) and the text after it. *)

Module Re.

Inductive re : Type :=
| Eps
| Cls (p : char -> bool)
| Seq (a b : re)
| Alt (a b : re)
| Star (p : char -> bool)
| StarLazy (p : char -> bool)
| Bol (multiline : bool)
| EolM.

Definition pos : Type := option char * str.

Fixpoint star (p : char -> bool) (prev : option char) (s : str) : list pos :=
  match s with
  | c :: s' => if p c then star p (Some c) s' ++ [(prev, s)] else [(prev, s)]
  | [] => [(prev, s)]
  end.

Fixpoint star_lazy (p : char -> bool) (prev : option char) (s : str) : list pos :=
  (prev, s) ::
  match s with
  | c :: s' => if p c then star_lazy p (Some c) s' else []
  | [] => []
  end.

Definition at_bol (multiline : bool) (prev : option char) : bool :=
  match prev with
  | None => true
  | Some c => multiline && eqc c 0x0A
  end.

(** [$] under [re.MULTILINE]: at the end and before a newline. *)
Definition at_eol (s : str) : bool :=
  match s with
  | [] => true
  | c :: _ => eqc c 0x0A
  end.

Fixpoint run (r : re) (prev : option char) (s : str) : list pos :=
  match r with
  | Eps => [(prev, s)]
  | Cls p =>
      match s with
      | c :: s' => if p c then [(Some c, s')] else []
      | [] => []
      end
  | Seq a b => flat_map (fun q => run b (fst q) (snd q)) (run a prev s)
  | Alt a b => run a prev s ++ run b prev s
  | Star p => star p prev s
  | StarLazy p => star_lazy p prev s
  | Bol multiline => if at_bol multiline prev then [(prev, s)] else []
  | EolM => if at_eol s then [(prev, s)] else []
  end.

(** Derived forms. *)
Definition Chr (c : char) : re := Cls (eqc c).
Definition Opt (a : re) : re := Alt a Eps.           (* a? *)
Definition Plus (p : char -> bool) : re := Seq (Cls p) (Star p).  (* [p]+ *)
Definition dot (c : char) : bool := negb (eqc c 0x0A).  (* . *)

(** The text matched when a match from [s] ends with [rest] left. *)
Definition matched (s : str) (q : pos) : str :=
  firstn (length s - length (snd q)) s.

Definition nonempty (m : str) : bool :=
  match m with [] => false | _ => true end.

(** [re.match]: is there a match at the start. *)
Definition match_ (r : re) (s : str) : bool :=
  match run r None s with [] => false | _ => true end.

(** The scan shared by [findall], [sub] and [split]: the text cut into
    the matches found ([Hit]) and the characters between them ([Lit]).
    After an empty match the search must advance: it looks for a
    non-empty match at the same place, then moves on by one character. *)
Inductive piece : Type :=
| Lit (c : char)
| Hit (m : str).

Fixpoint pieces (r : re) (prev : option char) (s : str) (skip : nat) : list piece :=
  match s with
  | [] =>
      match skip, run r prev [] with
      | O, _ :: _ => [Hit []]
      | _, _ => []
      end
  | c :: s' =>
      match skip with
      | S k => pieces r (Some c) s' k
      | O =>
          let ms := map (matched s) (run r prev s) in
          match ms with
          | [] => Lit c :: pieces r (Some c) s' 0
          | (_ :: _) as m :: _ => Hit m :: pieces r (Some c) s' (length m - 1)
          | [] :: _ =>
              match find nonempty ms with
              | Some m => Hit [] :: Hit m :: pieces r (Some c) s' (length m - 1)
              | None => Hit [] :: Lit c :: pieces r (Some c) s' 0
              end
          end
      end
  end.

(** [pattern.findall(s)] for a pattern without groups. *)
Definition findall (r : re) (s : str) : list str :=
  flat_map (fun p => match p with Hit m => [m] | Lit _ => [] end)
           (pieces r None s 0).

(** [pattern.sub(repl, s)] for a callable [repl], here given the number of
    matches replaced before and the matched text. *)
Fixpoint sub_pieces (repl : nat -> str -> str) (n : nat) (ps : list piece) : str :=
  match ps with
  | [] => []
  | Lit c :: ps' => c :: sub_pieces repl n ps'
  | Hit m :: ps' => repl n m ++ sub_pieces repl (S n) ps'
  end.

Definition sub (r : re) (repl : nat -> str -> str) (s : str) : str :=
  sub_pieces repl 0 (pieces r None s 0).

(** [pattern.split(s)] for a pattern without groups. *)
Fixpoint split_pieces (ps : list piece) (cur : str) : list str :=
  match ps with
  | [] => [rev cur]
  | Lit c :: ps' => split_pieces ps' (c :: cur)
  | Hit _ :: ps' => rev cur :: split_pieces ps' []
  end.

Definition split (r : re) (s : str) : list str :=
  split_pieces (pieces r None s 0) [].

End Re.

(** ** kana_fixer.py *)

Module KanaFixer.

(** [KANA_TO_CLEAN]: U+30C3, U+3063, the small hiragana, and the
    particles no, ha, ni, wo, ta, te, de. *)
Definition KANA_TO_CLEAN : list char :=
  [ 0x30C3; 0x3063;
    0x3041; 0x3043; 0x3045; 0x3047; 0x3049;
    0x3083; 0x3085; 0x3087; 0x308E;
    0x306E; 0x306F; 0x306B; 0x3092; 0x305F; 0x3066; 0x3067 ].

Definition HIRAGANA_START := 0x3040.
Definition HIRAGANA_END := 0x309F.
Definition KATAKANA_START := 0x30A0.
Definition KATAKANA_END := 0x30FF.
Definition CJK_START := 0x4E00.
Definition CJK_END := 0x9FFF.

Definition in_kana (c : char) : bool := char_in c KANA_TO_CLEAN.

(** [is_japanese_char] on a one-character string. *)
Definition is_japanese_char (code : char) : bool :=
  ((HIRAGANA_START <=? code) && (code <=? HIRAGANA_END))
  || ((KATAKANA_START <=? code) && (code <=? KATAKANA_END))
  || ((CJK_START <=? code) && (code <=? CJK_END)).

(** [PROTECTION_PAIRS], opening mark to closing mark. *)
Definition PROTECTION_PAIRS : list (char * char) :=
  [ (0x201C, 0x201D); (0x2018, 0x2019); (0x300C, 0x300D); (0x300E, 0x300F);
    (0xFF08, 0xFF09); (0x28, 0x29); (0x300A, 0x300B); (0x3008, 0x3009);
    (0x3010, 0x3011); (0xFF3B, 0xFF3D); (0x5B, 0x5D) ].

Fixpoint pair_lookup (k : char) (d : list (char * char)) : option char :=
  match d with
  | [] => None
  | (o, c) :: d' => if eqc k o then Some c else pair_lookup k d'
  end.

(** The straight quotes of the [elif] branch: double quote, single quote,
    backtick. *)
Definition SAME_QUOTES : list char := [0x22; 0x27; 0x60].

(** The marks of [is_at_end]; the literal ends with U+2026 and a space. *)
Definition END_MARKS : list char :=
  [ 0x3002; 0xFF01; 0xFF1F; 0xFF0C; 0xFF1B; 0xFF1A; 0x201D; 0x300D; 0x300F;
    0xFF09; 0x3009; 0x300B; 0x3011; 0xFF3D; 0x5D; 0x2026; 0x20 ].

Definition opt_eqc (a b : option char) : bool :=
  match a, b with
  | Some x, Some y => eqc x y
  | None, None => true
  | _, _ => false
  end.

Definition is_protected (prev_char next_char : option char) : bool :=
  match prev_char with
  | None => false
  | Some p =>
      let paired :=
        match pair_lookup p PROTECTION_PAIRS with
        | Some close => opt_eqc next_char (Some close)
        | None => false
        end in
      if paired then true
      else if char_in p SAME_QUOTES && opt_eqc next_char prev_char then true
      else false
  end.

Definition opt_japanese (c : option char) : bool :=
  match c with
  | Some x => is_japanese_char x
  | None => false
  end.

Definition is_at_end (next_char : option char) : bool :=
  match next_char with
  | None => true
  | Some n => char_in n END_MARKS
  end.

(** The body of the loop for a character of [KANA_TO_CLEAN]: [true] when
    the character is appended to [result]. *)
Definition keep_kana (prev_char next_char : option char) : bool :=
  if opt_japanese prev_char || opt_japanese next_char
     || is_protected prev_char next_char
  then true
  else if is_at_end next_char then false else true.

Definition prev_of (dst : str) (i : nat) : option char :=
  if (0 <? i)%nat then nth_error dst (i - 1) else None.

Definition next_of (dst : str) (i : nat) : option char :=
  if (i <? length dst - 1)%nat then nth_error dst (i + 1) else None.

(** One iteration of [for i, char in enumerate(dst)]. *)
Definition appended (dst : str) (ic : nat * char) : bool :=
  let (i, c) := ic in
  if in_kana c then keep_kana (prev_of dst i) (next_of dst i) else true.

Definition fix_ (dst : str) : str :=
  match dst with
  | [] => dst
  | _ =>
      if negb (existsb in_kana dst) then dst
      else map snd (filter (appended dst) (enumerate dst))
  end.

(** The same scan with the neighbours carried along instead of indexed. *)
Fixpoint scan (prev_char : option char) (s : str) : str :=
  match s with
  | [] => []
  | c :: s' =>
      if in_kana c then
        if keep_kana prev_char (hd_error s') then c :: scan (Some c) s'
        else scan (Some c) s'
      else c :: scan (Some c) s'
  end.

End KanaFixer.

(** ** number_fixer.py *)

Module NumberFixer.

(** The class of [PATTERN_CIRCLED_NUM]: U+2460..U+2473, U+3251..U+325F,
    U+32B1..U+32BF, U+2776..U+277F, U+24EB..U+24F4. None of these has a
    case variant, so [re.IGNORECASE] changes nothing. *)
Definition is_circled (c : char) : bool :=
  ((0x2460 <=? c) && (c <=? 0x2473))
  || ((0x3251 <=? c) && (c <=? 0x325F))
  || ((0x32B1 <=? c) && (c <=? 0x32BF))
  || ((0x2776 <=? c) && (c <=? 0x277F))
  || ((0x24EB <=? c) && (c <=? 0x24F4)).

Definition PATTERN_ALL_NUM : Re.re :=
  Re.Alt (Re.Plus is_digit) (Re.Cls is_circled).

Definition PATTERN_CIRCLED_NUM : Re.re := Re.Cls is_circled.

(** [safe_int]: the bare [except] turns every failure of [int] into
    [-1]. *)
Definition safe_int (s : str) : Z :=
  match int_of_str s with Some v => v | None => -1 end.

Definition fix_by_index (dst : str) (target_i : nat) (target_str : str) : str :=
  Re.sub PATTERN_ALL_NUM
         (fun i m => if (i =? target_i)%nat then target_str else m) dst.

(** The body of [for i in range(limit)], on the current [dst]. *)
Definition fix_step (src_nums dst_nums : list str) (dst : str) (i : nat) : str :=
  let src_num_str := nth i src_nums [] in
  let dst_num_str := nth i dst_nums [] in
  if negb (Re.match_ PATTERN_CIRCLED_NUM src_num_str) then dst
  else if safe_int dst_num_str >? 0 then fix_by_index dst i src_num_str
  else dst.

Definition fix_ (src dst : str) : str :=
  let src_nums := Re.findall PATTERN_ALL_NUM src in
  let dst_nums := Re.findall PATTERN_ALL_NUM dst in
  let src_circled_nums := Re.findall PATTERN_CIRCLED_NUM src in
  match src_circled_nums with
  | [] => dst
  | _ =>
      let limit := Nat.min (length src_nums) (length dst_nums) in
      fold_left (fix_step src_nums dst_nums) (seq 0 limit) dst
  end.

End NumberFixer.

(** ** documents/ass.py *)

(** The attributes of a [TextBlock] (core/chunker.py) that [save] reads:
    [dst], which may be missing or [None], and [prompt_text]. *)
Record TextBlock : Type := {
  dst : option str;
  prompt_text : str
}.

Module AssDocument.

(** The state of the object: [__init__] and the attributes [load] fills. *)
Record t : Type := {
  path : str;
  headers : list str;
  events_header : option str;
  event_templates : list str;
  total_event_count : nat
}.

Definition init (path : str) : t :=
  {| path := path; headers := []; events_header := None;
     event_templates := []; total_event_count := 0 |}.

(** An item handed to the chunker: [{'text': ..., 'meta': ...}]. *)
Record item : Type := { text : str; meta : str }.

Definition ZERO_TIME : str := lit "00:00:00,000".

(** [h.zfill(2)]: zeros go after a leading sign. *)
Definition zfill2 (h : str) : str :=
  match h with
  | [] => lit "00"
  | [c] => if eqc c 0x2B || eqc c 0x2D then [c; 0x30] else [0x30; c]
  | _ => h
  end.

(** [cs.ljust(2, '0')]. *)
Definition ljust2 (cs : str) : str :=
  match cs with
  | [] => lit "00"
  | [c] => [c; 0x30]
  | _ => cs
  end.

(** Nothing in the [try] block raises on a [str]. *)
Definition _ass_time_to_srt (ass_time : str) : str :=
  let parts := split (strip ass_time) (lit ".") None in
  let main_time := nth 0 parts [] in
  let cs := match parts with _ :: p1 :: _ => p1 | _ => lit "00" end in
  match split main_time (lit ":") None with
  | [h; m; s] =>
      let ms := ljust2 cs ++ lit "0" in
      zfill2 h ++ lit ":" ++ m ++ lit ":" ++ s ++ lit "," ++ ms
  | _ => ZERO_TIME
  end.

(** [r'\{\\[kK][fo]?\d+\}'] *)
Definition KARAOKE : Re.re :=
  Re.Seq (Re.Chr 0x7B) (Re.Seq (Re.Chr 0x5C)
    (Re.Seq (Re.Cls (fun c => eqc c 0x6B || eqc c 0x4B))
      (Re.Seq (Re.Opt (Re.Cls (fun c => eqc c 0x66 || eqc c 0x6F)))
        (Re.Seq (Re.Plus is_digit) (Re.Chr 0x7D))))).

(** [r'^\d'] *)
Definition LEADING_DIGIT : Re.re := Re.Seq (Re.Bol false) (Re.Cls is_digit).

(** [s.lower() == 'default']: no character outside ASCII lowers to one of
    the letters of [default], so lowering ASCII letters decides it. *)
Definition lower_ascii (c : char) : char :=
  if (0x41 <=? c) && (c <=? 0x5A) then c + 32 else c.

Definition str_eqb (a b : str) : bool :=
  (length a =? length b)%nat && forallb (fun xy => eqc (fst xy) (snd xy)) (combine a b).

Definition is_meaningful_style (style_name raw_text : str) : bool :=
  Re.nonempty style_name
  && negb (str_eqb (map lower_ascii style_name) (lit "default"))
  && negb (Re.match_ LEADING_DIGIT style_name)
  && negb (contains raw_text style_name).

(** The local variables of [load] that live across iterations, with the
    attributes of the object. *)
Record load_state : Type := {
  self : t;
  items : list item;
  is_events : bool;
  event_idx : nat
}.

Definition append_header (st : load_state) (line : str) : load_state :=
  {| self := {| path := path (self st);
                headers := headers (self st) ++ [line];
                events_header := events_header (self st);
                event_templates := event_templates (self st);
                total_event_count := total_event_count (self st) |};
     items := items st; is_events := is_events st; event_idx := event_idx st |}.

Definition set_events_header (st : load_state) (line : str) : load_state :=
  {| self := {| path := path (self st);
                headers := headers (self st);
                events_header := Some line;
                event_templates := event_templates (self st);
                total_event_count := total_event_count (self st) |};
     items := items st; is_events := is_events st; event_idx := event_idx st |}.

Definition enter_events (st : load_state) : load_state :=
  {| self := self st; items := items st; is_events := true;
     event_idx := event_idx st |}.

Definition append_event (st : load_state) (prefix block : str) : load_state :=
  {| self := {| path := path (self st);
                headers := headers (self st);
                events_header := events_header (self st);
                event_templates := event_templates (self st) ++ [prefix];
                total_event_count := total_event_count (self st) |};
     items := items st ++ [{| text := block; meta := lit "ass_structural" |}];
     is_events := is_events st;
     event_idx := S (event_idx st) |}.

(** The text handed to the model for one event: the context prefix, then
    the text, on one line. *)
Definition final_prompt_text (actor_name style_name raw_text : str) : str :=
  let context_prefix0 :=
    if Re.nonempty actor_name && negb (contains raw_text actor_name)
    then lit "[" ++ actor_name ++ lit "]" else [] in
  let context_prefix :=
    if is_meaningful_style style_name raw_text
    then context_prefix0 ++ lit "(" ++ style_name ++ lit ")"
    else context_prefix0 in
  if Re.nonempty context_prefix then context_prefix ++ lit " " ++ raw_text
  else raw_text.

(** The branch for a [Dialogue:] line with its ten fields. *)
Definition pseudo_srt_block (event_idx : nat) (parts : list str) : str :=
  let start_time := strip (nth 1 parts []) in
  let end_time := strip (nth 2 parts []) in
  let style_name := strip (nth 3 parts []) in
  let actor_name := strip (nth 4 parts []) in
  let raw_text := Re.sub KARAOKE (fun _ _ => []) (nth 9 parts []) in
  let srt_start := _ass_time_to_srt start_time in
  let srt_end := _ass_time_to_srt end_time in
  str_of_nat event_idx ++ [0x0A] ++ srt_start ++ lit " --> " ++ srt_end ++ [0x0A]
  ++ final_prompt_text actor_name style_name raw_text ++ [0x0A; 0x0A].

(** One iteration of [for line in lines]. *)
Definition load_line (st : load_state) (line0 : str) : load_state :=
  let line1 := strip line0 in
  let line := if startswith line1 [0xFEFF] then tl line1 else line1 in
  if negb (Re.nonempty line) then append_header st line
  else if startswith line (lit "[Events]") then
    append_header (enter_events st) line
  else if is_events st then
    if startswith line (lit "Format:") then
      append_header (set_events_header st line) line
    else if startswith line (lit "Dialogue:") then
      let parts := split line (lit ",") (Some 9%nat) in
      if (length parts <? 10)%nat then append_header st line
      else
        let prefix := join (lit ",") (firstn 9 parts) ++ lit "," in
        append_event st prefix (pseudo_srt_block (event_idx st) parts)
    else append_header st line
  else append_header st line.

(** [load], given the lines [f.readlines()] returned: the object after
    the call and the list returned. *)
Definition load (self0 : t) (lines : list str) : t * list item :=
  let st := fold_left load_line lines
              {| self := self0; items := []; is_events := false;
                 event_idx := 1 |} in
  ({| path := path (self st);
      headers := headers (self st);
      events_header := events_header (self st);
      event_templates := event_templates (self st);
      total_event_count := event_idx st - 1 |},
   items st).

(** [getattr(b, 'dst', '') or b.prompt_text] *)
Definition content (b : TextBlock) : str :=
  match dst b with
  | Some (c :: d) => c :: d
  | _ => prompt_text b
  end.

Definition NL2 : str := [0x0A; 0x0A].
Definition BACKSLASH_N : str := [0x5C; 0x4E].   (* r'\N' *)
Definition BACKSLASH_n : str := [0x5C; 0x6E].   (* '\\n' *)

Definition collect (blocks : list TextBlock) : str :=
  fold_left (fun full_stream b =>
               if Re.nonempty (content b) then full_stream ++ content b ++ NL2
               else full_stream)
            blocks [].

Definition normalize (full_stream : str) : str :=
  replace (replace full_stream BACKSLASH_N [0x0A]) BACKSLASH_n [0x0A].

(** [\d{2}:\d{2}:\d{2}[,.]\d{1,3}] *)
Definition D2 : Re.re := Re.Seq (Re.Cls is_digit) (Re.Cls is_digit).
Definition D1_3 : Re.re :=
  Re.Seq (Re.Cls is_digit)
         (Re.Opt (Re.Seq (Re.Cls is_digit) (Re.Opt (Re.Cls is_digit)))).
Definition TIMECODE : Re.re :=
  Re.Seq D2 (Re.Seq (Re.Chr 0x3A) (Re.Seq D2 (Re.Seq (Re.Chr 0x3A) (Re.Seq D2
    (Re.Seq (Re.Cls (fun c => eqc c 0x2C || eqc c 0x2E)) D1_3))))).

(** [-=>] *)
Definition is_arrow (c : char) : bool := eqc c 0x2D || eqc c 0x3D || eqc c 0x3E.

(** [header_pattern], compiled with [re.MULTILINE]:
    [(?:^|\n)\s*\d+\s*\n\s*TIMECODE\s*[-=>]+\s*TIMECODE.*?(?:\n|$)] *)
Definition header_pattern : Re.re :=
  Re.Seq (Re.Alt (Re.Bol true) (Re.Chr 0x0A))
  (Re.Seq (Re.Star is_space)
  (Re.Seq (Re.Plus is_digit)
  (Re.Seq (Re.Star is_space)
  (Re.Seq (Re.Chr 0x0A)
  (Re.Seq (Re.Star is_space)
  (Re.Seq TIMECODE
  (Re.Seq (Re.Star is_space)
  (Re.Seq (Re.Plus is_arrow)
  (Re.Seq (Re.Star is_space)
  (Re.Seq TIMECODE
  (Re.Seq (Re.StarLazy Re.dot)
          (Re.Alt (Re.Chr 0x0A) Re.EolM)))))))))))).

(** Step 2 of [save]: the units cut out of the normalized stream. *)
Definition translated_units (full_stream : str) : list str :=
  let segments := Re.split header_pattern full_stream in
  if (1 <? length segments)%nat then map strip (tl segments)
  else map strip (filter (fun s => Re.nonempty (strip s))
                         (split full_stream NL2 None)).

(** [^(?:\[.*?\]|【.*?】)?(?:[\(（].*?[\)）])?\s*] *)
Definition context_pattern : Re.re :=
  Re.Seq (Re.Bol false)
  (Re.Seq (Re.Opt (Re.Alt
             (Re.Seq (Re.Chr 0x5B) (Re.Seq (Re.StarLazy Re.dot) (Re.Chr 0x5D)))
             (Re.Seq (Re.Chr 0x3010) (Re.Seq (Re.StarLazy Re.dot) (Re.Chr 0x3011)))))
  (Re.Seq (Re.Opt
             (Re.Seq (Re.Cls (fun c => eqc c 0x28 || eqc c 0xFF08))
             (Re.Seq (Re.StarLazy Re.dot)
                     (Re.Cls (fun c => eqc c 0x29 || eqc c 0xFF09)))))
          (Re.Star is_space))).

(** [while r'\N\N' in t: t = t.replace(r'\N\N', r'\N')]; [None] when the
    fuel runs out before the loop ends. *)
Fixpoint dedup_loop (fuel : nat) (trans_text : str) : option str :=
  if contains trans_text (BACKSLASH_N ++ BACKSLASH_N) then
    match fuel with
    | O => None
    | S fuel' =>
        dedup_loop fuel' (replace trans_text (BACKSLASH_N ++ BACKSLASH_N) BACKSLASH_N)
    end
  else Some trans_text.

(** The loop ends within [length trans_text] iterations
    ([dedup_loop_terminates] below). *)
Definition dedup (trans_text : str) : str :=
  match dedup_loop (length trans_text) trans_text with
  | Some r => r
  | None => trans_text
  end.

(** The cleanups of one unit, steps 0 to 3 of the loop body. *)
Definition cleanup (trans_text : str) : str :=
  let t0 := strip (Re.sub context_pattern (fun _ _ => []) trans_text) in
  let t2 := replace t0 [0x0A] BACKSLASH_N in
  dedup t2.

Definition event_line (units : list str) (ip : nat * str) : str :=
  let (i, prefix) := ip in
  let trans_text := if (i <? length units)%nat then nth i units [] else [] in
  prefix ++ cleanup trans_text.

Definition event_lines (templates units : list str) : list str :=
  map (event_line units) (enumerate templates).

(** What [save] does: the warning printed, if any, with its two counts,
    and the text written to [output_path]. *)
Record saved : Type := {
  warning : option (nat * nat);
  written : str
}.

Definition write_lines (lines : list str) : str :=
  flat_map (fun l => l ++ [0x0A]) lines.

Definition save (self0 : t) (blocks : list TextBlock) : saved :=
  let full_stream := normalize (collect blocks) in
  let units := translated_units full_stream in
  let templates := event_templates self0 in
  {| warning :=
       if (length units =? length templates)%nat then None
       else Some (length units, length templates);
     written :=
       write_lines (headers self0) ++ write_lines (event_lines templates units) |}.

End AssDocument.


(** * Specification-side definitions

    The notions the properties below are stated with. *)

(** ** For [KanaFixer] *)

Module KanaSpec.

Import KanaFixer.

(** [deletes P x y]: [y] is [x] with some characters satisfying [P]
    removed, and nothing else changed. *)
Inductive deletes (P : char -> bool) : str -> str -> Prop :=
| deletes_nil : deletes P [] []
| deletes_keep c x y : deletes P x y -> deletes P (c :: x) (c :: y)
| deletes_drop c x y : P c = true -> deletes P x y -> deletes P (c :: x) y.

(** The quote and bracket pairs, full-width ones included, and the
    straight quotes that close themselves. *)
Definition matching_pairs : list (char * char) :=
  PROTECTION_PAIRS ++ map (fun q => (q, q)) SAME_QUOTES.

Definition enclosed (l r : option char) : bool :=
  match l, r with
  | Some a, Some b =>
      existsb (fun oc => eqc a (fst oc) && eqc b (snd oc)) matching_pairs
  | _, _ => false
  end.

(** Sentence-final and closing punctuation marks. *)
Definition final_or_closing_mark : list char :=
  [ 0x3002; 0xFF01; 0xFF1F; 0xFF0C; 0xFF1B; 0xFF1A; 0x201D; 0x300D; 0x300F;
    0xFF09; 0x3009; 0x300B; 0x3011; 0xFF3D; 0x5D; 0x2026 ].

(** Followed by the end of the text or by one of [marks]. *)
Definition followed_by (marks : list char) (r : option char) : bool :=
  match r with None => true | Some n => char_in n marks end.

(** The retention rule for a residual glyph with left neighbour [l] and
    right neighbour [r], in priority order. *)
Definition retention_rule (marks : list char) (l r : option char) : bool :=
  if opt_japanese l || opt_japanese r then true
  else if enclosed l r then true
  else if followed_by marks r then false
  else true.

(** The text with every residual glyph kept or dropped by [rule]. *)
Definition retain (rule : option char -> option char -> bool) (dst : str) : str :=
  map snd (filter (fun ic => negb (in_kana (snd ic))
                             || rule (prev_of dst (fst ic)) (next_of dst (fst ic)))
                  (enumerate dst)).

(** A text in which [scan] keeps every residual glyph. *)
Fixpoint stable (prev_char : option char) (s : str) : bool :=
  match s with
  | [] => true
  | c :: s' =>
      (negb (in_kana c) || keep_kana prev_char (hd_error s')) && stable (Some c) s'
  end.

Definition last_error {A} (l : list A) : option A :=
  match l with [] => None | _ => nth_error l (length l - 1) end.

(** Hiragana [no]. *)
Definition kana_no : char := 0x306E.

End KanaSpec.

(** ** For the matcher *)

Module ReSpec.

Fixpoint drop_while (p : char -> bool) (s : str) : str :=
  match s with
  | c :: s' => if p c then drop_while p s' else s
  | [] => []
  end.

Fixpoint take_while (p : char -> bool) (s : str) : str :=
  match s with
  | c :: s' => if p c then c :: take_while p s' else []
  | [] => []
  end.

(** The character before the position reached after reading [m]. *)
Definition prev_after (prev : option char) (m : str) : option char :=
  fold_left (fun _ c => Some c) m prev.

Definition hits (p : Re.piece) : list str :=
  match p with Re.Hit m => [m] | Re.Lit _ => [] end.

(** The text a piece stands for. *)
Definition piece_text (p : Re.piece) : str :=
  match p with Re.Lit c => [c] | Re.Hit m => m end.

(** An optional group: its first match ends with [r] left, and it has no
    other match when that one is empty. *)
Definition first_or_only (l : list Re.pos) (prev : option char) (s r : str) : Prop :=
  (exists q tl, l = (q, r) :: tl) /\ (length r <= length s)%nat
  /\ (length r = length s -> l = [(prev, s)]).

End ReSpec.

(** ** For [NumberFixer] *)

Module NumberSpec.

Import NumberFixer.

(** A text cut into its numeric tokens and the characters between them. *)
Inductive chunk : Type :=
| Other (c : char)
| DigitRun (ds : str)
| Circled (g : char).

Definition flush (run : str) : list chunk :=
  match run with [] => [] | _ => [DigitRun (rev run)] end.

(** [run] is the digit run being read, reversed. *)
Fixpoint lex (s run : str) : list chunk :=
  match s with
  | [] => flush run
  | c :: s' =>
      if is_digit c then lex s' (c :: run)
      else flush run ++ (if is_circled c then Circled c else Other c) :: lex s' []
  end.

Definition tokenize (s : str) : list chunk := lex s [].

Definition chunk_text (k : chunk) : str :=
  match k with Other c => [c] | DigitRun ds => ds | Circled g => [g] end.

Definition render (l : list chunk) : str := flat_map chunk_text l.

Definition is_token (k : chunk) : bool :=
  match k with Other _ => false | _ => true end.

(** The ordered stream of digit-run and circled-glyph tokens. *)
Definition token_stream (l : list chunk) : list chunk := filter is_token l.

(** [f] applied to each token, with its index in the token stream. *)
Fixpoint map_tokens (f : nat -> chunk -> chunk) (i : nat) (l : list chunk) : list chunk :=
  match l with
  | [] => []
  | Other c :: l' => Other c :: map_tokens f i l'
  | k :: l' => f i k :: map_tokens f (S i) l'
  end.

(** A digit run that [int] converts to a value above zero: it has no
    more digits than [int] accepts. *)
Definition converts_above_zero (ds : str) : bool :=
  (length ds <=? INT_MAX_STR_DIGITS)%nat && (int_of_digits ds >? 0).

(** Token [i] of the translation: replaced by the source glyph when [i] is
    below [limit], the source token is a circled glyph and the token is a
    digit run that converts to a value above zero. *)
Definition restore_rule (src_tokens : list chunk) (limit : nat) (i : nat)
    (k : chunk) : chunk :=
  match nth_error src_tokens i, k with
  | Some (Circled g), DigitRun ds =>
      if (i <? limit)%nat && converts_above_zero ds then Circled g else k
  | _, _ => k
  end.

Definition restore (src dst : str) : str :=
  let src_tokens := token_stream (tokenize src) in
  let dst_chunks := tokenize dst in
  let limit := Nat.min (length src_tokens) (length (token_stream dst_chunks)) in
  render (map_tokens (restore_rule src_tokens limit) 0 dst_chunks).

(** The rule with the numeric value alone, whatever the length of the
    digit run. *)
Definition restore_rule_by_value (src_tokens : list chunk) (limit : nat) (i : nat)
    (k : chunk) : chunk :=
  match nth_error src_tokens i, k with
  | Some (Circled g), DigitRun ds =>
      if (i <? limit)%nat && (int_of_digits ds >? 0) then Circled g else k
  | _, _ => k
  end.

Definition restore_by_value (src dst : str) : str :=
  let src_tokens := token_stream (tokenize src) in
  let dst_chunks := tokenize dst in
  let limit := Nat.min (length src_tokens) (length (token_stream dst_chunks)) in
  render (map_tokens (restore_rule_by_value src_tokens limit) 0 dst_chunks).

Definition starts_with_digit (s : str) : bool :=
  match s with c :: _ => is_digit c | [] => false end.

(** Chunk lists that are the tokenization of their own text. *)
Fixpoint canonical (l : list chunk) : bool :=
  match l with
  | [] => true
  | Other c :: l' => negb (is_digit c) && negb (is_circled c) && canonical l'
  | Circled g :: l' => negb (is_digit g) && is_circled g && canonical l'
  | DigitRun ds :: l' =>
      Re.nonempty ds && forallb is_digit ds
      && negb (starts_with_digit (render l')) && canonical l'
  end.

Definition proper_token (k : chunk) : bool :=
  match k with
  | Other _ => false
  | DigitRun ds => Re.nonempty ds && forallb is_digit ds
  | Circled g => is_circled g
  end.

Definition chunk_piece (k : chunk) : Re.piece :=
  match k with
  | Other c => Re.Lit c
  | DigitRun ds => Re.Hit ds
  | Circled g => Re.Hit [g]
  end.

(** A replacement that only turns digit runs into circled glyphs. *)
Definition circles_only (f : nat -> chunk -> chunk) : Prop :=
  forall i k, f i k = k
              \/ exists ds g, k = DigitRun ds /\ f i k = Circled g /\ is_circled g = true.

(** The translation after the first [k] iterations of the loop of [fix]. *)
Definition restored_upto (src dst : str) (k : nat) : list chunk :=
  map_tokens (restore_rule (token_stream (tokenize src)) k) 0 (tokenize dst).

End NumberSpec.

(** ** For [AssDocument] *)

Module AssSpec.

Import AssDocument.

(** The line as [load] looks at it: stripped, and without a byte-order mark. *)
Definition clean_line (line0 : str) : str :=
  let line1 := strip line0 in
  if startswith line1 [0xFEFF] then tl line1 else line1.

(** A [Dialogue:] line with its ten fields. *)
Definition parsed_dialogue (line : str) : bool :=
  startswith line (lit "Dialogue:")
  && (10 <=? length (split line (lit ",") (Some 9%nat)))%nat.

(** The number of event lines of a document: the parsed [Dialogue:] lines
    after the first [[Events]] line. *)
Fixpoint count_events (in_events : bool) (lines : list str) : nat :=
  match lines with
  | [] => 0
  | line0 :: lines' =>
      let line := clean_line line0 in
      if startswith line (lit "[Events]") then count_events true lines'
      else ((if in_events && parsed_dialogue line then 1 else 0)
            + count_events in_events lines')%nat
  end.

(** The [Format:] lines of the events section: the stripped lines that
    start with [Format:] and come after an [[Events]] line, in order. *)
Fixpoint format_lines (in_events : bool) (lines : list str) : list str :=
  match lines with
  | [] => []
  | line0 :: lines' =>
      let line := clean_line line0 in
      if startswith line (lit "[Events]") then format_lines true lines'
      else if in_events && startswith line (lit "Format:")
           then line :: format_lines in_events lines'
           else format_lines in_events lines'
  end.

(** Positional binding: unit [i] to template [i]; templates without a
    unit keep an empty text. *)
Definition bind (templates units : list str) : list str :=
  map (fun pu => fst pu ++ cleanup (snd pu)) (combine templates units)
  ++ skipn (length units) templates.

End AssSpec.

Module HintSpec.

(** The text after the first closing mark on the current line, if any. *)
Fixpoint closing (close : char -> bool) (s : str) : option str :=
  match s with
  | [] => None
  | c :: s' =>
      if close c then Some s'
      else if Re.dot c then closing close s' else None
  end.

(** A tag: an opening mark, then anything up to the first closing mark on
    the same line. [None] when the text does not start with one. *)
Definition skip_tag (opening close : char -> bool) (s : str) : option str :=
  match s with
  | c :: s' => if opening c then closing close s' else None
  | [] => None
  end.

Definition bracket_tag (s : str) : option str :=
  match skip_tag (eqc 0x5B) (eqc 0x5D) s with
  | Some r => Some r
  | None => skip_tag (eqc 0x3010) (eqc 0x3011) s
  end.

Definition paren_tag (s : str) : option str :=
  skip_tag (fun c => eqc c 0x28 || eqc c 0xFF08)
           (fun c => eqc c 0x29 || eqc c 0xFF09) s.

Definition skip_opt (tag : str -> option str) (s : str) : str :=
  match tag s with Some r => r | None => s end.

(** Bracket tag first, then paren tag, then white space. *)
Definition strip_hint (s : str) : str :=
  lstrip (skip_opt paren_tag (skip_opt bracket_tag s)).

(** The two tags in either order. *)
Definition strip_hint_any_order (s : str) : str :=
  match bracket_tag s with
  | Some r => lstrip (skip_opt paren_tag r)
  | None => lstrip (skip_opt bracket_tag (skip_opt paren_tag s))
  end.

(** The three parts of [context_pattern] after [^]. *)
Definition BRACKET : Re.re :=
  Re.Opt (Re.Alt
    (Re.Seq (Re.Chr 0x5B) (Re.Seq (Re.StarLazy Re.dot) (Re.Chr 0x5D)))
    (Re.Seq (Re.Chr 0x3010) (Re.Seq (Re.StarLazy Re.dot) (Re.Chr 0x3011)))).

Definition PAREN : Re.re :=
  Re.Opt (Re.Seq (Re.Cls (fun c => eqc c 0x28 || eqc c 0xFF08))
         (Re.Seq (Re.StarLazy Re.dot) (Re.Cls (fun c => eqc c 0x29 || eqc c 0xFF09)))).

Definition HINT_BODY : Re.re := Re.Seq BRACKET (Re.Seq PAREN (Re.Star is_space)).

(** Text without a newline: [.] matches every character of it. *)
Definition one_line (s : str) : bool := forallb Re.dot s.

End HintSpec.

Module SplitSpec.

Definition non_space (c : char) : bool := negb (is_space c).

(** Text with something else than white space in it. *)
Definition has_content (s : str) : bool := existsb non_space s.

(** The blank-line fallback: the non-blank pieces between blank lines. *)
Definition blank_line_segments (full_stream : str) : list str :=
  map strip (filter (fun s => Re.nonempty (strip s))
                    (split full_stream AssDocument.NL2 None)).

End SplitSpec.

Module OrderSpec.

Import AssDocument.

Inductive kind : Type := Header | Event.

Definition is_header (e : kind * str) : bool :=
  match fst e with Header => true | Event => false end.

Definition is_event (e : kind * str) : bool :=
  match fst e with Header => false | Event => true end.

(** A fresh object at a line of the given section. *)
Definition blank (in_events : bool) : load_state :=
  {| self := init []; items := []; is_events := in_events; event_idx := 1 |}.

(** What [load] stores for one line: an event line leaves its template
    prefix in [event_templates], any other line goes to [headers]. *)
Definition stored (in_events : bool) (line0 : str) : kind * str :=
  let st := load_line (blank in_events) line0 in
  match event_templates (self st) with
  | prefix :: _ => (Event, prefix)
  | [] => (Header, hd [] (headers (self st)))
  end.

Fixpoint classify (in_events : bool) (lines : list str) : list (kind * str) :=
  match lines with
  | [] => []
  | line0 :: lines' =>
      stored in_events line0
      :: classify (is_events (load_line (blank in_events) line0)) lines'
  end.

(** The order in which [save] writes the stored lines. *)
Definition output_order (c : list (kind * str)) : list (kind * str) :=
  filter is_header c ++ filter is_event c.

(** The identity transformer: every block comes back unchanged. *)
Definition identity_blocks (its : list item) : list TextBlock :=
  map (fun it => {| dst := None; prompt_text := text it |}) its.

(** A load and save cycle through the identity transformer. *)
Definition round_trip (content : str) : str :=
  let r := load (init []) (readlines content) in
  written (save (fst r) (identity_blocks (snd r))).

End OrderSpec.

(** ** The stream of the identity transformer *)

Module StreamSpec.

Definition is_ascii_digit (c : char) : bool := (0x30 <=? c) && (c <=? 0x39).

Definition heads (l : list Re.pos) (r : str) : Prop :=
  exists q tl, l = (q, r) :: tl.

(** [DD:DD:DD,DDD] *)
Definition is_srt_time (s : str) : bool :=
  match s with
  | [h1; h2; c1; m1; m2; c2; s1; s2; c3; f1; f2; f3] =>
      forallb is_ascii_digit [h1; h2; m1; m2; s1; s2; f1; f2; f3]
      && eqc c1 0x3A && eqc c2 0x3A && eqc c3 0x2C
  | _ => false
  end.

Definition head_is (p : char -> bool) (s : str) : bool :=
  match s with c :: _ => p c | [] => false end.

Definition NL4 : str := [0x0A; 0x0A; 0x0A; 0x0A].

(** A stream of blocks, each a header and a prompt text, as [save] collects
    them: the block ends with two newlines and [save] adds two. *)
Definition stream_of (bs : list (str * str)) : str :=
  flat_map (fun b => fst b ++ snd b ++ NL4) bs.

Fixpoint tail_pieces (P : str) (bs : list (str * str)) : list Re.piece :=
  map Re.Lit P
  ++ match bs with
     | [] => map Re.Lit NL4
     | b :: bs' => Re.Hit (NL4 ++ fst b) :: tail_pieces (snd b) bs'
     end.

Fixpoint segments_of (P : str) (bs : list (str * str)) : list str :=
  match bs with
  | [] => [P ++ NL4]
  | b :: bs' => P :: segments_of (snd b) bs'
  end.

Definition good_head (H : str) : Prop :=
  exists idx T1 T2,
    idx <> [] /\ forallb is_ascii_digit idx = true
    /\ is_srt_time T1 = true /\ is_srt_time T2 = true
    /\ H = idx ++ 0x0A :: T1 ++ lit " --> " ++ T2 ++ [0x0A].

Definition good_prompt (P : str) : bool :=
  head_is (fun c => negb (is_space c) && negb (is_digit c)) P
  && head_is (fun c => negb (is_space c)) (rev P)
  && forallb Re.dot P.

Definition good_block (b : str * str) : Prop :=
  good_head (fst b) /\ good_prompt (snd b) = true.

End StreamSpec.

Module RoundSpec.

Import AssDocument AssSpec HintSpec StreamSpec.

Definition fields (line : str) : list str := split line (lit ",") (Some 9%nat).

Definition ev_text (line : str) : str := nth 9 (fields line) [].

Definition ev_actor (line : str) : str := strip (nth 4 (fields line) []).

Definition ev_style (line : str) : str := strip (nth 3 (fields line) []).

Definition ev_start (line : str) : str :=
  _ass_time_to_srt (strip (nth 1 (fields line) [])).

Definition ev_end (line : str) : str :=
  _ass_time_to_srt (strip (nth 2 (fields line) [])).

Definition ev_prefix (line : str) : str :=
  join (lit ",") (firstn 9 (fields line)) ++ lit ",".

Definition ev_prompt (line : str) : str :=
  final_prompt_text (ev_actor line) (ev_style line)
    (Re.sub KARAOKE (fun _ _ => []) (ev_text line)).

Definition ev_head (i : nat) (line : str) : str :=
  str_of_nat i ++ 0x0A :: ev_start line ++ lit " --> " ++ ev_end line ++ [0x0A].

(** The event lines of a document: the stripped [Dialogue:] lines with
    ten fields after the first [[Events]] line, in order. *)
Fixpoint event_lines_of (in_events : bool) (lines : list str) : list str :=
  match lines with
  | [] => []
  | line0 :: lines' =>
      let line := clean_line line0 in
      if startswith line (lit "[Events]") then event_lines_of true lines'
      else if in_events && parsed_dialogue line
           then line :: event_lines_of in_events lines'
           else event_lines_of in_events lines'
  end.

Fixpoint blocks_from (i : nat) (ls : list str) : list (str * str) :=
  match ls with
  | [] => []
  | l :: ls' => (ev_head i l, ev_prompt l) :: blocks_from (S i) ls'
  end.

Definition block_item (b : str * str) : item :=
  {| text := fst b ++ snd b ++ NL2; meta := lit "ass_structural" |}.

Definition no_backslash (s : str) : bool := negb (char_in 0x5C s).

(** A text that starts with something else than white space, a digit or
    an opening bracket, does not end with white space, and holds no
    newline and no backslash. *)
Definition plain_text (s : str) : bool :=
  head_is (fun c => negb (is_space c) && negb (is_digit c)
                    && negb (eqc 0x5B c || eqc 0x3010 c || eqc c 0x28 || eqc c 0xFF08)) s
  && head_is (fun c => negb (is_space c)) (rev s)
  && one_line s && no_backslash s.

(** An event line that the load and save cycle gives back: both times
    convert to the shape [DD:DD:DD,DDD], the text is plain, and speaker and
    style hold no backslash, no newline and no mark that closes their
    tag. *)
Definition plain_event (line : str) : bool :=
  is_srt_time (ev_start line) && is_srt_time (ev_end line)
  && plain_text (ev_text line)
  && no_backslash (ev_actor line) && negb (char_in 0x5D (ev_actor line))
  && one_line (ev_actor line)
  && no_backslash (ev_style line)
  && negb (existsb (fun c => eqc c 0x29 || eqc c 0xFF09) (ev_style line))
  && one_line (ev_style line).

(** What [plain_event] says, field by field. *)
Record plain_facts (line : str) : Prop := {
  pf_start : is_srt_time (ev_start line) = true;
  pf_end : is_srt_time (ev_end line) = true;
  pf_head : head_is (fun c => negb (is_space c) && negb (is_digit c)
                      && negb (eqc 0x5B c || eqc 0x3010 c || eqc c 0x28 || eqc c 0xFF08))
                    (ev_text line) = true;
  pf_last : head_is (fun c => negb (is_space c)) (rev (ev_text line)) = true;
  pf_line : one_line (ev_text line) = true;
  pf_bs : char_in 0x5C (ev_text line) = false;
  pf_actor_bs : char_in 0x5C (ev_actor line) = false;
  pf_actor_close : char_in 0x5D (ev_actor line) = false;
  pf_actor_line : one_line (ev_actor line) = true;
  pf_style_bs : char_in 0x5C (ev_style line) = false;
  pf_style_close :
    existsb (fun c => eqc c 0x29 || eqc c 0xFF09) (ev_style line) = false;
  pf_style_line : one_line (ev_style line) = true
}.

End RoundSpec.


(** * Properties *)

(** ** [KanaFixer] *)

Section KanaProofs.

Import KanaFixer KanaSpec.

Lemma prev_of_app pre (c : char) s :
  prev_of (pre ++ c :: s) (length pre) = last_error pre.
Proof.
  unfold prev_of, last_error. destruct pre as [|a pre]; [reflexivity|].
  cbn [length]. replace (0 <? S (length pre))%nat with true by (symmetry; apply Nat.ltb_lt; lia).
  rewrite nth_error_app1 by (cbn [length]; lia). reflexivity.
Qed.

Lemma next_of_app pre (c : char) s :
  next_of (pre ++ c :: s) (length pre) = hd_error s.
Proof.
  unfold next_of. rewrite length_app. cbn [length].
  destruct s as [|d s].
  - cbn [length hd_error]. replace (length pre <? length pre + 1 - 1)%nat with false; [reflexivity|].
    symmetry; apply Nat.ltb_ge; lia.
  - cbn [length hd_error]. replace (length pre <? length pre + S (S (length s)) - 1)%nat with true
      by (symmetry; apply Nat.ltb_lt; lia).
    rewrite nth_error_app2 by lia. replace (length pre + 1 - length pre)%nat with 1%nat by lia.
    reflexivity.
Qed.

Lemma last_error_snoc {A} (pre : list A) c : last_error (pre ++ [c]) = Some c.
Proof.
  unfold last_error. destruct (pre ++ [c]) eqn:E.
  - destruct pre; discriminate.
  - rewrite <- E. rewrite length_app. cbn [length].
    rewrite nth_error_app2 by lia. replace (length pre + 1 - 1 - length pre)%nat with 0%nat by lia.
    reflexivity.
Qed.

Lemma loop_scan s : forall pre,
  map snd (filter (appended (pre ++ s)) (enumerate_from (length pre) s))
  = scan (last_error pre) s.
Proof.
  induction s as [|c s IH]; intros pre; [reflexivity|].
  cbn [enumerate_from filter scan]. unfold appended at 1.
  rewrite prev_of_app, next_of_app.
  specialize (IH (pre ++ [c])). rewrite <- app_assoc in IH. cbn [app] in IH.
  rewrite length_app in IH. cbn [length] in IH. rewrite Nat.add_1_r in IH.
  rewrite last_error_snoc in IH.
  destruct (in_kana c); [destruct (keep_kana _ _)|]; cbn [map snd]; rewrite IH; reflexivity.
Qed.

Lemma fix_scan dst :
  fix_ dst = if existsb in_kana dst then scan None dst else dst.
Proof.
  unfold fix_. destruct dst as [|c s] eqn:E; [reflexivity|]. rewrite <- E.
  destruct (existsb in_kana dst); cbn [negb]; [|reflexivity].
  apply (loop_scan dst []).
Qed.


Lemma in_kana_japanese c : in_kana c = true -> is_japanese_char c = true.
Proof.
  unfold in_kana, char_in, KANA_TO_CLEAN. cbn [existsb]. unfold eqc.
  rewrite !orb_true_iff. rewrite !Z.eqb_eq.
  intros H. repeat (destruct H as [H|H]; [subst c; reflexivity|]). discriminate.
Qed.

Lemma keep_prev_japanese p n : is_japanese_char p = true -> keep_kana (Some p) n = true.
Proof. intros H. unfold keep_kana. cbn [opt_japanese]. rewrite H. reflexivity. Qed.

Lemma keep_next_japanese p n : is_japanese_char n = true -> keep_kana p (Some n) = true.
Proof. intros H. unfold keep_kana. cbn [opt_japanese]. rewrite H, orb_true_r. reflexivity. Qed.

Lemma scan_stable_fixed s : forall p, stable p s = true -> scan p s = s.
Proof.
  induction s as [|c s IH]; intros p H; [reflexivity|].
  cbn [stable scan] in *. apply andb_true_iff in H as [H1 H2].
  rewrite (IH _ H2). destruct (in_kana c); [|reflexivity].
  cbn [negb orb] in H1. rewrite H1. reflexivity.
Qed.

Lemma stable_head_plain c s p q :
  in_kana c = false -> stable p (c :: s) = stable q (c :: s).
Proof. intros H. cbn [stable]. rewrite H. reflexivity. Qed.

Lemma scan_head_after_japanese c s :
  is_japanese_char c = true -> hd_error (scan (Some c) s) = hd_error s.
Proof.
  intros H. destruct s as [|d s]; [reflexivity|]. cbn [scan].
  rewrite keep_prev_japanese by exact H. destruct (in_kana d); reflexivity.
Qed.

Lemma dropped_next_plain p s :
  keep_kana p (hd_error s) = false ->
  match s with [] => True | d :: _ => in_kana d = false end.
Proof.
  destruct s as [|d s]; [trivial|]. cbn [hd_error]. intros H.
  destruct (in_kana d) eqn:E; [|reflexivity].
  rewrite keep_next_japanese in H; [discriminate|]. now apply in_kana_japanese.
Qed.

Lemma scan_stable s : forall p, stable p (scan p s) = true.
Proof.
  induction s as [|c s IH]; intros p; [reflexivity|].
  cbn [scan]. destruct (in_kana c) eqn:Ec.
  - destruct (keep_kana p (hd_error s)) eqn:Ek.
    + cbn [stable]. rewrite IH, andb_true_r.
      rewrite scan_head_after_japanese by now apply in_kana_japanese.
      rewrite Ek. apply orb_true_r.
    + pose proof (dropped_next_plain p s Ek) as Hn.
      destruct s as [|d s]; [reflexivity|].
      specialize (IH (Some c)). cbn [scan] in *. rewrite Hn in *.
      rewrite (stable_head_plain d _ p (Some c)); assumption.
  - cbn [stable]. rewrite Ec, IH. reflexivity.
Qed.

Lemma scan_deletes s : forall p, deletes in_kana s (scan p s).
Proof.
  induction s as [|c s IH]; intros p; cbn [scan]; [constructor|].
  destruct (in_kana c) eqn:E; [destruct (keep_kana _ _)|]; try (constructor; auto).
Qed.

Lemma deletes_refl P s : deletes P s s.
Proof. induction s; constructor; auto. Qed.






Lemma pair_lookup_exists d a b :
  NoDup (map fst d) ->
  existsb (fun oc => eqc a (fst oc) && eqc b (snd oc)) d
  = match pair_lookup a d with Some close => eqc b close | None => false end.
Proof.
  induction d as [|[o c] d IH]; intros Hnd; [reflexivity|].
  cbn [existsb pair_lookup fst snd map] in *. inversion Hnd as [|? ? Hni Hnd']; subst.
  destruct (eqc a o) eqn:E; cbn [andb orb].
  - apply Z.eqb_eq in E. subst o.
    destruct (eqc b c); [reflexivity|]. cbn [orb].
    clear IH Hnd Hnd'. induction d as [|[o' c'] d IH]; [reflexivity|].
    cbn [existsb fst snd map] in *.
    destruct (eqc a o') eqn:E'.
    + apply Z.eqb_eq in E'. subst. exfalso. apply Hni. now left.
    + cbn [andb orb]. apply IH. intros H. apply Hni. now right.
  - apply IH, Hnd'.
Qed.

Lemma nodup_keys : NoDup (map fst matching_pairs).
Proof.
  cbv. repeat (constructor; [cbn [In]; intros H;
    repeat (destruct H as [H|H]; [discriminate H|]); exact H|]). constructor.
Qed.

Lemma pair_lookup_app a d1 d2 :
  pair_lookup a (d1 ++ d2)
  = match pair_lookup a d1 with Some c => Some c | None => pair_lookup a d2 end.
Proof.
  induction d1 as [|[o c] d1 IH]; [reflexivity|]. cbn [app pair_lookup].
  destruct (eqc a o); [reflexivity | exact IH].
Qed.

Lemma pair_lookup_same a qs :
  pair_lookup a (map (fun q => (q, q)) qs) = if char_in a qs then Some a else None.
Proof.
  induction qs as [|q qs IH]; [reflexivity|]. cbn [map pair_lookup]. unfold char_in in *.
  cbn [existsb]. destruct (eqc a q) eqn:E; [|exact IH].
  apply Z.eqb_eq in E. subst. reflexivity.
Qed.

Lemma is_protected_enclosed l r : is_protected l r = enclosed l r.
Proof.
  unfold is_protected, enclosed. destruct l as [a|]; [|reflexivity].
  destruct r as [b|].
  - rewrite (pair_lookup_exists _ _ _ nodup_keys). unfold matching_pairs.
    rewrite pair_lookup_app, pair_lookup_same. cbn [opt_eqc].
    destruct (pair_lookup a PROTECTION_PAIRS) as [c|] eqn:E.
    + unfold eqc. rewrite (Z.eqb_sym b c).
      destruct (c =? b) eqn:Ecb; [reflexivity|].
      destruct (char_in a SAME_QUOTES) eqn:Eq; [|reflexivity].
      exfalso. revert E Eq. unfold char_in, SAME_QUOTES, PROTECTION_PAIRS, eqc.
      cbn [existsb pair_lookup]. rewrite !orb_true_iff, !Z.eqb_eq.
      intros E [H|[H|[H|H]]]; try discriminate; subst a; discriminate E.
    + destruct (char_in a SAME_QUOTES); cbn [andb]; [|reflexivity].
      unfold eqc. rewrite Z.eqb_sym. destruct (a =? b); reflexivity.
  - cbn [opt_eqc]. destruct (pair_lookup a PROTECTION_PAIRS); cbn;
      rewrite ?andb_false_r; reflexivity.
Qed.

Lemma keep_kana_rule l r : keep_kana l r = retention_rule END_MARKS l r.
Proof.
  unfold keep_kana, retention_rule. rewrite is_protected_enclosed.
  destruct (opt_japanese l || opt_japanese r); cbn [orb]; [reflexivity|].
  destruct (enclosed l r); reflexivity.
Qed.

Lemma map_snd_enumerate (s : str) i : map snd (enumerate_from i s) = s.
Proof. revert i. induction s; intros; cbn; f_equal; auto. Qed.

Lemma filter_all {A} (f : A -> bool) l : (forall x, In x l -> f x = true) -> filter f l = l.
Proof.
  induction l as [|a l IH]; intros H; [reflexivity|]. cbn [filter].
  rewrite (H a) by now left. f_equal. apply IH. intros; apply H; now right.
Qed.

Lemma enumerate_in (s : str) : forall i j c, In (j, c) (enumerate_from i s) -> In c s.
Proof.
  induction s as [|a s IH]; intros i j c H; [destruct H|].
  destruct H as [H|H]; [inversion H; now left | right; eapply IH; eauto].
Qed.

Lemma fix_retain dst : fix_ dst = retain (retention_rule END_MARKS) dst.
Proof.
  unfold fix_, retain. destruct dst as [|c0 s0] eqn:E; [reflexivity|]. rewrite <- E. clear E.
  destruct (existsb in_kana dst) eqn:Ek; cbn [negb].
  - f_equal. apply filter_ext. intros [i c]. cbn [appended fst snd].
    rewrite keep_kana_rule. destruct (in_kana c); reflexivity.
  - rewrite filter_all; [symmetry; apply map_snd_enumerate|].
    intros [i c] Hin. cbn [fst snd]. apply enumerate_in in Hin.
    destruct (in_kana c) eqn:Ec; [|reflexivity].
    exfalso. assert (existsb in_kana dst = true) by (apply existsb_exists; eauto).
    congruence.
Qed.






(** C3. [KanaFixer.fix] is idempotent: a second pass over its output changes
    nothing, [fix(fix(x)) == fix(x)] for every string [x]. *)
Theorem kana_fix_idempotent (x : str) : fix_ (fix_ x) = fix_ x.
Proof.
  rewrite (fix_scan x). destruct (existsb in_kana x) eqn:E.
  - rewrite fix_scan. destruct (existsb in_kana (scan None x)); [|reflexivity].
    apply scan_stable_fixed, scan_stable.
  - rewrite fix_scan, E. reflexivity.
Qed.

(** C10. [KanaFixer.fix x] is [x] with zero or more glyphs of
    [KANA_TO_CLEAN] deleted: nothing is inserted, changed or reordered, and a
    string with no glyph of the set is returned unchanged. *)
Theorem kana_fix_only_deletes (x : str) :
  deletes in_kana x (fix_ x) /\ (existsb in_kana x = false -> fix_ x = x).
Proof.
  rewrite fix_scan. split.
  - destruct (existsb in_kana x); [apply scan_deletes | apply deletes_refl].
  - intros ->. reflexivity.
Qed.

Lemma kana_fix_only_deletes_witness :
  existsb in_kana (lit "plain text") = false
  /\ fix_ (lit "plain text") = lit "plain text".
Proof.
  split; [reflexivity|].
  apply (proj2 (kana_fix_only_deletes (lit "plain text"))). reflexivity.
Defined.

(** C4, as amended. Every residual glyph is kept when a neighbour is
    source-script or when it is enclosed by a matching quote or bracket
    pair; otherwise it is dropped exactly when it is followed by the end of
    the text, by a sentence-final or closing punctuation mark, or by a space
    (U+0020); it is kept in all other cases. The two examples of the claim
    hold. *)
Theorem kana_fix_retention_rule :
  (forall dst, fix_ dst = retain (retention_rule (final_or_closing_mark ++ [0x20])) dst)
  /\ fix_ (lit "ok " ++ [kana_no; 0x3002]) = lit "ok " ++ [0x3002]
  /\ fix_ [0x300C; kana_no; 0x300D] = [0x300C; kana_no; 0x300D].
Proof.
  split; [intros dst; apply fix_retain|]. split; reflexivity.
Qed.

(** C4 as stated fails: a glyph followed by a space, which is no punctuation
    mark, is dropped. *)
Lemma kana_fix_drops_before_space :
  fix_ (kana_no :: lit " a") = lit " a"
  /\ retain (retention_rule final_or_closing_mark) (kana_no :: lit " a")
     = kana_no :: lit " a"
  /\ fix_ (kana_no :: lit " a")
     <> retain (retention_rule final_or_closing_mark) (kana_no :: lit " a").
Proof.
  split; [reflexivity|]. split; [reflexivity|]. vm_compute. discriminate.
Qed.

End KanaProofs.


(** ** [NumberFixer] *)

Section NumberProofs.

Import NumberFixer NumberSpec ReSpec.

(** *** Character classes *)

Lemma decimal_in_outside zeros lo hi c :
  forallb (fun z => (z + 9 <? lo) || (hi <? z)) zeros = true ->
  lo <= c <= hi -> decimal_in zeros c = None.
Proof.
  induction zeros as [|z zs IH]; intros Hall Hc; [reflexivity|].
  cbn [forallb decimal_in] in *. apply andb_true_iff in Hall as [Hz Hall].
  replace ((z <=? c) && (c <=? z + 9)) with false; [auto|].
  symmetry. apply andb_false_iff. apply orb_true_iff in Hz as [Hz|Hz].
  - right. apply Z.leb_gt. apply Z.ltb_lt in Hz. lia.
  - left. apply Z.leb_gt. apply Z.ltb_lt in Hz. lia.
Qed.

Lemma not_digit_in_range lo hi c :
  forallb (fun z => (z + 9 <? lo) || (hi <? z)) DECIMAL_ZEROS = true ->
  lo <= c <= hi -> is_digit c = false.
Proof.
  intros H Hc. unfold is_digit, decimal. now rewrite (decimal_in_outside _ lo hi).
Qed.

Lemma circled_not_digit c : is_circled c = true -> is_digit c = false.
Proof.
  unfold is_circled. rewrite !orb_true_iff, !andb_true_iff, !Z.leb_le.
  intros [[[[H|H]|H]|H]|H].
  - apply (not_digit_in_range 0x2460 0x2473); [reflexivity | lia].
  - apply (not_digit_in_range 0x3251 0x325F); [reflexivity | lia].
  - apply (not_digit_in_range 0x32B1 0x32BF); [reflexivity | lia].
  - apply (not_digit_in_range 0x2776 0x277F); [reflexivity | lia].
  - apply (not_digit_in_range 0x24EB 0x24F4); [reflexivity | lia].
Qed.

Lemma space_cases c :
  is_space c = true ->
  (0x09 <= c <= 0x0D) \/ (0x1C <= c <= 0x20) \/ c = 0x85 \/ c = 0xA0 \/ c = 0x1680
  \/ (0x2000 <= c <= 0x200A) \/ c = 0x2028 \/ c = 0x2029 \/ c = 0x202F \/ c = 0x205F
  \/ c = 0x3000.
Proof.
  unfold is_space, eqc. intros H.
  repeat (apply orb_true_iff in H; destruct H as [H|H]);
    try (apply andb_true_iff in H; destruct H as [H1 H2];
         apply Z.leb_le in H1; apply Z.leb_le in H2);
    try (apply Z.eqb_eq in H); lia.
Qed.

Lemma space_not_digit c : is_space c = true -> is_digit c = false.
Proof.
  intros H. apply space_cases in H.
  destruct H as [H|[H|[H|[H|[H|[H|[H|[H|[H|[H|H]]]]]]]]]].
  - apply (not_digit_in_range 0x09 0x0D); [reflexivity | lia].
  - apply (not_digit_in_range 0x1C 0x20); [reflexivity | lia].
  - apply (not_digit_in_range 0x85 0x85); [reflexivity | lia].
  - apply (not_digit_in_range 0xA0 0xA0); [reflexivity | lia].
  - apply (not_digit_in_range 0x1680 0x1680); [reflexivity | lia].
  - apply (not_digit_in_range 0x2000 0x200A); [reflexivity | lia].
  - apply (not_digit_in_range 0x2028 0x2028); [reflexivity | lia].
  - apply (not_digit_in_range 0x2029 0x2029); [reflexivity | lia].
  - apply (not_digit_in_range 0x202F 0x202F); [reflexivity | lia].
  - apply (not_digit_in_range 0x205F 0x205F); [reflexivity | lia].
  - apply (not_digit_in_range 0x3000 0x3000); [reflexivity | lia].
Qed.

Lemma int_space_is_space c : int_space c = true -> is_space c = true.
Proof.
  unfold int_space. destruct (c <? 127); [|auto]. intros H.
  unfold is_space. apply orb_true_iff in H as [H|H].
  - now rewrite H.
  - unfold eqc in H. apply Z.eqb_eq in H. subst. reflexivity.
Qed.

Lemma digit_not_int_space c : is_digit c = true -> int_space c = false.
Proof.
  intros H. destruct (int_space c) eqn:E; [|reflexivity].
  apply int_space_is_space, space_not_digit in E. congruence.
Qed.

Lemma circled_not_int_space c : is_circled c = true -> int_space c = false.
Proof.
  intros H. destruct (int_space c) eqn:E; [|reflexivity]. exfalso.
  apply int_space_is_space, space_cases in E. revert H. unfold is_circled.
  rewrite !orb_true_iff, !andb_true_iff, !Z.leb_le. lia.
Qed.

(** *** [int] on the tokens of [PATTERN_ALL_NUM] *)

Lemma digit_decimal c : is_digit c = true -> exists v, decimal c = Some v.
Proof. unfold is_digit. destruct (decimal c); [eauto | discriminate]. Qed.

Lemma int_body_digits ds : forall seen acc,
  forallb is_digit ds = true -> (0 < seen + length ds)%nat ->
  int_body ds seen false acc
  = Some (fold_left (fun acc c => 10 * acc + match decimal c with
                                             | Some v => v
                                             | None => 0
                                             end) ds acc,
          (seen + length ds)%nat).
Proof.
  induction ds as [|d ds IH]; intros seen acc Hd Hlen.
  - cbn [int_body fold_left length orb] in *.
    replace (seen =? 0)%nat with false by (symmetry; apply Nat.eqb_neq; lia).
    now rewrite Nat.add_0_r.
  - cbn [forallb] in Hd. apply andb_true_iff in Hd as [Hd1 Hd].
    destruct (digit_decimal d Hd1) as [v Hv].
    cbn [int_body fold_left length]. rewrite Hv, IH by (auto; lia).
    now rewrite Nat.add_succ_r.
Qed.

Lemma sign_not_digit c : is_digit c = true -> eqc c 0x2B = false /\ eqc c 0x2D = false.
Proof.
  intros H. unfold eqc. split.
  - destruct (c =? 43) eqn:E; [|reflexivity]. apply Z.eqb_eq in E. subst. discriminate.
  - destruct (c =? 45) eqn:E; [|reflexivity]. apply Z.eqb_eq in E. subst. discriminate.
Qed.

Lemma int_of_str_digits ds :
  Re.nonempty ds = true -> forallb is_digit ds = true ->
  int_of_str ds
  = if (INT_MAX_STR_DIGITS <? length ds)%nat then None else Some (int_of_digits ds).
Proof.
  intros Hne Hd. destruct ds as [|d ds]; [discriminate|].
  pose proof Hd as Hd'. cbn [forallb] in Hd'. apply andb_true_iff in Hd' as [Hd1 _].
  unfold int_of_str. cbv zeta. cbn [int_lstrip].
  rewrite (digit_not_int_space d Hd1).
  destruct (sign_not_digit d Hd1) as [-> ->]. cbn [fst snd].
  rewrite int_body_digits by (auto; cbn [length]; lia).
  cbn [Nat.add]. reflexivity.
Qed.

Lemma int_of_str_circled g : is_circled g = true -> int_of_str [g] = None.
Proof.
  intros H. unfold int_of_str. cbv zeta. cbn [int_lstrip].
  rewrite (circled_not_int_space g H).
  assert (Hs : eqc g 0x2B = false /\ eqc g 0x2D = false).
  { unfold eqc. split.
    - destruct (g =? 43) eqn:E; [|reflexivity]. apply Z.eqb_eq in E. subst. discriminate.
    - destruct (g =? 45) eqn:E; [|reflexivity]. apply Z.eqb_eq in E. subst. discriminate. }
  destruct Hs as [-> ->]. cbn [fst snd int_body].
  pose proof (circled_not_digit g H) as Hd. unfold is_digit in Hd.
  destruct (decimal g); [discriminate | reflexivity].
Qed.

(** *** The matcher on repetitions of a class *)

Lemma take_drop_while p s : take_while p s ++ drop_while p s = s.
Proof. induction s as [|c s IH]; cbn; [reflexivity|]. destruct (p c); cbn; congruence. Qed.

Lemma star_head p s : forall prev,
  exists tl, Re.star p prev s
             = (prev_after prev (take_while p s), drop_while p s) :: tl.
Proof.
  induction s as [|c s IH]; intros prev; cbn [Re.star take_while drop_while].
  - now exists [].
  - destruct (p c).
    + destruct (IH (Some c)) as [tl ->]. cbn [app prev_after fold_left]. eauto.
    + now exists [].
Qed.

Lemma matched_app m rest q : Re.matched (m ++ rest) (q, rest) = m.
Proof.
  unfold Re.matched. cbn [snd]. rewrite length_app.
  replace (length m + length rest - length rest)%nat with (length m) by lia.
  rewrite firstn_app, firstn_all, Nat.sub_diag. cbn. apply app_nil_r.
Qed.

Lemma take_while_all p m rest :
  forallb p m = true -> negb (match rest with c :: _ => p c | [] => false end) = true ->
  take_while p (m ++ rest) = m /\ drop_while p (m ++ rest) = rest.
Proof.
  intros Hm Hr. induction m as [|c m IH]; cbn [app take_while drop_while].
  - destruct rest as [|d rest]; [auto|]. apply negb_true_iff in Hr.
    cbn [take_while drop_while]. rewrite Hr. auto.
  - cbn [forallb] in Hm. apply andb_true_iff in Hm as [-> Hm].
    destruct (IH Hm) as [-> ->]. auto.
Qed.

(** *** Skipping over a match *)

Lemma pieces_skip r m : forall prev rest,
  Re.pieces r prev (m ++ rest) (length m) = Re.pieces r (prev_after prev m) rest 0.
Proof.
  induction m as [|c m IH]; intros prev rest; [reflexivity|].
  cbn [app length Re.pieces prev_after fold_left]. apply IH.
Qed.

(** *** [PATTERN_ALL_NUM] at one position *)

Lemma run_all_num_digits prev ds rest :
  Re.nonempty ds = true -> forallb is_digit ds = true ->
  negb (starts_with_digit rest) = true ->
  exists q tl, Re.run PATTERN_ALL_NUM prev (ds ++ rest) = (q, rest) :: tl.
Proof.
  intros Hne Hds Hrest. destruct ds as [|d ds]; [discriminate|].
  cbn [forallb] in Hds. apply andb_true_iff in Hds as [Hd Hds].
  unfold PATTERN_ALL_NUM, Re.Plus. cbn [Re.run app]. rewrite Hd.
  cbn [flat_map fst snd]. rewrite app_nil_r.
  destruct (star_head is_digit (ds ++ rest) (Some d)) as [tl ->].
  destruct (take_while_all is_digit ds rest Hds Hrest) as [_ ->].
  cbn [app]. eauto.
Qed.

Lemma run_all_num_circled prev g rest :
  is_circled g = true ->
  Re.run PATTERN_ALL_NUM prev (g :: rest) = [(Some g, rest)].
Proof.
  intros Hg. unfold PATTERN_ALL_NUM, Re.Plus. cbn [Re.run].
  rewrite (circled_not_digit g Hg), Hg. reflexivity.
Qed.

Lemma run_all_num_other prev c rest :
  is_digit c = false -> is_circled c = false ->
  Re.run PATTERN_ALL_NUM prev (c :: rest) = [].
Proof.
  intros Hd Hc. unfold PATTERN_ALL_NUM, Re.Plus. cbn [Re.run]. rewrite Hd, Hc. reflexivity.
Qed.

Lemma run_all_num_end prev : Re.run PATTERN_ALL_NUM prev [] = [].
Proof. reflexivity. Qed.

(** *** The scan of a canonical chunk list *)

Lemma pieces_canonical l : forall prev,
  canonical l = true ->
  Re.pieces PATTERN_ALL_NUM prev (render l) 0 = map chunk_piece l.
Proof.
  induction l as [|k l IH]; intros prev Hc; [reflexivity|].
  destruct k as [c|ds|g]; cbn [canonical] in Hc;
    repeat (apply andb_true_iff in Hc as [Hc ?]).
  - apply negb_true_iff in Hc. apply negb_true_iff in H0.
    change (render (Other c :: l)) with (c :: render l).
    cbn [Re.pieces]. rewrite run_all_num_other by assumption.
    cbn [map chunk_piece]. f_equal. apply IH. assumption.
  - change (render (DigitRun ds :: l)) with (ds ++ render l).
    destruct (run_all_num_digits prev ds (render l) Hc H1 H0) as (q & tl & Hrun).
    destruct ds as [|d ds]; [discriminate|].
    cbn [app Re.pieces]. cbn [app] in Hrun. rewrite Hrun. cbn [map].
    change (d :: ds ++ render l) with ((d :: ds) ++ render l).
    rewrite matched_app. cbn [length].
    replace (S (length ds) - 1)%nat with (length ds) by lia.
    rewrite pieces_skip. cbn [chunk_piece]. f_equal. apply IH. assumption.
  - change (render (Circled g :: l)) with (g :: render l).
    cbn [Re.pieces]. rewrite run_all_num_circled by assumption.
    cbn [map]. change (g :: render l) with ([g] ++ render l). rewrite matched_app.
    cbn [length Nat.sub chunk_piece]. f_equal. apply IH. assumption.
Qed.


Lemma render_app a b : render (a ++ b) = render a ++ render b.
Proof. unfold render. apply flat_map_app. Qed.

Lemma forallb_rev {A} (p : A -> bool) l : forallb p (rev l) = forallb p l.
Proof.
  induction l as [|a l IH]; [reflexivity|]. cbn [rev forallb].
  rewrite forallb_app, IH. cbn. rewrite andb_true_r. apply andb_comm.
Qed.

Lemma nonempty_rev_cons c (l : str) : Re.nonempty (rev (c :: l)) = true.
Proof. cbn [rev]. destruct (rev l); reflexivity. Qed.

Lemma canonical_flush run l :
  forallb is_digit run = true -> negb (starts_with_digit (render l)) = true ->
  canonical l = true -> canonical (flush run ++ l) = true.
Proof.
  intros Hd Hs Hc. destruct run as [|c run]; [exact Hc|].
  unfold flush. cbn [app canonical]. rewrite nonempty_rev_cons, forallb_rev, Hd, Hs, Hc.
  reflexivity.
Qed.

Lemma render_flush run : render (flush run) = rev run.
Proof. destruct run; [reflexivity|]. unfold flush, render. cbn [flat_map chunk_text]. apply app_nil_r. Qed.

Lemma lex_canonical s : forall run,
  forallb is_digit run = true ->
  canonical (lex s run) = true /\ render (lex s run) = rev run ++ s.
Proof.
  induction s as [|c s IH]; intros run Hrun; cbn [lex].
  - split; [|rewrite app_nil_r; apply render_flush].
    rewrite <- (app_nil_r (flush run)). now apply canonical_flush.
  - destruct (is_digit c) eqn:Ed.
    + destruct (IH (c :: run)) as [H1 H2]; [cbn [forallb]; now rewrite Ed|].
      split; [exact H1|]. rewrite H2. cbn [rev]. now rewrite <- app_assoc.
    + destruct (IH []) as [H1 H2]; [reflexivity|]. cbn [rev app] in H2. split.
      * apply canonical_flush; [exact Hrun| |].
        -- destruct (is_circled c); unfold render; cbn [flat_map chunk_text app starts_with_digit];
             now rewrite Ed.
        -- destruct (is_circled c) eqn:Ec; cbn [canonical]; now rewrite Ed, ?Ec, H1.
      * rewrite render_app, render_flush. f_equal.
        destruct (is_circled c); unfold render in *; cbn [flat_map chunk_text app]; now rewrite H2.
Qed.

Lemma tokenize_canonical s : canonical (tokenize s) = true.
Proof. now apply (lex_canonical s []). Qed.

Lemma render_tokenize s : render (tokenize s) = s.
Proof. now apply (lex_canonical s []). Qed.

Lemma pieces_tokenize s prev :
  Re.pieces PATTERN_ALL_NUM prev s 0 = map chunk_piece (tokenize s).
Proof.
  rewrite <- (render_tokenize s) at 1. apply pieces_canonical, tokenize_canonical.
Qed.

Lemma findall_pieces l :
  flat_map (fun p => match p with Re.Hit m => [m] | Re.Lit _ => [] end) (map chunk_piece l)
  = map chunk_text (token_stream l).
Proof.
  induction l as [|k l IH]; [reflexivity|].
  destruct k; cbn [map chunk_piece flat_map token_stream filter is_token chunk_text app];
    unfold token_stream in IH; rewrite IH; reflexivity.
Qed.

Lemma findall_all_num s :
  Re.findall PATTERN_ALL_NUM s = map chunk_text (token_stream (tokenize s)).
Proof. unfold Re.findall. rewrite pieces_tokenize. apply findall_pieces. Qed.

Lemma canonical_tokens l : canonical l = true -> forallb proper_token (token_stream l) = true.
Proof.
  induction l as [|k l IH]; intros Hc; [reflexivity|].
  destruct k; cbn [canonical] in Hc; repeat (apply andb_true_iff in Hc as [Hc ?]);
    cbn [token_stream filter is_token forallb proper_token]; fold (token_stream l);
    rewrite ?IH by assumption; rewrite ?andb_true_r; auto.
  now rewrite Hc, H1.
Qed.

(** *** [map_tokens] *)

Lemma sub_map_tokens repl F l : forall n,
  (forall i k, is_token k = true -> repl i (chunk_text k) = chunk_text (F i k)) ->
  Re.sub_pieces repl n (map chunk_piece l) = render (map_tokens F n l).
Proof.
  induction l as [|k l IH]; intros n H; [reflexivity|].
  destruct k as [c|ds|g]; cbn [map chunk_piece Re.sub_pieces map_tokens].
  - rewrite IH by exact H. reflexivity.
  - rewrite IH by exact H. pose proof (H n (DigitRun ds) eq_refl) as E.
    cbn [chunk_text] in E. rewrite E. reflexivity.
  - rewrite IH by exact H. pose proof (H n (Circled g) eq_refl) as E.
    cbn [chunk_text] in E. rewrite E. reflexivity.
Qed.

Lemma map_tokens_ext f f' l : forall n,
  (forall i k, nth_error (token_stream l) i = Some k -> f (n + i)%nat k = f' (n + i)%nat k) ->
  map_tokens f n l = map_tokens f' n l.
Proof.
  induction l as [|k l IH]; intros n H; [reflexivity|].
  destruct k as [c|ds|g]; cbn [map_tokens].
  - f_equal. apply IH. exact H.
  - f_equal.
    + specialize (H 0%nat (DigitRun ds) eq_refl). now rewrite Nat.add_0_r in H.
    + apply IH. intros i k Hk. specialize (H (S i) k Hk). now rewrite Nat.add_succ_r in H.
  - f_equal.
    + specialize (H 0%nat (Circled g) eq_refl). now rewrite Nat.add_0_r in H.
    + apply IH. intros i k Hk. specialize (H (S i) k Hk). now rewrite Nat.add_succ_r in H.
Qed.

Lemma map_tokens_compose g f l : forall n,
  (forall i k, is_token k = true -> is_token (f i k) = true) ->
  map_tokens g n (map_tokens f n l) = map_tokens (fun i k => g i (f i k)) n l.
Proof.
  induction l as [|k l IH]; intros n H; [reflexivity|].
  destruct k as [c|ds|x]; cbn [map_tokens].
  - f_equal. now apply IH.
  - pose proof (H n (DigitRun ds) eq_refl) as Ht.
    destruct (f n (DigitRun ds)) eqn:E; [discriminate| |]; cbn [map_tokens]; f_equal; now apply IH.
  - pose proof (H n (Circled x) eq_refl) as Ht.
    destruct (f n (Circled x)) eqn:E; [discriminate| |]; cbn [map_tokens]; f_equal; now apply IH.
Qed.

Lemma map_tokens_id l : forall n, map_tokens (fun _ k => k) n l = l.
Proof.
  induction l as [|k l IH]; intros n; [reflexivity|].
  destruct k; cbn [map_tokens]; now rewrite IH.
Qed.

Lemma head_not_digit_map f l n :
  circles_only f -> canonical l = true ->
  negb (starts_with_digit (render l)) = true ->
  negb (starts_with_digit (render (map_tokens f n l))) = true.
Proof.
  intros Hf Hc Hs. destruct l as [|k l]; [reflexivity|].
  destruct k as [c|ds|g].
  - exact Hs.
  - exfalso. cbn [canonical] in Hc. repeat (apply andb_true_iff in Hc as [Hc ?]).
    destruct ds as [|d ds]; [discriminate|]. cbn in Hs, H1.
    apply andb_true_iff in H1 as [H1 _]. rewrite H1 in Hs. discriminate.
  - cbn [map_tokens]. destruct (Hf n (Circled g)) as [->|(ds & g' & Hk & _)]; [exact Hs|discriminate].
Qed.

Lemma canonical_map_tokens f l : forall n,
  circles_only f -> canonical l = true -> canonical (map_tokens f n l) = true.
Proof.
  induction l as [|k l IH]; intros n Hf Hc; [reflexivity|].
  destruct k as [c|ds|g]; cbn [canonical] in Hc;
    repeat (apply andb_true_iff in Hc as [Hc ?]); cbn [map_tokens].
  - cbn [canonical]. rewrite Hc, H0, IH by assumption. reflexivity.
  - destruct (Hf n (DigitRun ds)) as [->|(ds' & g & Hk & -> & Hg)].
    + cbn [canonical]. rewrite Hc, H1, IH by assumption.
      rewrite (head_not_digit_map f l (S n)) by assumption. reflexivity.
    + cbn [canonical]. rewrite Hg, (circled_not_digit g Hg), IH by assumption. reflexivity.
  - destruct (Hf n (Circled g)) as [->|(ds' & g' & Hk & _)]; [|discriminate].
    cbn [canonical]. rewrite Hc, H0, IH by assumption. reflexivity.
Qed.

Lemma token_stream_length_map f l : forall n,
  (forall i k, is_token k = true -> is_token (f i k) = true) ->
  length (token_stream (map_tokens f n l)) = length (token_stream l).
Proof.
  induction l as [|k l IH]; intros n H; [reflexivity|].
  destruct k as [c|ds|g]; cbn [map_tokens token_stream filter is_token].
  - now apply IH.
  - rewrite (H n (DigitRun ds) eq_refl). cbn [length]. f_equal. now apply IH.
  - rewrite (H n (Circled g) eq_refl). cbn [length]. f_equal. now apply IH.
Qed.


Lemma digit_not_circled c : is_digit c = true -> is_circled c = false.
Proof.
  intros H. destruct (is_circled c) eqn:E; [|reflexivity].
  rewrite (circled_not_digit c E) in H. discriminate.
Qed.

Lemma restore_rule_circles_only S lim :
  forallb proper_token S = true -> circles_only (restore_rule S lim).
Proof.
  intros HS i k. unfold restore_rule.
  destruct (nth_error S i) as [[c|ds|g]|] eqn:E; auto.
  destruct k as [c'|ds|g']; auto.
  destruct ((i <? lim)%nat && converts_above_zero ds); auto.
  right. exists ds, g. repeat split.
  apply nth_error_In in E. rewrite forallb_forall in HS. exact (HS _ E).
Qed.

Lemma restore_rule_token S lim i k :
  is_token k = true -> is_token (restore_rule S lim i k) = true.
Proof.
  intros H. unfold restore_rule.
  destruct (nth_error S i) as [[c|ds|g]|]; auto.
  destruct k; auto. destruct (_ && _); auto.
Qed.

Lemma nth_map_text (l : list chunk) i k :
  nth_error l i = Some k -> nth i (map chunk_text l) [] = chunk_text k.
Proof.
  intros H. rewrite (nth_indep _ [] (chunk_text k)).
  - rewrite map_nth. f_equal. now apply nth_error_nth.
  - rewrite length_map. apply nth_error_Some. congruence.
Qed.

Lemma token_stream_tokens l k : In k (token_stream l) -> is_token k = true.
Proof. unfold token_stream. intros H. now apply filter_In in H. Qed.

Lemma match_circled_token k :
  proper_token k = true ->
  Re.match_ PATTERN_CIRCLED_NUM (chunk_text k)
  = match k with Circled _ => true | _ => false end.
Proof.
  destruct k as [c|ds|g]; cbn [proper_token]; intros H; [discriminate| |].
  - apply andb_true_iff in H as [Hne Hd]. destruct ds as [|d ds]; [discriminate|].
    cbn [forallb] in Hd. apply andb_true_iff in Hd as [Hd _].
    unfold Re.match_, PATTERN_CIRCLED_NUM. cbn [chunk_text Re.run].
    now rewrite (digit_not_circled d Hd).
  - unfold Re.match_, PATTERN_CIRCLED_NUM. cbn [chunk_text Re.run]. now rewrite H.
Qed.

Lemma safe_int_token k :
  proper_token k = true ->
  (safe_int (chunk_text k) >? 0)
  = match k with DigitRun ds => converts_above_zero ds | _ => false end.
Proof.
  destruct k as [c|ds|g]; cbn [proper_token]; intros H; [discriminate| |].
  - apply andb_true_iff in H as [Hne Hd]. unfold safe_int, converts_above_zero.
    cbn [chunk_text]. rewrite (int_of_str_digits ds Hne Hd).
    destruct (INT_MAX_STR_DIGITS <? length ds)%nat eqn:E.
    + apply Nat.ltb_lt in E.
      replace (length ds <=? INT_MAX_STR_DIGITS)%nat with false
        by (symmetry; apply Nat.leb_gt; lia).
      reflexivity.
    + apply Nat.ltb_ge in E.
      replace (length ds <=? INT_MAX_STR_DIGITS)%nat with true
        by (symmetry; apply Nat.leb_le; lia).
      reflexivity.
  - unfold safe_int. cbn [chunk_text]. now rewrite (int_of_str_circled g H).
Qed.

Section Loop.
Variables src dst : str.

Local Abbreviation SRC := (token_stream (tokenize src)).
Local Abbreviation DST := (tokenize dst).
Local Abbreviation TOK := (token_stream (tokenize dst)).
Local Abbreviation UPTO := (restored_upto src dst).


Lemma proper_S : forallb proper_token SRC = true.
Proof. apply canonical_tokens, tokenize_canonical. Qed.

Lemma proper_T : forallb proper_token TOK = true.
Proof. apply canonical_tokens, tokenize_canonical. Qed.

Lemma canonical_R k : canonical (UPTO k) = true.
Proof.
  apply canonical_map_tokens; [apply restore_rule_circles_only, proper_S|].
  apply tokenize_canonical.
Qed.

Lemma R_zero : UPTO 0 = DST.
Proof.
  unfold restored_upto. rewrite (map_tokens_ext _ (fun _ k => k)); [apply map_tokens_id|].
  intros i k _. unfold restore_rule.
  destruct (nth_error SRC (0 + i)) as [[c|ds|g]|]; auto. destruct k; auto.
Qed.

Lemma R_same k :
  (forall g ds, nth_error SRC k = Some (Circled g) -> nth_error TOK k = Some (DigitRun ds) ->
                converts_above_zero ds = false) ->
  UPTO (Datatypes.S k) = UPTO k.
Proof.
  intros H. unfold restored_upto. apply map_tokens_ext. intros i c Hc. cbn [Nat.add].
  unfold restore_rule. destruct (nth_error SRC i) as [[x|ds|g]|] eqn:E; auto.
  destruct c as [x|ds|g']; auto.
  destruct (Nat.eq_dec i k) as [->|Hne].
  - rewrite (H g ds E Hc). now rewrite !andb_false_r.
  - replace (i <? Datatypes.S k)%nat with (i <? k)%nat; [reflexivity|].
    destruct (i <? k)%nat eqn:E1; symmetry.
    + apply Nat.ltb_lt in E1. apply Nat.ltb_lt. lia.
    + apply Nat.ltb_ge in E1. apply Nat.ltb_ge. lia.
Qed.

Lemma R_replace k g ds :
  nth_error SRC k = Some (Circled g) -> nth_error TOK k = Some (DigitRun ds) ->
  converts_above_zero ds = true ->
  map_tokens (fun i c => if (i =? k)%nat then Circled g else c) 0 (UPTO k)
  = UPTO (Datatypes.S k).
Proof.
  intros HS HT Hpos. unfold restored_upto.
  rewrite map_tokens_compose by (intros; now apply restore_rule_token).
  apply map_tokens_ext. intros i c Hc. cbn [Nat.add].
  destruct (Nat.eqb_spec i k) as [->|Hne].
  - rewrite HT in Hc. injection Hc as <-.
    unfold restore_rule. rewrite HS, Hpos.
    replace (k <? Datatypes.S k)%nat with true; [reflexivity|].
    symmetry. apply Nat.ltb_lt. lia.
  - unfold restore_rule. destruct (nth_error SRC i) as [[x|ds'|g']|] eqn:E; auto.
    destruct c as [x|ds'|g'']; auto.
    replace (i <? Datatypes.S k)%nat with (i <? k)%nat; [reflexivity|].
    destruct (i <? k)%nat eqn:E1; symmetry.
    + apply Nat.ltb_lt in E1. apply Nat.ltb_lt. lia.
    + apply Nat.ltb_ge in E1. apply Nat.ltb_ge. lia.
Qed.

Lemma fix_by_index_canonical l k g :
  canonical l = true ->
  fix_by_index (render l) k [g]
  = render (map_tokens (fun i c => if (i =? k)%nat then Circled g else c) 0 l).
Proof.
  intros Hc. unfold fix_by_index, Re.sub. rewrite pieces_canonical by exact Hc.
  apply sub_map_tokens. intros i c _. now destruct (i =? k)%nat.
Qed.

Lemma fix_step_R k :
  (k < length SRC)%nat -> (k < length TOK)%nat ->
  fix_step (map chunk_text SRC) (map chunk_text TOK) (render (UPTO k)) k
  = render (UPTO (Datatypes.S k)).
Proof.
  intros HkS HkT.
  destruct (nth_error SRC k) as [sk|] eqn:ES; [|apply nth_error_None in ES; lia].
  destruct (nth_error TOK k) as [tk|] eqn:ET; [|apply nth_error_None in ET; lia].
  assert (PS : proper_token sk = true).
  { pose proof proper_S as H. rewrite forallb_forall in H. apply H. eapply nth_error_In; eauto. }
  assert (PT : proper_token tk = true).
  { pose proof proper_T as H. rewrite forallb_forall in H. apply H. eapply nth_error_In; eauto. }
  unfold fix_step. rewrite (nth_map_text SRC k sk ES), (nth_map_text TOK k tk ET).
  rewrite (match_circled_token sk PS), (safe_int_token tk PT).
  destruct sk as [x|ds|g]; [discriminate| |]; cbn [negb].
  - f_equal. symmetry. apply R_same. intros g ds' H. congruence.
  - destruct tk as [x|ds|g']; [discriminate| |].
    + destruct (converts_above_zero ds) eqn:Hpos.
      * cbn [chunk_text]. rewrite fix_by_index_canonical by apply canonical_R.
        f_equal. now apply (R_replace k g ds).
      * f_equal. symmetry. apply R_same. intros g0 ds0 H1 H2. congruence.
    + f_equal. symmetry. apply R_same.
      intros g0 ds0 H1 H2. congruence.
Qed.

Lemma loop_R k :
  (k <= length SRC)%nat -> (k <= length TOK)%nat ->
  fold_left (fix_step (map chunk_text SRC) (map chunk_text TOK)) (seq 0 k) dst
  = render (UPTO k).
Proof.
  induction k as [|k IH]; intros HS HT.
  - cbn [seq fold_left]. rewrite R_zero. symmetry. apply render_tokenize.
  - rewrite seq_S, fold_left_app. cbn [Nat.add fold_left].
    rewrite IH by lia. apply fix_step_R; lia.
Qed.
End Loop.

Lemma pieces_class p s : forall prev,
  Re.pieces (Re.Cls p) prev s 0 = map (fun c => if p c then Re.Hit [c] else Re.Lit c) s.
Proof.
  induction s as [|c s IH]; intros prev; [reflexivity|].
  cbn [Re.pieces Re.run map]. destruct (p c) eqn:E.
  - cbn [map]. change (c :: s) with ([c] ++ s). rewrite matched_app.
    cbn [length Nat.sub]. now rewrite IH.
  - cbn [map]. now rewrite IH.
Qed.

Lemma findall_circled_empty s :
  match Re.findall PATTERN_CIRCLED_NUM s with [] => true | _ => false end
  = negb (existsb is_circled s).
Proof.
  unfold Re.findall, PATTERN_CIRCLED_NUM. rewrite pieces_class.
  induction s as [|c s IH]; [reflexivity|]. cbn [map flat_map existsb].
  destruct (is_circled c); [reflexivity|]. exact IH.
Qed.




(** C5, as amended. Without a circled-number glyph in [src],
    [NumberFixer.fix] returns [dst] unchanged. Otherwise both texts are
    tokenized into digit runs and circled glyphs, and token [i] of [dst] is
    replaced by the source's glyph exactly when [i] is below the shorter
    stream's length, the source token is a circled glyph and the token of
    [dst] is a digit run of at most 4300 digits, the most [int] converts,
    with a value above zero; every other token and character is left as it
    is. The example of the claim holds, and a run of 4300 digits is still
    replaced. *)
Theorem number_fix_restores_circled :
  (forall src dst,
     fix_ src dst = if existsb is_circled src then restore src dst else dst)
  /\ fix_ (lit "before " ++ [0x2460] ++ lit ", then " ++ [0x2461])
          (lit "before 1, then 2")
     = lit "before " ++ [0x2460] ++ lit ", then " ++ [0x2461]
  /\ fix_ [0x2460] (repeat 0x31 4300) = [0x2460].
Proof.
  split; [|split; [reflexivity | vm_compute; reflexivity]]. intros src dst.
  unfold fix_. pose proof (findall_circled_empty src) as H.
  destruct (Re.findall PATTERN_CIRCLED_NUM src) eqn:E.
  - symmetry in H. apply negb_true_iff in H. now rewrite H.
  - symmetry in H. apply negb_false_iff in H. rewrite H.
    rewrite !findall_all_num, !length_map. unfold restore.
    apply loop_R; lia.
Qed.

(** C5 as stated fails on a digit run of 4301 digits: its value is above
    zero, but [int] raises on it, [safe_int] gives [-1] and the run stays,
    where the rule by value alone puts the glyph. *)
Lemma number_fix_leaves_long_digit_run :
  let dst := repeat 0x31 4301 in
  safe_int dst = -1
  /\ fix_ [0x2460] dst = dst
  /\ restore_by_value [0x2460] dst = [0x2460]
  /\ ~ (forall src dst,
          fix_ src dst
          = if existsb is_circled src then restore_by_value src dst else dst).
Proof.
  cbv zeta.
  assert (H1 : fix_ [0x2460] (repeat 0x31 4301) = repeat 0x31 4301)
    by (vm_compute; reflexivity).
  assert (H2 : restore_by_value [0x2460] (repeat 0x31 4301) = [0x2460])
    by (vm_compute; reflexivity).
  assert (H3 : existsb is_circled [0x2460] = true) by reflexivity.
  split; [vm_compute; reflexivity|].
  split; [exact H1|]. split; [exact H2|].
  intros H. specialize (H [0x2460] (repeat 0x31 4301)).
  rewrite H1, H3, H2 in H. discriminate H.
Qed.

End NumberProofs.


(** ** [AssDocument] *)

Section AssProofs.

Import AssDocument AssSpec HintSpec SplitSpec OrderSpec ReSpec.




Lemma startswith_nonempty (s p : str) :
  startswith s p = true -> Re.nonempty p = true -> Re.nonempty s = true.
Proof. destruct p, s; cbn; intros; congruence. Qed.

Lemma startswith_events_not_dialogue s :
  startswith s (lit "[Events]") = true -> startswith s (lit "Dialogue:") = false.
Proof.
  destruct s as [|c s]; [discriminate|]. cbn. unfold eqc.
  destruct (c =? 91) eqn:E; [|discriminate]. apply Z.eqb_eq in E. subst. reflexivity.
Qed.

Lemma startswith_format_not_dialogue s :
  startswith s (lit "Format:") = true -> startswith s (lit "Dialogue:") = false.
Proof.
  destruct s as [|c s]; [discriminate|]. cbn. unfold eqc.
  destruct (c =? 70) eqn:E; [|discriminate]. apply Z.eqb_eq in E. subst. reflexivity.
Qed.

(** What one line adds: nothing to [event_templates] and [items], or one
    entry to each. *)
Lemma load_line_counts st line0 :
  let st' := load_line st line0 in
  let n := if negb (startswith (clean_line line0) (lit "[Events]"))
              && is_events st && parsed_dialogue (clean_line line0)
           then 1%nat else 0%nat in
  length (event_templates (self st')) = (length (event_templates (self st)) + n)%nat
  /\ length (items st') = (length (items st) + n)%nat
  /\ event_idx st' = (event_idx st + n)%nat
  /\ is_events st' = (is_events st || startswith (clean_line line0) (lit "[Events]")).
Proof.
  cbv zeta. unfold load_line. cbv zeta.
  change (if startswith (strip line0) [0xFEFF] then tl (strip line0) else strip line0)
    with (clean_line line0).
  generalize (clean_line line0). intros line. unfold parsed_dialogue.
  assert (Hsame : forall st0 : load_state,
    (length (event_templates (self st0)) = length (event_templates (self st0)) + 0
     /\ length (items st0) = length (items st0) + 0
     /\ event_idx st0 = event_idx st0 + 0)%nat) by (intros; lia).
  destruct (Re.nonempty line) eqn:Hne; cbn [negb].
  - destruct (startswith line (lit "[Events]")) eqn:Hev; cbn [negb andb].
    + unfold append_header, enter_events.
      cbn [self event_templates items event_idx is_events].
      rewrite orb_true_r. destruct (Hsame st) as (? & ? & ?). auto.
    + rewrite orb_false_r. destruct (is_events st) eqn:His; cbn [andb].
      * destruct (startswith line (lit "Format:")) eqn:Hf.
        -- rewrite (startswith_format_not_dialogue _ Hf). cbn [andb].
           unfold append_header, set_events_header.
           cbn [self event_templates items event_idx is_events].
           destruct (Hsame st) as (? & ? & ?). auto.
        -- destruct (startswith line (lit "Dialogue:")); cbn [andb].
           ++ destruct (length (split line (lit ",") (Some 9%nat)) <? 10)%nat eqn:Hl.
              ** replace (10 <=? _)%nat with false
                   by (symmetry; apply Nat.leb_gt; now apply Nat.ltb_lt).
                 unfold append_header.
                 cbn [self event_templates items event_idx is_events].
                 destruct (Hsame st) as (? & ? & ?). auto.
              ** replace (10 <=? _)%nat with true
                   by (symmetry; apply Nat.leb_le; now apply Nat.ltb_ge).
                 unfold append_event.
                 cbn [self event_templates items event_idx is_events].
                 rewrite !length_app. cbn [length]. repeat split; try lia. congruence.
           ++ unfold append_header.
              cbn [self event_templates items event_idx is_events].
              destruct (Hsame st) as (? & ? & ?). auto.
      * unfold append_header.
        cbn [self event_templates items event_idx is_events].
        destruct (Hsame st) as (? & ? & ?). auto.
  - assert (Hev : startswith line (lit "[Events]") = false).
    { destruct (startswith line (lit "[Events]")) eqn:E; [|reflexivity].
      apply startswith_nonempty in E; [congruence | reflexivity]. }
    rewrite Hev. cbn [negb andb]. rewrite orb_false_r.
    assert (Hd : startswith line (lit "Dialogue:") = false).
    { destruct (startswith line (lit "Dialogue:")) eqn:E; [|reflexivity].
      apply startswith_nonempty in E; [congruence | reflexivity]. }
    rewrite Hd. rewrite andb_false_r. cbn [andb].
    unfold append_header.
    cbn [self event_templates items event_idx is_events].
    destruct (Hsame st) as (? & ? & ?). auto.
Qed.

Lemma load_fold_counts lines : forall st,
  let st' := fold_left load_line lines st in
  let n := count_events (is_events st) lines in
  length (event_templates (self st')) = (length (event_templates (self st)) + n)%nat
  /\ length (items st') = (length (items st) + n)%nat
  /\ event_idx st' = (event_idx st + n)%nat.
Proof.
  induction lines as [|l ls IH]; intros st; cbv zeta.
  - cbn. rewrite !Nat.add_0_r. auto.
  - cbn [fold_left count_events].
    destruct (load_line_counts st l) as (H1 & H2 & H3 & H4). cbv zeta in *.
    destruct (IH (load_line st l)) as (I1 & I2 & I3). cbv zeta in *.
    rewrite I1, I2, I3, H1, H2, H3, H4.
    destruct (startswith (clean_line l) (lit "[Events]")) eqn:E; cbn [negb andb].
    + rewrite orb_true_r, !Nat.add_0_r. auto.
    + rewrite orb_false_r. cbn [andb]. repeat split; lia.
Qed.

(** C9. [load] produces as many template prefixes as pseudo-SRT blocks: one
    of each per parsed [Dialogue:] line of the events section, and
    [total_event_count] is that number. *)
Theorem load_templates_match_blocks (p : str) (lines : list str) :
  let result := load (init p) lines in
  length (event_templates (fst result)) = length (snd result)
  /\ length (snd result) = count_events false lines
  /\ total_event_count (fst result) = count_events false lines.
Proof.
  cbv zeta. unfold load. cbn [fst snd event_templates total_event_count].
  destruct (load_fold_counts lines
              {| self := init p; items := []; is_events := false; event_idx := 1 |})
    as (H1 & H2 & H3).
  cbv zeta in *. cbn [self init event_templates items is_events event_idx length] in *.
  rewrite H1, H2, H3. repeat split; lia.
Qed.




(** *** The [while] loop of step 3 ends *)

Lemma startswith_length (s p : str) : startswith s p = true -> (length p <= length s)%nat.
Proof.
  revert s. induction p as [|a p IH]; intros s H; [cbn; lia|].
  destruct s as [|c s]; [discriminate|]. cbn in H. apply andb_true_iff in H as [_ H].
  apply IH in H. cbn [length]. lia.
Qed.

Lemma replace_go_length old new (s : str) : forall k,
  (0 < length old)%nat -> (length new <= length old)%nat -> (k <= length s)%nat ->
  (length (replace_go old new s k) + k <= length s)%nat.
Proof.
  induction s as [|c s IH]; intros k Ho Hn Hk; [cbn in *; lia|].
  cbn [replace_go]. destruct k as [|k].
  - destruct (startswith (c :: s) old) eqn:E.
    + apply startswith_length in E. cbn [length] in E.
      rewrite length_app. specialize (IH (length old - 1)%nat Ho Hn).
      cbn [length]. lia.
    + cbn [length]. specialize (IH 0%nat Ho Hn). lia.
  - cbn [length] in *. specialize (IH k Ho Hn). lia.
Qed.

Lemma replace_shrinks old new (s : str) :
  (0 < length old)%nat -> (length new < length old)%nat ->
  contains s old = true -> (length (replace s old new) < length s)%nat.
Proof.
  intros Ho Hn. unfold replace. induction s as [|c s IH]; intros Hc.
  - cbn in Hc. rewrite orb_false_r in Hc. destruct old; [cbn in Ho; lia | discriminate].
  - cbn [contains] in Hc. cbn [replace_go].
    destruct (startswith (c :: s) old) eqn:E.
    + pose proof (startswith_length _ _ E) as Hl. cbn [length] in Hl.
      rewrite length_app. cbn [length].
      pose proof (replace_go_length old new s (length old - 1)%nat Ho). lia.
    + cbn [orb] in Hc. cbn [length]. specialize (IH Hc). lia.
Qed.

Lemma dedup_loop_enough fuel : forall s,
  (length s <= fuel)%nat -> exists r, dedup_loop fuel s = Some r.
Proof.
  induction fuel as [|fuel IH]; intros s Hs.
  - destruct s; [|cbn in Hs; lia]. now exists [].
  - cbn [dedup_loop].
    destruct (contains s (BACKSLASH_N ++ BACKSLASH_N)) eqn:E; [|eauto].
    apply IH.
    pose proof (replace_shrinks (BACKSLASH_N ++ BACKSLASH_N) BACKSLASH_N s) as H.
    cbn [BACKSLASH_N app length] in H. cbn [BACKSLASH_N app].
    specialize (H ltac:(lia) ltac:(lia) E). lia.
Qed.

Lemma dedup_loop_terminates s : exists r, dedup_loop (length s) s = Some r.
Proof. apply dedup_loop_enough. lia. Qed.

Lemma dedup_loop_result fuel : forall s r,
  dedup_loop fuel s = Some r -> contains r (BACKSLASH_N ++ BACKSLASH_N) = false.
Proof.
  induction fuel as [|fuel IH]; intros s r; cbn [dedup_loop];
    destruct (contains s (BACKSLASH_N ++ BACKSLASH_N)) eqn:E; try discriminate.
  - intros [= <-]. exact E.
  - apply IH.
  - intros [= <-]. exact E.
Qed.

(** [dedup] is the value the loop ends with. *)
Lemma dedup_exits s :
  dedup_loop (length s) s = Some (dedup s)
  /\ contains (dedup s) (BACKSLASH_N ++ BACKSLASH_N) = false.
Proof.
  unfold dedup. destruct (dedup_loop_terminates s) as [r Hr]. rewrite Hr.
  split; [reflexivity|]. eapply dedup_loop_result; eauto.
Qed.

(** *** Positional binding *)

Lemma cleanup_empty : cleanup [] = [].
Proof. reflexivity. Qed.

Lemma event_lines_from units templates : forall i,
  map (event_line units) (enumerate_from i templates)
  = map (fun pu => fst pu ++ cleanup (snd pu)) (combine templates (skipn i units))
    ++ skipn (length units - i) templates.
Proof.
  induction templates as [|p ts IH]; intros i.
  - cbn. now rewrite skipn_nil.
  - cbn [enumerate_from map event_line]. rewrite IH.
    destruct (i <? length units)%nat eqn:E.
    + apply Nat.ltb_lt in E.
      assert (Hs : skipn i units = nth i units [] :: skipn (S i) units).
      { clear -E. revert i E. induction units as [|u us IHu]; intros i E; [cbn in E; lia|].
        destruct i as [|i]; [reflexivity|]. cbn [skipn nth]. apply IHu. cbn in E. lia. }
      rewrite Hs. cbn [combine map fst snd app].
      replace (length units - i)%nat with (S (length units - S i)) by lia.
      reflexivity.
    + apply Nat.ltb_ge in E.
      rewrite (skipn_all2 units (n := i)) by lia.
      rewrite (skipn_all2 units (n := S i)) by lia.
      replace (length units - i)%nat with 0%nat by lia.
      replace (length units - S i)%nat with 0%nat by lia.
      rewrite cleanup_empty, app_nil_r, !combine_nil. reflexivity.
Qed.

Lemma event_lines_bind templates units :
  event_lines templates units = bind templates units.
Proof.
  unfold event_lines, enumerate, bind. rewrite event_lines_from.
  cbn [skipn]. now rewrite Nat.sub_0_r.
Qed.

Lemma length_bind templates units : length (bind templates units) = length templates.
Proof.
  unfold bind. rewrite length_app, length_map, length_combine, length_skipn. lia.
Qed.

Lemma combine_firstn {A B} (l : list A) (l' : list B) :
  combine l (firstn (length l) l') = combine l l'.
Proof.
  revert l'. induction l as [|a l IH]; intros l'; [reflexivity|].
  destruct l' as [|b l']; [reflexivity|]. cbn. now rewrite IH.
Qed.

(** C1. [save] writes one event line per stored template, whatever the
    number of recovered units: unit [i] is bound to template [i], a template
    without a unit keeps the empty text, units beyond the templates are
    discarded, and a count mismatch only sets the warning, with both
    counts. *)
Theorem save_binds_every_template (self0 : t) (blocks : list TextBlock) :
  let units := translated_units (normalize (collect blocks)) in
  let templates := event_templates self0 in
  let lines := event_lines templates units in
  written (save self0 blocks) = write_lines (headers self0) ++ write_lines lines
  /\ length lines = length templates
  /\ lines = bind templates units
  /\ skipn (length units) lines = skipn (length units) templates
  /\ lines = event_lines templates (firstn (length templates) units)
  /\ warning (save self0 blocks)
     = if (length units =? length templates)%nat then None
       else Some (length units, length templates).
Proof.
  cbv zeta. set (units := translated_units _). set (templates := event_templates self0).
  repeat split.
  - rewrite event_lines_bind. apply length_bind.
  - apply event_lines_bind.
  - rewrite event_lines_bind. unfold bind.
    destruct (Nat.le_gt_cases (length units) (length templates)) as [H|H].
    + rewrite skipn_app, length_map, length_combine.
      replace (Nat.min (length templates) (length units)) with (length units) by lia.
      rewrite Nat.sub_diag. cbn [skipn].
      rewrite skipn_all2; [reflexivity|]. rewrite length_map, length_combine. lia.
    + rewrite !skipn_all2; [reflexivity | lia |].
      rewrite length_app, length_map, length_combine, length_skipn. lia.
  - rewrite !event_lines_bind. unfold bind. rewrite combine_firstn.
    f_equal. rewrite length_firstn.
    destruct (Nat.le_gt_cases (length units) (length templates)) as [H|H].
    + now replace (Nat.min (length templates) (length units)) with (length units) by lia.
    + rewrite !skipn_all2; [reflexivity | lia | lia].
Qed.





Lemma closing_shorter close s r : closing close s = Some r -> (length r < length s)%nat.
Proof.
  revert r. induction s as [|c s IH]; intros r; cbn [closing]; [discriminate|].
  destruct (close c); [intros [= <-]; cbn; lia|].
  destruct (Re.dot c); [|discriminate]. intros H. apply IH in H. cbn. lia.
Qed.

Lemma run_lazy_close close s : forall prev,
  match closing close s with
  | Some r => exists q tl,
      Re.run (Re.Seq (Re.StarLazy Re.dot) (Re.Cls close)) prev s = (q, r) :: tl
  | None => Re.run (Re.Seq (Re.StarLazy Re.dot) (Re.Cls close)) prev s = []
  end.
Proof.
  induction s as [|c s IH]; intros prev; [reflexivity|].
  cbn [closing Re.run Re.star_lazy flat_map fst snd].
  destruct (close c); [cbn [app]; eauto|]. cbn [app].
  destruct (Re.dot c); [|reflexivity]. apply (IH (Some c)).
Qed.

Lemma run_tag opening close s prev :
  match skip_tag opening close s with
  | Some r => exists q tl,
      Re.run (Re.Seq (Re.Cls opening) (Re.Seq (Re.StarLazy Re.dot) (Re.Cls close))) prev s
      = (q, r) :: tl
  | None =>
      Re.run (Re.Seq (Re.Cls opening) (Re.Seq (Re.StarLazy Re.dot) (Re.Cls close))) prev s
      = []
  end.
Proof.
  destruct s as [|c s]; [reflexivity|]. unfold skip_tag.
  change (Re.run (Re.Seq (Re.Cls opening) (Re.Seq (Re.StarLazy Re.dot) (Re.Cls close))) prev (c :: s))
    with (flat_map (fun q => Re.run (Re.Seq (Re.StarLazy Re.dot) (Re.Cls close)) (fst q) (snd q))
            (if opening c then [(Some c, s)] else [])).
  destruct (opening c); [|reflexivity]. cbn [flat_map fst snd]. rewrite app_nil_r.
  apply run_lazy_close.
Qed.

Lemma skip_tag_shorter opening close s r :
  skip_tag opening close s = Some r -> (length r < length s)%nat.
Proof.
  destruct s as [|c s]; [discriminate|]. cbn [skip_tag].
  destruct (opening c); [|discriminate]. intros H. apply closing_shorter in H. cbn. lia.
Qed.

Lemma run_bracket prev s :
  first_or_only (Re.run BRACKET prev s) prev s (skip_opt bracket_tag s).
Proof.
  unfold BRACKET, Re.Opt, Re.Chr, skip_opt, bracket_tag.
  cbn [Re.run].
  pose proof (run_tag (eqc 0x5B) (eqc 0x5D) s prev) as H1.
  pose proof (run_tag (eqc 0x3010) (eqc 0x3011) s prev) as H2.
  cbn [Re.run] in H1, H2.
  destruct (skip_tag (eqc 0x5B) (eqc 0x5D) s) as [r|] eqn:E1.
  - destruct H1 as (q & tl & ->). apply skip_tag_shorter in E1.
    repeat split; [cbn [app]; eauto | lia | lia].
  - rewrite H1. cbn [app].
    destruct (skip_tag (eqc 0x3010) (eqc 0x3011) s) as [r|] eqn:E2.
    + destruct H2 as (q & tl & ->). apply skip_tag_shorter in E2.
      repeat split; [cbn [app]; eauto | lia | lia].
    + rewrite H2. repeat split; cbn [app]; eauto.
Qed.

Lemma run_paren prev s :
  first_or_only (Re.run PAREN prev s) prev s (skip_opt paren_tag s).
Proof.
  unfold PAREN, Re.Opt, skip_opt, paren_tag. cbn [Re.run].
  pose proof (run_tag (fun c => eqc c 0x28 || eqc c 0xFF08)
                      (fun c => eqc c 0x29 || eqc c 0xFF09) s prev) as H1.
  cbn [Re.run] in H1.
  destruct (skip_tag _ _ s) as [r|] eqn:E1.
  - destruct H1 as (q & tl & ->). apply skip_tag_shorter in E1.
    repeat split; [cbn [app]; eauto | lia | lia].
  - rewrite H1. repeat split; cbn [app]; eauto.
Qed.

Lemma lstrip_drop_while s : lstrip s = drop_while is_space s.
Proof. induction s as [|c s IH]; cbn; [reflexivity|]. now rewrite IH. Qed.

Lemma drop_while_length p s : (length (drop_while p s) <= length s)%nat.
Proof. induction s as [|c s IH]; cbn; [lia|]. destruct (p c); cbn; lia. Qed.

Lemma run_spaces prev s :
  first_or_only (Re.star is_space prev s) prev s (lstrip s).
Proof.
  rewrite lstrip_drop_while. destruct (star_head is_space s prev) as [tl H].
  repeat split; [eauto | apply drop_while_length |].
  intros Hl. destruct s as [|c s]; [reflexivity|].
  cbn [drop_while Re.star] in *. destruct (is_space c); [|reflexivity].
  pose proof (drop_while_length is_space s). cbn [length] in Hl. lia.
Qed.

(** Two stages in sequence. *)
Lemma first_or_only_seq (a b : Re.re) (f g : str -> str) prev s :
  (forall p t, first_or_only (Re.run a p t) p t (f t)) ->
  (forall p t, first_or_only (Re.run b p t) p t (g t)) ->
  first_or_only (Re.run (Re.Seq a b) prev s) prev s (g (f s)).
Proof.
  intros Ha Hb. cbn [Re.run].
  destruct (Ha prev s) as ((q & tl & Hq) & Hle & Honly).
  destruct (Hb q (f s)) as ((q' & tl' & Hq') & Hle' & Honly').
  rewrite Hq. cbn [flat_map fst snd]. rewrite Hq'. repeat split.
  - cbn [app]. eauto.
  - lia.
  - intros Hl. assert (H1 : length (f s) = length s) by lia.
    specialize (Honly H1). rewrite Honly in Hq.
    injection Hq as Eq Efs Etl. subst q tl.
    assert (H2 : length (g (f s)) = length (f s)) by lia.
    specialize (Honly' H2). rewrite Honly' in Hq'.
    injection Hq' as Eq' Eg Etl'. subst q' tl'.
    cbn [flat_map app]. rewrite <- Eg, <- Efs. reflexivity.
Qed.

Lemma run_hint_body prev s :
  first_or_only (Re.run HINT_BODY prev s) prev s (strip_hint s).
Proof.
  unfold HINT_BODY, strip_hint.
  apply (first_or_only_seq BRACKET (Re.Seq PAREN (Re.Star is_space))
           (skip_opt bracket_tag) (fun t => lstrip (skip_opt paren_tag t))).
  - intros; apply run_bracket.
  - intros p t. apply (first_or_only_seq PAREN (Re.Star is_space) (skip_opt paren_tag) lstrip).
    + intros; apply run_paren.
    + intros; apply run_spaces.
Qed.

Lemma run_context_start s :
  Re.run context_pattern None s = Re.run HINT_BODY None s.
Proof.
  change (Re.run context_pattern None s)
    with (flat_map (fun q => Re.run HINT_BODY (fst q) (snd q)) [(None, s)]).
  cbn [flat_map fst snd]. apply app_nil_r.
Qed.

Lemma run_context_later c s : Re.run context_pattern (Some c) s = [].
Proof. reflexivity. Qed.

Lemma pieces_context_later s : forall c,
  Re.pieces context_pattern (Some c) s 0 = map Re.Lit s.
Proof.
  induction s as [|d s IH]; intros c; [reflexivity|].
  cbn [Re.pieces]. rewrite run_context_later. cbn [map]. now rewrite IH.
Qed.

Lemma sub_literals repl s : forall n, Re.sub_pieces repl n (map Re.Lit s) = s.
Proof. induction s as [|c s IH]; intros n; cbn; [reflexivity|]. now rewrite IH. Qed.

(** Results of a match are suffixes of the text. *)
Lemma star_suffix p s : forall prev q, In q (Re.star p prev s) -> exists m, s = m ++ snd q.
Proof.
  induction s as [|c s IH]; intros prev q H; cbn [Re.star] in H.
  - destruct H as [<-|[]]. now exists [].
  - destruct (p c).
    + apply in_app_or in H as [H|[<-|[]]]; [|now exists []].
      destruct (IH _ _ H) as [m ->]. now exists (c :: m).
    + destruct H as [<-|[]]. now exists [].
Qed.

Lemma star_lazy_suffix p s : forall prev q,
  In q (Re.star_lazy p prev s) -> exists m, s = m ++ snd q.
Proof.
  induction s as [|c s IH]; intros prev q H; cbn [Re.star_lazy] in H.
  - destruct H as [<-|[]]. now exists [].
  - destruct H as [<-|H]; [now exists []|].
    destruct (p c); [|destruct H].
    destruct (IH _ _ H) as [m ->]. now exists (c :: m).
Qed.

Lemma run_suffix r : forall prev s q, In q (Re.run r prev s) -> exists m, s = m ++ snd q.
Proof.
  induction r as [|p|a IHa b IHb|a IHa b IHb|p|p|ml|]; intros prev s q H; cbn [Re.run] in H.
  - destruct H as [<-|[]]. now exists [].
  - destruct s as [|c s]; [destruct H|]. destruct (p c); [|destruct H].
    destruct H as [<-|[]]. now exists [c].
  - apply in_flat_map in H as (q1 & H1 & H2).
    destruct (IHa _ _ _ H1) as [m1 ->]. destruct (IHb _ _ _ H2) as [m2 E].
    rewrite E. exists (m1 ++ m2). now rewrite app_assoc.
  - apply in_app_or in H as [H|H]; eauto.
  - eapply star_suffix; eauto.
  - eapply star_lazy_suffix; eauto.
  - destruct (Re.at_bol ml prev); [|destruct H]. destruct H as [<-|[]]. now exists [].
  - destruct (Re.at_eol s); [|destruct H]. destruct H as [<-|[]]. now exists [].
Qed.

Lemma matched_self s q : Re.matched s (q, s) = [].
Proof. unfold Re.matched. cbn [snd]. now rewrite Nat.sub_diag. Qed.

Lemma prev_after_some c m : exists x, prev_after (Some c) m = Some x.
Proof.
  revert c. induction m as [|d m IH]; intros c; cbn; eauto.
Qed.

Lemma sub_context_pattern s :
  Re.sub context_pattern (fun _ _ => []) s = strip_hint s.
Proof.
  unfold Re.sub. destruct s as [|c s]; [reflexivity|].
  cbn [Re.pieces]. rewrite run_context_start.
  destruct (run_hint_body None (c :: s)) as ((q & tl & Hq) & Hle & Honly).
  assert (Hin : In (q, strip_hint (c :: s)) (Re.run HINT_BODY None (c :: s)))
    by (rewrite Hq; now left).
  destruct (run_suffix _ _ _ _ Hin) as [m Hm]. cbn [snd] in Hm.
  remember (strip_hint (c :: s)) as r eqn:Er. clear Er Hin.
  destruct m as [|c' m].
  - cbn [app] in Hm. subst r. specialize (Honly eq_refl). rewrite Honly.
    cbn [map]. rewrite matched_self. cbn [find Re.nonempty Re.sub_pieces app].
    now rewrite pieces_context_later, sub_literals.
  - rewrite Hq. cbn [map]. cbn [app] in Hm. injection Hm as <- Hs.
    replace (Re.matched (c :: s) (q, r)) with (c :: m)
      by (rewrite Hs; symmetry; apply (matched_app (c :: m) r q)).
    cbn [length]. replace (S (length m) - 1)%nat with (length m) by lia.
    rewrite Hs, pieces_skip. destruct (prev_after_some c m) as [x ->].
    rewrite pieces_context_later. cbn [Re.sub_pieces app]. apply sub_literals.
Qed.





Lemma split_pieces_no_hit ps : forall cur,
  flat_map hits ps = [] -> length (Re.split_pieces ps cur) = 1%nat.
Proof.
  induction ps as [|p ps IH]; intros cur H; [reflexivity|].
  destruct p as [c|m]; cbn [flat_map hits app Re.split_pieces] in *; [auto|discriminate].
Qed.

Lemma existsb_rev {A} (f : A -> bool) l : existsb f (rev l) = existsb f l.
Proof.
  induction l as [|a l IH]; [reflexivity|]. cbn [rev existsb].
  rewrite existsb_app, IH. cbn. rewrite orb_false_r. apply orb_comm.
Qed.

Lemma has_content_lstrip s : has_content (lstrip s) = has_content s.
Proof.
  unfold has_content. induction s as [|c s IH]; [reflexivity|].
  cbn [lstrip]. destruct (is_space c) eqn:E; [|reflexivity].
  cbn [existsb]. unfold non_space at 2. now rewrite E.
Qed.

Lemma has_content_strip s : has_content (strip s) = has_content s.
Proof.
  unfold strip, rstrip, has_content. rewrite existsb_rev.
  fold (has_content (lstrip (rev (lstrip s)))). rewrite has_content_lstrip.
  unfold has_content. rewrite existsb_rev. apply has_content_lstrip.
Qed.

Lemma content_nonempty s : has_content s = true -> Re.nonempty s = true.
Proof. destruct s; [discriminate | reflexivity]. Qed.

Lemma strip_nonempty s : has_content s = true -> Re.nonempty (strip s) = true.
Proof. intros H. apply content_nonempty. now rewrite has_content_strip. Qed.

Lemma split_blank_has_content s : forall skip cur,
  skip = 0%nat \/ (skip = 1%nat /\ exists s', s = 0x0A :: s') ->
  has_content cur || has_content s = true ->
  existsb (fun p => Re.nonempty (strip p)) (split_go NL2 None s skip cur) = true.
Proof.
  induction s as [|c s IH]; intros skip cur Hskip Hc.
  - cbn [split_go existsb]. rewrite orb_false_r. apply strip_nonempty.
    unfold has_content in *. rewrite existsb_rev. cbn [existsb] in Hc.
    now rewrite orb_false_r in Hc.
  - cbn [split_go]. destruct Hskip as [->|[-> [s' E]]].
    + cbn [andb]. destruct (startswith (c :: s) NL2) eqn:Es.
      * cbn [existsb]. destruct (has_content cur) eqn:Ecur.
        -- rewrite strip_nonempty; [reflexivity|].
           unfold has_content in *. now rewrite existsb_rev.
        -- cbn [orb] in Hc. apply orb_true_iff. right.
           cbn [NL2 startswith] in Es.
           destruct s as [|d s]; [rewrite andb_false_r in Es; discriminate|].
           apply andb_true_iff in Es as [Ec Ed]. apply andb_true_iff in Ed as [Ed _].
           apply Z.eqb_eq in Ec, Ed. subst c d.
           apply IH; [right; split; [reflexivity | eauto]|].
           cbn [has_content existsb orb] in *. exact Hc.
      * apply IH; [now left|].
        unfold has_content in *. cbn [existsb] in *.
        destruct (non_space c); cbn [orb] in *; [reflexivity|exact Hc].
    + injection E as -> ->. apply IH; [now left|].
      unfold has_content in *. cbn [existsb] in Hc. exact Hc.
Qed.

Lemma filter_nonempty {A} (f : A -> bool) l : existsb f l = true -> filter f l <> [].
Proof.
  induction l as [|a l IH]; [discriminate|]. cbn. destruct (f a); [discriminate | auto].
Qed.

(** C6, as amended. When the header pattern has no match in the normalized
    stream and that stream has a character other than white space, the
    units are the blank-line segments and there is at least one. *)
Theorem fallback_yields_segments (full_stream : str) :
  Re.findall header_pattern full_stream = [] ->
  has_content full_stream = true ->
  translated_units full_stream = blank_line_segments full_stream
  /\ translated_units full_stream <> [].
Proof.
  intros Hnone Hc. unfold translated_units, Re.split.
  unfold Re.findall in Hnone.
  rewrite (split_pieces_no_hit (Re.pieces header_pattern None full_stream 0) [] Hnone). cbn [Nat.ltb Nat.leb].
  split; [reflexivity|]. intros H. apply map_eq_nil in H. revert H.
  apply filter_nonempty. apply split_blank_has_content; [now left|].
  cbn [has_content existsb orb]. exact Hc.
Qed.

Lemma fallback_yields_segments_witness :
  Re.findall header_pattern (lit "hello" ++ NL2 ++ lit "world") = []
  /\ has_content (lit "hello" ++ NL2 ++ lit "world") = true
  /\ translated_units (lit "hello" ++ NL2 ++ lit "world") = [lit "hello"; lit "world"]
  /\ translated_units (lit "hello" ++ NL2 ++ lit "world") <> [].
Proof.
  split; [reflexivity|]. split; [reflexivity|]. split; [reflexivity|].
  apply (fallback_yields_segments (lit "hello" ++ NL2 ++ lit "world"));
    reflexivity.
Defined.

(** C6 as stated fails on a transformer stream made of line-break escapes
    only: it has content, the header pattern has no match, and no segment
    comes out. *)
Lemma fallback_escape_only_stream :
  let blocks := [{| dst := None; prompt_text := BACKSLASH_N |}] in
  has_content (collect blocks) = true
  /\ Re.findall header_pattern (normalize (collect blocks)) = []
  /\ translated_units (normalize (collect blocks)) = [].
Proof. repeat split; reflexivity. Qed.





Lemma load_line_stored st line0 :
  headers (self (load_line st line0))
  = headers (self st) ++ map snd (filter is_header [stored (is_events st) line0])
  /\ event_templates (self (load_line st line0))
     = event_templates (self st) ++ map snd (filter is_event [stored (is_events st) line0])
  /\ is_events (load_line st line0)
     = is_events (load_line (blank (is_events st)) line0).
Proof.
  unfold stored, load_line. cbv zeta.
  change (if startswith (strip line0) [0xFEFF] then tl (strip line0) else strip line0)
    with (clean_line line0).
  generalize (clean_line line0). intros line.
  destruct (Re.nonempty line); cbn [negb];
    [destruct (startswith line (lit "[Events]"));
     [|destruct (is_events st) eqn:His;
       [cbn [blank is_events];
        destruct (startswith line (lit "Format:"));
        [|destruct (startswith line (lit "Dialogue:"));
          [destruct (length (split line (lit ",") (Some 9%nat)) <? 10)%nat|]]|]]|];
    unfold append_header, append_event, set_events_header, enter_events, blank;
    cbn [self headers event_templates is_events init app hd filter is_header is_event
         fst snd map];
    rewrite ?app_nil_r; auto.
Qed.

Lemma load_fold_classify lines : forall st,
  let st' := fold_left load_line lines st in
  let c := classify (is_events st) lines in
  headers (self st') = headers (self st) ++ map snd (filter is_header c)
  /\ event_templates (self st') = event_templates (self st) ++ map snd (filter is_event c).
Proof.
  induction lines as [|l ls IH]; intros st; cbv zeta.
  - cbn. now rewrite !app_nil_r.
  - cbn [fold_left classify].
    destruct (load_line_stored st l) as (H1 & H2 & H3).
    destruct (IH (load_line st l)) as (I1 & I2). cbv zeta in I1, I2.
    rewrite I1, I2, H1, H2, H3, <- !app_assoc.
    change (stored (is_events st) l :: classify (is_events (load_line (blank (is_events st)) l)) ls)
      with ([stored (is_events st) l] ++ classify (is_events (load_line (blank (is_events st)) l)) ls).
    rewrite !filter_app, !map_app. auto.
Qed.

Lemma write_lines_app a b : write_lines (a ++ b) = write_lines a ++ write_lines b.
Proof. unfold write_lines. apply flat_map_app. Qed.

Lemma event_lines_prefixes templates units :
  Forall2 (fun line prefix => exists text, line = prefix ++ text)
          (event_lines templates units) templates.
Proof.
  unfold event_lines, enumerate. generalize 0%nat.
  induction templates as [|p ts IH]; intros i; cbn [enumerate_from map]; constructor.
  - unfold event_line. eauto.
  - apply IH.
Qed.

(** C8, as amended. [save] writes the header lines in their input order,
    then the event lines in their input order: the order within each kind is
    kept, and every header line comes before every event line, wherever it
    stood in the input. Each event line starts with the template prefix of
    its input line. *)
Theorem save_writes_headers_then_events (p : str) (lines : list str)
    (blocks : list TextBlock) :
  let self1 := fst (load (init p) lines) in
  let c := classify false lines in
  let units := translated_units (normalize (collect blocks)) in
  headers self1 ++ event_templates self1 = map snd (output_order c)
  /\ headers self1 = map snd (filter is_header c)
  /\ event_templates self1 = map snd (filter is_event c)
  /\ written (save self1 blocks)
     = write_lines (headers self1 ++ event_lines (event_templates self1) units)
  /\ Forall2 (fun line prefix => exists text, line = prefix ++ text)
             (event_lines (event_templates self1) units) (event_templates self1).
Proof.
  cbv zeta. unfold load. cbn [fst headers event_templates].
  destruct (load_fold_classify lines
              {| self := init p; items := []; is_events := false; event_idx := 1 |})
    as (H1 & H2).
  cbv zeta in H1, H2. cbn [self init headers event_templates is_events app] in H1, H2.
  unfold output_order. rewrite map_app, H1, H2. repeat split.
  - unfold save. cbn [written headers event_templates]. now rewrite write_lines_app.
  - apply event_lines_prefixes.
Qed.


(** The cleanups of one unit start by removing the leading hint. *)
Lemma cleanup_strip_hint trans_text :
  cleanup trans_text
  = dedup (replace (strip (strip_hint trans_text)) [0x0A] BACKSLASH_N).
Proof. unfold cleanup. now rewrite sub_context_pattern. Qed.

(** C7, as amended. Binding strips one leading hint made of an optional
    bracket tag [[tag]] or full-width bracket tag followed by an optional
    paren tag [(tag)] or full-width paren tag, in this order only, and the
    white space after it. A paren tag before a bracket tag leaves the
    bracket tag in place. *)
Theorem cleanup_strips_bracket_then_paren :
  (forall trans_text,
     Re.sub context_pattern (fun _ _ => []) trans_text = strip_hint trans_text)
  /\ cleanup (lit "[Bob](Sign) hello") = lit "hello"
  /\ cleanup ([0x3010] ++ lit "Bob" ++ [0x3011; 0xFF08] ++ lit "Sign" ++ [0xFF09]
              ++ lit " hello") = lit "hello"
  /\ cleanup (lit "[Bob] hello") = lit "hello"
  /\ cleanup (lit "(Sign) hello") = lit "hello"
  /\ cleanup (lit "(Sign)[Bob] hello") = lit "[Bob] hello".
Proof.
  split; [exact sub_context_pattern|]. repeat split; reflexivity.
Qed.

(** C7 as stated fails: with the paren tag first the bracket tag stays. *)
Lemma cleanup_paren_then_bracket :
  Re.sub context_pattern (fun _ _ => []) (lit "(Sign)[Bob] hello") = lit "[Bob] hello"
  /\ strip_hint_any_order (lit "(Sign)[Bob] hello") = lit "hello"
  /\ Re.sub context_pattern (fun _ _ => []) (lit "(Sign)[Bob] hello")
     <> strip_hint_any_order (lit "(Sign)[Bob] hello").
Proof.
  split; [reflexivity|]. split; [reflexivity|]. vm_compute. discriminate.
Qed.

(** C8 as stated fails: a comment line after a dialogue line is written
    before it. *)
Lemma save_moves_header_before_event :
  let content :=
    lit "[Events]" ++ [0x0A]
    ++ lit "Dialogue: 0,0:00:01.00,0:00:02.00,Default,,0,0,0,,hi" ++ [0x0A]
    ++ lit "Comment: x" ++ [0x0A] in
  round_trip content
  = lit "[Events]" ++ [0x0A] ++ lit "Comment: x" ++ [0x0A]
    ++ lit "Dialogue: 0,0:00:01.00,0:00:02.00,Default,,0,0,0,,hi" ++ [0x0A]
  /\ round_trip content <> content
  /\ output_order (classify false (readlines content))
     <> classify false (readlines content).
Proof.
  split; [reflexivity|]. split; vm_compute; discriminate.
Qed.

End AssProofs.

(** ** Further properties of the three files *)

Section KanaExtras.

Import KanaFixer KanaSpec.

Lemma scan_residual_run s : forall p,
  forallb in_kana s = true ->
  opt_japanese p = true \/ (2 <= length s)%nat ->
  scan p s = s.
Proof.
  induction s as [|c s IH]; intros p Hall Hp; [reflexivity|].
  cbn [forallb] in Hall. apply andb_true_iff in Hall as [Hc Hall].
  cbn [scan]. rewrite Hc.
  assert (Hk : keep_kana p (hd_error s) = true).
  { destruct s as [|d s].
    - destruct Hp as [Hp|Hp]; [|cbn in Hp; lia].
      unfold keep_kana. now rewrite Hp.
    - cbn [forallb] in Hall. apply andb_true_iff in Hall as [Hd _].
      cbn [hd_error]. apply keep_next_japanese. now apply in_kana_japanese. }
  rewrite Hk. f_equal. apply IH; [exact Hall|].
  left. cbn [opt_japanese]. now apply in_kana_japanese.
Qed.

Lemma existsb_forallb_nonempty {A} (f : A -> bool) l :
  forallb f l = true -> l <> [] -> existsb f l = true.
Proof. destruct l; [congruence|]. cbn. intros H _. apply andb_true_iff in H as [-> _]. reflexivity. Qed.

(** X1. Residual glyphs next to each other protect each other. *)
Theorem kana_fix_keeps_residual_runs (s : str) :
  forallb in_kana s = true -> (2 <= length s)%nat -> fix_ s = s.
Proof.
  intros Hall Hlen. rewrite fix_scan.
  destruct (existsb in_kana s); [|reflexivity].
  apply scan_residual_run; auto.
Qed.

Lemma kana_fix_keeps_residual_runs_witness :
  forallb in_kana [kana_no; kana_no] = true /\ (2 <= length [kana_no; kana_no])%nat
  /\ fix_ [kana_no; kana_no] = [kana_no; kana_no].
Proof.
  split; [reflexivity|]. split; [cbn; lia|].
  apply kana_fix_keeps_residual_runs; [reflexivity | cbn; lia].
Defined.

Lemma is_protected_at_end p : is_protected p None = false.
Proof.
  unfold is_protected. destruct p as [a|]; [|reflexivity].
  cbn [opt_eqc]. destruct (pair_lookup a PROTECTION_PAIRS); cbn [opt_eqc];
    now rewrite andb_false_r.
Qed.

Lemma scan_plain s : forall p, existsb in_kana s = false -> scan p s = s.
Proof.
  induction s as [|c s IH]; intros p H; [reflexivity|].
  cbn [existsb] in H. apply orb_false_iff in H as [Hc H].
  cbn [scan]. rewrite Hc. f_equal. now apply IH.
Qed.

Lemma scan_trailing s g : forall p,
  existsb in_kana s = false -> in_kana g = true ->
  opt_japanese (match last_error s with Some c => Some c | None => p end) = false ->
  scan p (s ++ [g]) = s.
Proof.
  induction s as [|c s IH]; intros p Hs Hg Hlast.
  - cbn [app scan hd_error]. rewrite Hg. cbn [last_error] in Hlast.
    unfold keep_kana. rewrite Hlast, is_protected_at_end. reflexivity.
  - cbn [existsb] in Hs. apply orb_false_iff in Hs as [Hc Hs].
    cbn [app scan]. rewrite Hc. f_equal. apply IH; [exact Hs | exact Hg |].
    destruct s as [|d s]; [exact Hlast|].
    revert Hlast. unfold last_error. cbn [length].
    replace (S (S (length s)) - 1)%nat with (S (length s)) by lia.
    replace (S (length s) - 1)%nat with (length s) by lia.
    cbn [nth_error]. destruct (nth_error (d :: s) (length s)) eqn:E; [auto|].
    apply nth_error_None in E. cbn in E. lia.
Qed.

(** X2. A residual glyph left at the very end of a translation is removed. *)
Theorem kana_fix_drops_trailing_glyph (s : str) (g : char) :
  existsb in_kana s = false -> in_kana g = true ->
  opt_japanese (last_error s) = false ->
  fix_ (s ++ [g]) = s.
Proof.
  intros Hs Hg Hlast. rewrite fix_scan.
  rewrite existsb_app. cbn [existsb]. rewrite Hg, orb_true_r.
  apply scan_trailing; auto. destruct (last_error s); auto.
Qed.

Lemma kana_fix_drops_trailing_glyph_witness :
  existsb in_kana (lit "this is it ") = false /\ in_kana kana_no = true
  /\ opt_japanese (last_error (lit "this is it ")) = false
  /\ fix_ (lit "this is it " ++ [kana_no]) = lit "this is it ".
Proof.
  split; [reflexivity|]. split; [reflexivity|]. split; [reflexivity|].
  apply kana_fix_drops_trailing_glyph; reflexivity.
Defined.

End KanaExtras.

Section NumberExtras.

Import NumberFixer NumberSpec ReSpec.

Lemma sub_pieces_beyond (t : str) (target : nat) ps : forall n,
  (n + length (flat_map hits ps) <= target)%nat ->
  Re.sub_pieces (fun i m => if (i =? target)%nat then t else m) n ps
  = flat_map piece_text ps.
Proof.
  induction ps as [|p ps IH]; intros n H; [reflexivity|].
  destruct p as [c|m]; cbn [Re.sub_pieces flat_map piece_text hits app length] in *.
  - f_equal. apply IH. exact H.
  - replace (n =? target)%nat with false by (symmetry; apply Nat.eqb_neq; lia).
    f_equal. apply IH. lia.
Qed.

Lemma pieces_text_render l : flat_map piece_text (map chunk_piece l) = render l.
Proof.
  induction l as [|k l IH]; [reflexivity|].
  destruct k; cbn [map flat_map chunk_piece piece_text]; unfold render in *;
    cbn [flat_map chunk_text]; now rewrite IH.
Qed.

(** X3. An index beyond the last token replaces nothing. *)
Theorem fix_by_index_beyond_tokens (dst : str) (i : nat) (target_str : str) :
  (length (Re.findall PATTERN_ALL_NUM dst) <= i)%nat ->
  fix_by_index dst i target_str = dst.
Proof.
  intros H. unfold fix_by_index, Re.sub. unfold Re.findall in H.
  rewrite sub_pieces_beyond by exact H.
  rewrite pieces_tokenize, pieces_text_render. apply render_tokenize.
Qed.

Lemma fix_by_index_beyond_tokens_witness :
  (length (Re.findall PATTERN_ALL_NUM (lit "a 1 b 22")) <= 2)%nat
  /\ fix_by_index (lit "a 1 b 22") 2 [0x2460] = lit "a 1 b 22".
Proof.
  split; [vm_compute; lia|].
  apply fix_by_index_beyond_tokens. vm_compute. lia.
Defined.

Lemma canonical_unique l : forall l',
  canonical l = true -> canonical l' = true ->
  map chunk_piece l = map chunk_piece l' -> l = l'.
Proof.
  induction l as [|k l IH]; intros [|k' l'] Hc Hc' E; try discriminate; [reflexivity|].
  cbn [map] in E. injection E as Ek El.
  assert (Hl : l = l').
  { apply IH; [| |exact El].
    - destruct k; cbn [canonical] in Hc; repeat (apply andb_true_iff in Hc as [Hc ?]); auto.
    - destruct k'; cbn [canonical] in Hc'; repeat (apply andb_true_iff in Hc' as [Hc' ?]); auto. }
  subst l'. f_equal.
  destruct k as [c|ds|g], k' as [c'|ds'|g']; cbn [chunk_piece] in Ek; try discriminate;
    try (injection Ek as ->; reflexivity).
  - exfalso. injection Ek as ->. cbn [canonical] in Hc, Hc'.
    repeat (apply andb_true_iff in Hc as [Hc ?]). repeat (apply andb_true_iff in Hc' as [Hc' ?]).
    cbn [forallb] in H1. apply andb_true_iff in H1 as [H1 _].
    rewrite H1 in Hc'. discriminate.
  - exfalso. injection Ek as <-. cbn [canonical] in Hc, Hc'.
    repeat (apply andb_true_iff in Hc as [Hc ?]). repeat (apply andb_true_iff in Hc' as [Hc' ?]).
    cbn [forallb] in H3. apply andb_true_iff in H3 as [H3 _].
    rewrite H3 in Hc. discriminate.
Qed.

Lemma tokenize_render l : canonical l = true -> tokenize (render l) = l.
Proof.
  intros Hc. apply canonical_unique; [apply tokenize_canonical | exact Hc |].
  rewrite <- (pieces_tokenize (render l) None). now apply pieces_canonical.
Qed.

Lemma restore_rule_idempotent S lim i k :
  restore_rule S lim i (restore_rule S lim i k) = restore_rule S lim i k.
Proof.
  unfold restore_rule. destruct (nth_error S i) as [[c|ds|g]|]; try reflexivity;
    try (destruct k; reflexivity).
  destruct k as [c|ds|g']; try reflexivity.
  destruct ((i <? lim)%nat && converts_above_zero ds) eqn:E; [reflexivity|].
  now rewrite E.
Qed.

Lemma restore_idempotent src dst : restore src (restore src dst) = restore src dst.
Proof.
  set (S := token_stream (tokenize src)).
  set (lim := Nat.min (length S) (length (token_stream (tokenize dst)))).
  set (M := map_tokens (restore_rule S lim) 0 (tokenize dst)).
  assert (E : restore src dst = render M) by reflexivity.
  assert (HS : forallb proper_token S = true) by apply proper_S.
  assert (Hc : canonical M = true).
  { apply canonical_map_tokens; [now apply restore_rule_circles_only | apply tokenize_canonical]. }
  rewrite E. unfold restore. fold S. rewrite (tokenize_render M Hc).
  unfold M at 1. rewrite token_stream_length_map by (intros; now apply restore_rule_token).
  fold lim. unfold M.
  rewrite map_tokens_compose by (intros; now apply restore_rule_token).
  f_equal. apply map_tokens_ext. intros i k _. apply restore_rule_idempotent.
Qed.

Lemma fix_restore src dst :
  fix_ src dst = if existsb is_circled src then restore src dst else dst.
Proof.
  unfold fix_. pose proof (findall_circled_empty src) as H.
  destruct (Re.findall PATTERN_CIRCLED_NUM src) eqn:E.
  - symmetry in H. apply negb_true_iff in H. now rewrite H.
  - symmetry in H. apply negb_false_iff in H. rewrite H.
    rewrite !findall_all_num, !length_map. unfold restore.
    apply loop_R; lia.
Qed.

(** X4. A second pass with the same source changes nothing. *)
Theorem number_fix_idempotent (src dst : str) :
  fix_ src (fix_ src dst) = fix_ src dst.
Proof.
  rewrite !fix_restore.
  destruct (existsb is_circled src); [apply restore_idempotent | reflexivity].
Qed.

(** X5. The number of numeric tokens of the translation never changes. *)
Theorem number_fix_keeps_token_count (src dst : str) :
  length (Re.findall PATTERN_ALL_NUM (fix_ src dst))
  = length (Re.findall PATTERN_ALL_NUM dst).
Proof.
  rewrite fix_restore.
  destruct (existsb is_circled src); [|reflexivity].
  unfold restore.
  set (S := token_stream (tokenize src)).
  set (lim := Nat.min _ _).
  assert (HS : forallb proper_token S = true) by apply proper_S.
  assert (Hc : canonical (map_tokens (restore_rule S lim) 0 (tokenize dst)) = true).
  { apply canonical_map_tokens; [now apply restore_rule_circles_only | apply tokenize_canonical]. }
  rewrite !findall_all_num, !length_map, (tokenize_render _ Hc).
  apply token_stream_length_map. intros; now apply restore_rule_token.
Qed.

(** X6. A translation without digits comes back unchanged. *)
Theorem number_fix_needs_digits (src dst : str) :
  existsb is_digit dst = false -> fix_ src dst = dst.
Proof.
  intros Hd. rewrite fix_restore. destruct (existsb is_circled src); [|reflexivity].
  unfold restore. rewrite (map_tokens_ext _ (fun _ k => k)).
  - rewrite map_tokens_id. apply render_tokenize.
  - intros i k Hk. cbn [Nat.add]. apply nth_error_In in Hk.
    assert (Hp : proper_token k = true).
    { pose proof (canonical_tokens _ (tokenize_canonical dst)) as H.
      rewrite forallb_forall in H. now apply H. }
    unfold restore_rule. destruct (nth_error _ i) as [[c|ds|g]|]; try reflexivity.
    destruct k as [c|ds|g']; try reflexivity. exfalso.
    cbn [proper_token] in Hp. apply andb_true_iff in Hp as [Hne Hds].
    destruct ds as [|d ds]; [discriminate|]. cbn [forallb] in Hds.
    apply andb_true_iff in Hds as [Hd1 _].
    assert (Hin : In d dst).
    { rewrite <- (render_tokenize dst). unfold render. apply in_flat_map.
      exists (DigitRun (d :: ds)). split; [|now left].
      unfold token_stream in Hk. now apply filter_In in Hk. }
    assert (existsb is_digit dst = true) by (apply existsb_exists; eauto).
    congruence.
Qed.

Lemma number_fix_needs_digits_witness :
  existsb is_digit (lit "first, then second") = false
  /\ fix_ ([0x2460] ++ lit ", " ++ [0x2461]) (lit "first, then second")
     = lit "first, then second".
Proof.
  split; [reflexivity|]. apply number_fix_needs_digits. reflexivity.
Defined.

End NumberExtras.

Section SplitFacts.

(** [split] on a one-character separator. *)

Lemma startswith_nil s : startswith s [] = true.
Proof. destruct s; reflexivity. Qed.

Lemma split_go_nonempty sep m s : forall k cur, split_go sep m s k cur <> [].
Proof.
  revert m. induction s as [|c s IH]; intros m k cur; cbn [split_go]; [discriminate|].
  destruct k; [|apply IH]. destruct (_ && _); [discriminate | apply IH].
Qed.

Lemma join_cons sep x l : l <> [] -> join sep (x :: l) = x ++ sep ++ join sep l.
Proof. destruct l; [congruence | reflexivity]. Qed.

Lemma join_split_char c0 s : forall m cur,
  join [c0] (split_go [c0] m s 0 cur) = rev cur ++ s.
Proof.
  induction s as [|c s IH]; intros m cur.
  - cbn. now rewrite app_nil_r.
  - cbn [split_go length Nat.sub].
    destruct ((match m with Some 0%nat => false | _ => true end)
              && startswith (c :: s) [c0]) eqn:E.
    + apply andb_true_iff in E as [_ E]. cbn [startswith] in E.
      apply andb_true_iff in E as [E _]. apply Z.eqb_eq in E. subst c0.
      rewrite join_cons by apply split_go_nonempty. rewrite IH. reflexivity.
    + rewrite IH. cbn [rev]. now rewrite <- app_assoc.
Qed.

Lemma join_split c0 s m : join [c0] (split s [c0] m) = s.
Proof. unfold split. now rewrite join_split_char. Qed.

Lemma split_go_bound c0 s : forall n cur,
  (length (split_go [c0] (Some n) s 0 cur) <= S n)%nat.
Proof.
  induction s as [|c s IH]; intros n cur; cbn [split_go length Nat.sub]; [lia|].
  destruct n as [|n]; cbn [andb].
  - apply IH.
  - destruct (startswith (c :: s) [c0]); cbn [option_map Nat.pred length].
    + specialize (IH n []). lia.
    + apply IH.
Qed.

Lemma split_go_plain c0 s : forall m cur,
  existsb (eqc c0) s = false -> split_go [c0] m s 0 cur = [rev cur ++ s].
Proof.
  induction s as [|c s IH]; intros m cur H.
  - cbn. now rewrite app_nil_r.
  - cbn [existsb] in H. apply orb_false_iff in H as [Hc H].
    cbn [split_go startswith]. unfold eqc in Hc. rewrite Z.eqb_sym in Hc.
    unfold eqc at 1. rewrite Hc. cbn [andb]. rewrite andb_false_r.
    rewrite IH by exact H. cbn [rev]. now rewrite <- app_assoc.
Qed.

Lemma split_go_first c0 a b : forall cur,
  existsb (eqc c0) a = false ->
  split_go [c0] None (a ++ c0 :: b) 0 cur
  = (rev cur ++ a) :: split_go [c0] None b 0 [].
Proof.
  induction a as [|c a IH]; intros cur H.
  - cbn [app split_go startswith length Nat.sub option_map andb]. unfold eqc.
    rewrite Z.eqb_refl, startswith_nil. cbn [andb]. now rewrite app_nil_r.
  - cbn [existsb] in H. apply orb_false_iff in H as [Hc H].
    cbn [app split_go startswith]. unfold eqc in Hc. rewrite Z.eqb_sym in Hc.
    unfold eqc at 1. rewrite Hc. cbn [andb].
    rewrite IH by exact H. cbn [rev]. now rewrite <- app_assoc.
Qed.

Lemma split_first c0 a b :
  existsb (eqc c0) a = false ->
  split (a ++ c0 :: b) [c0] None = a :: split b [c0] None.
Proof. intros H. unfold split. now rewrite split_go_first. Qed.

Lemma split_plain c0 s : existsb (eqc c0) s = false -> split s [c0] None = [s].
Proof. intros H. unfold split. now rewrite split_go_plain. Qed.

Lemma split_go_count c0 s : forall cur,
  length (split_go [c0] None s 0 cur) = S (count_occ Z.eq_dec s c0).
Proof.
  induction s as [|c s IH]; intros cur; [reflexivity|].
  cbn [split_go startswith length Nat.sub option_map andb count_occ].
  unfold eqc. destruct (Z.eq_dec c c0) as [->|Hne].
  - rewrite Z.eqb_refl, startswith_nil. cbn [andb length]. now rewrite IH.
  - replace (c =? c0) with false by (symmetry; now apply Z.eqb_neq).
    cbn [andb]. apply IH.
Qed.

End SplitFacts.

Section TextFieldExtras.

Import AssDocument AssSpec.

Lemma join_snoc sep l x : l <> [] -> join sep (l ++ [x]) = join sep l ++ sep ++ x.
Proof.
  induction l as [|a l IH]; [congruence|]. intros _.
  destruct l as [|b l]; [reflexivity|].
  change ((a :: b :: l) ++ [x]) with (a :: ((b :: l) ++ [x])).
  rewrite join_cons by (destruct l; discriminate).
  rewrite IH by discriminate. rewrite (join_cons sep a (b :: l)) by discriminate.
  now rewrite <- !app_assoc.
Qed.

Lemma join_ten sep (parts : list str) :
  length parts = 10%nat ->
  (join sep (firstn 9 parts) ++ sep) ++ nth 9 parts [] = join sep parts.
Proof.
  intros Hl.
  do 10 (destruct parts as [|? parts]; [exfalso; cbn in Hl; lia|]).
  destruct parts; [|exfalso; cbn in Hl; lia].
  cbn [firstn nth join]. now rewrite <- !app_assoc.
Qed.

Lemma prefix_and_text (line : str) :
  let parts := split line (lit ",") (Some 9%nat) in
  (10 <= length parts)%nat ->
  (join (lit ",") (firstn 9 parts) ++ lit ",") ++ nth 9 parts [] = line.
Proof.
  cbv zeta. intros Hlen.
  rewrite join_ten.
  - apply (join_split 0x2C).
  - apply Nat.le_antisymm; [apply (split_go_bound 0x2C line 9 []) | exact Hlen].
Qed.

End TextFieldExtras.

Section TimeExtras.

Import AssDocument AssSpec ReSpec.

Lemma existsb_app_false {A} (f : A -> bool) a b :
  existsb f (a ++ b) = false -> existsb f a = false /\ existsb f b = false.
Proof. rewrite existsb_app. apply orb_false_iff. Qed.

(** X8. A time [h:m:s.cs] becomes [h:m:s,cs0], the hour padded to two
    characters and the fraction to three, white space around it ignored. *)
Theorem ass_time_to_srt_well_formed (ass_time h m s cs : str) :
  strip ass_time = h ++ lit ":" ++ m ++ lit ":" ++ s ++ lit "." ++ cs ->
  existsb (eqc 0x2E) (h ++ m ++ s ++ cs) = false ->
  existsb (eqc 0x3A) (h ++ m ++ s) = false ->
  _ass_time_to_srt ass_time
  = zfill2 h ++ lit ":" ++ m ++ lit ":" ++ s ++ lit "," ++ ljust2 cs ++ lit "0".
Proof.
  intros Hs Hdot Hcol.
  apply existsb_app_false in Hdot as [Hh Hdot].
  apply existsb_app_false in Hdot as [Hm Hdot].
  apply existsb_app_false in Hdot as [Hsd Hcs].
  apply existsb_app_false in Hcol as [Hh' Hcol].
  apply existsb_app_false in Hcol as [Hm' Hs'].
  assert (E : strip ass_time = (h ++ 0x3A :: (m ++ 0x3A :: s)) ++ 0x2E :: cs).
  { rewrite Hs. change (lit ":") with [0x3A]. change (lit ".") with [0x2E].
    cbn [app]. rewrite <- !app_assoc. cbn [app]. now rewrite <- !app_assoc. }
  assert (Hmain : existsb (eqc 0x2E) (h ++ 0x3A :: (m ++ 0x3A :: s)) = false).
  { rewrite !existsb_app. cbn [existsb]. rewrite !existsb_app. cbn [existsb].
    rewrite Hh, Hm, Hsd. reflexivity. }
  pose proof (split_first 0x2E _ cs Hmain) as X1.
  pose proof (split_plain 0x2E cs Hcs) as X2.
  pose proof (split_first 0x3A h (m ++ 0x3A :: s) Hh') as X3.
  pose proof (split_first 0x3A m s Hm') as X4.
  pose proof (split_plain 0x3A s Hs') as X5.
  unfold _ass_time_to_srt. rewrite E.
  change (lit ".") with [0x2E]. change (lit ":") with [0x3A].
  cbv delta [str char] in *.
  rewrite X1, X2. cbv zeta. cbn [nth]. rewrite X3, X4, X5.
  reflexivity.
Qed.

Lemma ass_time_to_srt_well_formed_witness :
  _ass_time_to_srt (lit " 1:02:03.4 ") = lit "01:02:03,400".
Proof.
  apply (ass_time_to_srt_well_formed (lit " 1:02:03.4 ")
           (lit "1") (lit "02") (lit "03") (lit "4")); reflexivity.
Defined.

Lemma split_go_head c0 s : forall cur,
  hd [] (split_go [c0] None s 0 cur)
  = rev cur ++ take_while (fun c => negb (eqc c c0)) s.
Proof.
  induction s as [|c s IH]; intros cur.
  - cbn. now rewrite app_nil_r.
  - cbn [split_go startswith length Nat.sub option_map andb take_while].
    rewrite startswith_nil, andb_true_r. destruct (eqc c c0); cbn [negb hd].
    + now rewrite app_nil_r.
    + rewrite IH. cbn [rev]. now rewrite <- app_assoc.
Qed.

Lemma nth_0_hd {A} (l : list A) d : nth 0 l d = hd d l.
Proof. now destruct l. Qed.

Lemma hms_zero (l : list str) (f : str -> str -> str -> str) :
  length l <> 3%nat ->
  match l with [h; m; s] => f h m s | _ => ZERO_TIME end = ZERO_TIME.
Proof. destruct l as [|a [|b [|c [|d l]]]]; cbn; congruence. Qed.

(** X9. The part before the first [.] needs exactly two colons: any other
    number of them gives the zero time. *)
Theorem ass_time_to_srt_malformed (ass_time : str) :
  let main_time := take_while (fun c => negb (eqc c 0x2E)) (strip ass_time) in
  count_occ Z.eq_dec main_time 0x3A <> 2%nat ->
  _ass_time_to_srt ass_time = ZERO_TIME.
Proof.
  cbv zeta. intros H. unfold _ass_time_to_srt. cbv zeta.
  apply hms_zero. rewrite nth_0_hd. intros Hl. apply H.
  pose proof (split_go_head 0x2E (strip ass_time) []) as Hh. cbn [rev app] in Hh.
  pose proof (split_go_count 0x3A
                (take_while (fun c => negb (eqc c 0x2E)) (strip ass_time)) []) as Hc.
  change (lit ".") with [0x2E] in Hl. change (lit ":") with [0x3A] in Hl.
  unfold split in Hl. cbv delta [str char] in *. rewrite Hh in Hl. lia.
Qed.

Lemma ass_time_to_srt_malformed_witness :
  _ass_time_to_srt (lit "01:02.50") = ZERO_TIME
  /\ _ass_time_to_srt (lit "0:01:02:03.50") = ZERO_TIME.
Proof.
  split; apply ass_time_to_srt_malformed; vm_compute; lia.
Defined.

End TimeExtras.

Section LoadExtras.

Import AssDocument AssSpec OrderSpec.

Lemma classify_length lines : forall b, length (classify b lines) = length lines.
Proof. induction lines as [|l ls IH]; intros b; cbn; [reflexivity | now rewrite IH]. Qed.

Lemma header_or_event (c : list (kind * str)) :
  (length (filter is_header c) + length (filter is_event c))%nat = length c.
Proof.
  induction c as [|[[] x] c IH]; cbn; [reflexivity| |]; cbn in IH; lia.
Qed.

(** X10. [load] drops no line: each line read adds one entry, to [headers] or
    to [event_templates], whatever the object held before. *)
Theorem load_keeps_every_line (self0 : t) (lines : list str) :
  let self1 := fst (load self0 lines) in
  (length (headers self1) + length (event_templates self1)
   = length (headers self0) + length (event_templates self0) + length lines)%nat.
Proof.
  cbv zeta. unfold load. cbn [fst headers event_templates].
  destruct (load_fold_classify lines
              {| self := self0; items := []; is_events := false; event_idx := 1 |})
    as (H1 & H2).
  cbv zeta in H1, H2. cbn [self is_events] in H1, H2.
  rewrite H1, H2, !length_app, !length_map.
  pose proof (header_or_event (classify false lines)) as H.
  rewrite classify_length in H. lia.
Qed.

Lemma load_line_same st st' line0 :
  is_events st = is_events st' -> event_idx st = event_idx st' ->
  items st = items st' ->
  is_events (load_line st line0) = is_events (load_line st' line0)
  /\ event_idx (load_line st line0) = event_idx (load_line st' line0)
  /\ items (load_line st line0) = items (load_line st' line0).
Proof.
  intros H1 H2 H3. unfold load_line. cbv zeta.
  change (if startswith (strip line0) [0xFEFF] then tl (strip line0) else strip line0)
    with (clean_line line0).
  generalize (clean_line line0). intros line. rewrite <- H1.
  destruct (Re.nonempty line); cbn [negb];
    [destruct (startswith line (lit "[Events]"));
     [|destruct (is_events st) eqn:His;
       [destruct (startswith line (lit "Format:"));
        [|destruct (startswith line (lit "Dialogue:"));
          [destruct (length (split line (lit ",") (Some 9%nat)) <? 10)%nat|]]|]]|];
    unfold append_header, append_event, set_events_header, enter_events;
    cbn [self items is_events event_idx]; rewrite ?H2, ?H3, ?His; auto.
Qed.

Lemma load_fold_same lines : forall st st',
  is_events st = is_events st' -> event_idx st = event_idx st' ->
  items st = items st' ->
  event_idx (fold_left load_line lines st) = event_idx (fold_left load_line lines st')
  /\ items (fold_left load_line lines st) = items (fold_left load_line lines st').
Proof.
  induction lines as [|l ls IH]; intros st st' H1 H2 H3; cbn [fold_left]; [auto|].
  destruct (load_line_same st st' l H1 H2 H3) as (? & ? & ?). now apply IH.
Qed.

(** X11. [load] never clears [headers] and [event_templates]: on an object that
    was loaded before it returns the same items as on a fresh one, and
    appends the lines to what the object holds. *)
Theorem load_again_accumulates (self0 : t) (p : str) (lines : list str) :
  let fresh := load (init p) lines in
  let again := load self0 lines in
  snd again = snd fresh
  /\ total_event_count (fst again) = total_event_count (fst fresh)
  /\ headers (fst again) = headers self0 ++ headers (fst fresh)
  /\ event_templates (fst again) = event_templates self0 ++ event_templates (fst fresh).
Proof.
  cbv zeta. unfold load. cbn [fst snd headers event_templates total_event_count].
  set (st0 := {| self := self0; items := []; is_events := false; event_idx := 1 |}).
  set (st1 := {| self := init p; items := []; is_events := false; event_idx := 1 |}).
  destruct (load_fold_same lines st0 st1 eq_refl eq_refl eq_refl) as (Hi & Hit).
  destruct (load_fold_classify lines st0) as (H1 & H2).
  destruct (load_fold_classify lines st1) as (H3 & H4).
  cbv zeta in H1, H2, H3, H4.
  cbn [st0 st1 self init headers event_templates is_events app] in H1, H2, H3, H4.
  rewrite Hi, Hit, H1, H2, H3, H4. auto.
Qed.

Lemma load_line_outside st line0 :
  is_events st = false ->
  startswith (clean_line line0) (lit "[Events]") = false ->
  load_line st line0 = append_header st (clean_line line0).
Proof.
  intros H1 H2. unfold load_line. cbv zeta.
  change (if startswith (strip line0) [0xFEFF] then tl (strip line0) else strip line0)
    with (clean_line line0).
  rewrite H1, H2. now destruct (negb (Re.nonempty (clean_line line0))).
Qed.

Lemma load_fold_outside lines : forall st,
  is_events st = false ->
  forallb (fun l => negb (startswith (clean_line l) (lit "[Events]"))) lines = true ->
  let st' := fold_left load_line lines st in
  items st' = items st /\ event_idx st' = event_idx st
  /\ headers (self st') = headers (self st) ++ map clean_line lines
  /\ event_templates (self st') = event_templates (self st)
  /\ events_header (self st') = events_header (self st).
Proof.
  induction lines as [|l ls IH]; intros st H1 H2; cbv zeta.
  - cbn. now rewrite app_nil_r.
  - cbn [forallb] in H2. apply andb_true_iff in H2 as [Hl H2].
    apply negb_true_iff in Hl. cbn [fold_left map].
    rewrite (load_line_outside st l H1 Hl).
    destruct (IH (append_header st (clean_line l)) H1 H2) as (I1 & I2 & I3 & I4 & I5).
    cbv zeta in *. rewrite I1, I2, I3, I4, I5.
    unfold append_header. cbn [self items event_idx headers event_templates events_header].
    rewrite <- app_assoc. auto.
Qed.

(** X12. Without an [[Events]] line nothing is an event: [load] returns no item
    and stores every line, stripped, as a header. *)
Theorem load_without_events_section (self0 : t) (lines : list str) :
  forallb (fun l => negb (startswith (clean_line l) (lit "[Events]"))) lines = true ->
  let result := load self0 lines in
  snd result = []
  /\ total_event_count (fst result) = 0%nat
  /\ headers (fst result) = headers self0 ++ map clean_line lines
  /\ event_templates (fst result) = event_templates self0
  /\ events_header (fst result) = events_header self0.
Proof.
  intros H. cbv zeta. unfold load.
  cbn [fst snd headers event_templates events_header total_event_count].
  destruct (load_fold_outside lines
              {| self := self0; items := []; is_events := false; event_idx := 1 |}
              eq_refl H) as (I1 & I2 & I3 & I4 & I5).
  cbv zeta in *. rewrite I1, I2, I3, I4, I5. auto.
Qed.

Lemma load_without_events_section_witness :
  let lines := [lit "[Script Info]" ++ [0x0A];
                lit "Dialogue: 0,0:00:01.00,0:00:02.00,Default,,0,0,0,,hi" ++ [0x0A]] in
  snd (load (init []) lines) = []
  /\ headers (fst (load (init []) lines))
     = [lit "[Script Info]"; lit "Dialogue: 0,0:00:01.00,0:00:02.00,Default,,0,0,0,,hi"].
Proof.
  cbv zeta.
  pose proof (load_without_events_section (init [])
    [lit "[Script Info]" ++ [0x0A];
     lit "Dialogue: 0,0:00:01.00,0:00:02.00,Default,,0,0,0,,hi" ++ [0x0A]] eq_refl) as H.
  cbv zeta in H. destruct H as (H1 & _ & H3 & _). split; [exact H1 | exact H3].
Defined.

Lemma startswith_app a b : startswith (a ++ b) a = true.
Proof.
  induction a as [|c a IH]; cbn; [now destruct b|].
  unfold eqc. now rewrite Z.eqb_refl.
Qed.

Lemma load_line_numbered st line0 :
  event_idx st = S (length (items st)) ->
  (forall i it, nth_error (items st) i = Some it ->
     startswith (text it) (str_of_nat (S i) ++ [0x0A]) = true
     /\ meta it = lit "ass_structural") ->
  let st' := load_line st line0 in
  event_idx st' = S (length (items st'))
  /\ (forall i it, nth_error (items st') i = Some it ->
        startswith (text it) (str_of_nat (S i) ++ [0x0A]) = true
        /\ meta it = lit "ass_structural").
Proof.
  intros H1 H2. cbv zeta. unfold load_line. cbv zeta.
  change (if startswith (strip line0) [0xFEFF] then tl (strip line0) else strip line0)
    with (clean_line line0).
  generalize (clean_line line0). intros line.
  destruct (Re.nonempty line); cbn [negb];
    [destruct (startswith line (lit "[Events]"));
     [|destruct (is_events st);
       [destruct (startswith line (lit "Format:"));
        [|destruct (startswith line (lit "Dialogue:"));
          [destruct (length (split line (lit ",") (Some 9%nat)) <? 10)%nat|]]|]]|];
    unfold append_header, append_event, set_events_header, enter_events;
    cbn [self items is_events event_idx]; auto.
  rewrite length_app. cbn [length]. split; [lia|].
  intros i it Hn.
  destruct (Nat.lt_ge_cases i (length (items st))) as [Hlt|Hge].
  - rewrite nth_error_app1 in Hn by exact Hlt. now apply H2.
  - rewrite nth_error_app2 in Hn by exact Hge.
    destruct (i - length (items st))%nat as [|k] eqn:E.
    + cbn in Hn. injection Hn as <-. cbn [text meta]. split; [|reflexivity].
      assert (i = length (items st)) as -> by lia. rewrite <- H1.
      unfold pseudo_srt_block. cbv zeta.
      rewrite (app_assoc (str_of_nat _) [0x0A]). apply startswith_app.
    + cbn in Hn. destruct k; discriminate.
Qed.

Lemma load_fold_numbered lines : forall st,
  event_idx st = S (length (items st)) ->
  (forall i it, nth_error (items st) i = Some it ->
     startswith (text it) (str_of_nat (S i) ++ [0x0A]) = true
     /\ meta it = lit "ass_structural") ->
  let st' := fold_left load_line lines st in
  event_idx st' = S (length (items st'))
  /\ (forall i it, nth_error (items st') i = Some it ->
        startswith (text it) (str_of_nat (S i) ++ [0x0A]) = true
        /\ meta it = lit "ass_structural").
Proof.
  induction lines as [|l ls IH]; intros st H1 H2; cbv zeta; cbn [fold_left]; [auto|].
  destruct (load_line_numbered st l H1 H2) as [H3 H4]. now apply IH.
Qed.

(** X13. [total_event_count] is the number of blocks [load] returns, on a
    fresh object or not and also when there is none, and the blocks carry
    their position: block [i], counted from zero, starts with the line
    [i + 1] and has the meta [ass_structural]. *)
Theorem load_numbers_blocks (self0 : t) (lines : list str) :
  total_event_count (fst (load self0 lines)) = length (snd (load self0 lines))
  /\ (forall i it,
        nth_error (snd (load self0 lines)) i = Some it ->
        startswith (text it) (str_of_nat (S i) ++ [0x0A]) = true
        /\ meta it = lit "ass_structural").
Proof.
  unfold load. cbn [fst snd total_event_count].
  destruct (load_fold_numbered lines
              {| self := self0; items := []; is_events := false; event_idx := 1 |})
    as [H1 H2].
  - reflexivity.
  - intros j it' Hj. destruct j; discriminate.
  - cbv zeta in H1, H2. split; [rewrite H1; lia | exact H2].
Qed.

Lemma load_numbers_blocks_witness :
  let lines := [lit "[Events]";
                lit "Dialogue: 0,0:00:01.00,0:00:02.00,Default,,0,0,0,,hi";
                lit "Dialogue: 0,0:00:03.00,0:00:04.00,Default,,0,0,0,,there"] in
  total_event_count (fst (load (init []) lines)) = 2%nat
  /\ total_event_count (fst (load (init []) [lit "[Script Info]"])) = 0%nat
  /\ exists it, nth_error (snd (load (init []) lines)) 1 = Some it
                /\ startswith (text it) (lit "2" ++ [0x0A]) = true.
Proof.
  cbv zeta.
  destruct (load_numbers_blocks (init [])
              [lit "[Events]";
               lit "Dialogue: 0,0:00:01.00,0:00:02.00,Default,,0,0,0,,hi";
               lit "Dialogue: 0,0:00:03.00,0:00:04.00,Default,,0,0,0,,there"])
    as [Hc Hi].
  split; [exact Hc|]. split.
  - exact (proj1 (load_numbers_blocks (init []) [lit "[Script Info]"])).
  - eexists. split; [reflexivity|]. exact (proj1 (Hi 1%nat _ eq_refl)).
Defined.

End LoadExtras.

Section ReplaceFacts.

(** [replace] with a one-character replacement. *)

Lemma replace_go_head old c b s :
  c <> b -> hd_error (replace_go old [c] s 0) = Some b -> hd_error s = Some b.
Proof.
  intros Hc. destruct s as [|x s]; cbn [replace_go]; [auto|].
  destruct (startswith (x :: s) old); cbn; [congruence | auto].
Qed.

Lemma startswith_two (s : str) a b :
  startswith s [a; b] = true <-> exists r, s = a :: b :: r.
Proof.
  split.
  - destruct s as [|x [|y r]]; cbn; try discriminate.
    + rewrite andb_false_r. discriminate.
    + unfold eqc. intros H. apply andb_true_iff in H as [H1 H2].
      apply andb_true_iff in H2 as [H2 _].
      apply Z.eqb_eq in H1, H2. subst. eauto.
  - intros [r ->]. cbn. unfold eqc. now rewrite !Z.eqb_refl, startswith_nil.
Qed.

Lemma startswith_cons_two (x : char) (r : str) a b :
  startswith (x :: r) [a; b] = true -> x = a /\ hd_error r = Some b.
Proof.
  intros H. apply startswith_two in H as [r' E]. injection E as -> ->. auto.
Qed.

Lemma startswith_two_hd (x : char) (r : str) a b :
  x = a -> hd_error r = Some b -> startswith (x :: r) [a; b] = true.
Proof.
  intros -> H. destruct r as [|y r]; [discriminate|]. injection H as ->.
  apply startswith_two. eauto.
Qed.

(** An occurrence of [a b] does not appear by replacing something by a
    character that is neither [a] nor [b]. *)
Lemma replace_go_keeps_absent old a b c s : forall k,
  c <> a -> c <> b -> contains s [a; b] = false ->
  contains (replace_go old [c] s k) [a; b] = false.
Proof.
  induction s as [|x s IH]; intros k Ha Hb H; [destruct k; exact H|].
  cbn [contains] in H. apply orb_false_iff in H as [Hs H].
  cbn [replace_go]. destruct k as [|k]; [|now apply IH].
  destruct (startswith (x :: s) old).
  - cbn [app contains]. rewrite (IH _ Ha Hb H), orb_false_r.
    destruct (startswith (c :: _) [a; b]) eqn:E; [|reflexivity].
    apply startswith_cons_two in E as [E _]. contradiction.
  - cbn [contains]. rewrite (IH _ Ha Hb H), orb_false_r.
    destruct (startswith (x :: replace_go old [c] s 0) [a; b]) eqn:E; [|reflexivity].
    apply startswith_cons_two in E as [E1 E2].
    apply (replace_go_head old c b s Hb) in E2.
    rewrite (startswith_two_hd x s a b E1 E2) in Hs. discriminate.
Qed.

(** No occurrence of [a b] is left after replacing them. *)
Lemma replace_go_removes a b c s : forall k,
  c <> a -> c <> b -> contains (replace_go [a; b] [c] s k) [a; b] = false.
Proof.
  induction s as [|x s IH]; intros k Ha Hb; [destruct k; reflexivity|].
  cbn [replace_go]. destruct k as [|k]; [|now apply IH].
  destruct (startswith (x :: s) [a; b]) eqn:Hs.
  - cbn [app contains]. rewrite (IH _ Ha Hb), orb_false_r.
    destruct (startswith (c :: _) [a; b]) eqn:E; [|reflexivity].
    apply startswith_cons_two in E as [E _]. contradiction.
  - cbn [contains]. rewrite (IH _ Ha Hb), orb_false_r.
    destruct (startswith (x :: replace_go [a; b] [c] s 0) [a; b]) eqn:E; [|reflexivity].
    apply startswith_cons_two in E as [E1 E2].
    apply (replace_go_head [a; b] c b s Hb) in E2.
    rewrite (startswith_two_hd x s a b E1 E2) in Hs. discriminate.
Qed.

(** A character that is neither in the text nor in the replacement is not
    in the result. *)
Lemma replace_go_no_char (f : char -> bool) old new s : forall k,
  existsb f new = false -> existsb f s = false ->
  existsb f (replace_go old new s k) = false.
Proof.
  induction s as [|x s IH]; intros k Hn H; [destruct k; reflexivity|].
  cbn [existsb] in H. apply orb_false_iff in H as [Hx H].
  cbn [replace_go]. destruct k as [|k]; [|now apply IH].
  destruct (startswith (x :: s) old).
  - rewrite existsb_app, Hn. now apply IH.
  - cbn [existsb]. rewrite Hx. now apply IH.
Qed.

(** Replacing a character leaves none of it. *)
Lemma replace_char_gone c new s :
  existsb (eqc c) new = false -> existsb (eqc c) (replace s [c] new) = false.
Proof.
  intros Hn. unfold replace. induction s as [|x s IH]; [reflexivity|].
  cbn [replace_go startswith length Nat.sub]. rewrite startswith_nil, andb_true_r.
  destruct (eqc x c) eqn:E.
  - rewrite existsb_app, Hn. exact IH.
  - cbn [existsb]. unfold eqc in *. rewrite Z.eqb_sym, E. exact IH.
Qed.

End ReplaceFacts.

Section SaveExtras.

Import AssDocument AssSpec HintSpec SplitSpec ReSpec.

(** X14. After normalization the stream holds neither of the two line-break
    escapes. *)
Theorem normalize_leaves_no_escape (full_stream : str) :
  contains (normalize full_stream) BACKSLASH_N = false
  /\ contains (normalize full_stream) BACKSLASH_n = false.
Proof.
  unfold normalize, replace, BACKSLASH_N, BACKSLASH_n. split.
  - apply replace_go_keeps_absent; [discriminate | discriminate |].
    apply replace_go_removes; discriminate.
  - apply replace_go_removes; discriminate.
Qed.

Lemma dedup_loop_no_char (f : char -> bool) fuel : forall s r,
  f 0x5C = false -> f 0x4E = false ->
  existsb f s = false -> dedup_loop fuel s = Some r -> existsb f r = false.
Proof.
  induction fuel as [|fuel IH]; intros s r H1 H2 Hs; cbn [dedup_loop];
    destruct (contains s (BACKSLASH_N ++ BACKSLASH_N)); try discriminate.
  - now intros [= <-].
  - apply IH; [exact H1 | exact H2 |]. unfold replace. apply replace_go_no_char.
    + cbn. now rewrite H1, H2.
    + exact Hs.
  - now intros [= <-].
Qed.

(** X15. The text put after a prefix holds no newline and no doubled line-break
    escape. *)
Theorem cleanup_leaves_single_breaks (trans_text : str) :
  char_in 0x0A (cleanup trans_text) = false
  /\ contains (cleanup trans_text) (BACKSLASH_N ++ BACKSLASH_N) = false.
Proof.
  unfold cleanup. cbv zeta. split; [|apply dedup_exits].
  unfold char_in. eapply dedup_loop_no_char; [| | | apply dedup_exits];
    [reflexivity | reflexivity |].
  apply replace_char_gone. reflexivity.
Qed.

Lemma collect_from blocks : forall acc,
  forallb (fun b => negb (Re.nonempty (content b))) blocks = true ->
  fold_left (fun full_stream b =>
               if Re.nonempty (content b) then full_stream ++ content b ++ NL2
               else full_stream) blocks acc = acc.
Proof.
  induction blocks as [|b bs IH]; intros acc H; [reflexivity|].
  cbn [forallb] in H. apply andb_true_iff in H as [Hb H].
  apply negb_true_iff in Hb. cbn [fold_left]. rewrite Hb. now apply IH.
Qed.

Lemma event_lines_no_units_from templates : forall i,
  map (event_line []) (enumerate_from i templates) = templates.
Proof.
  induction templates as [|p ts IH]; intros i; [reflexivity|].
  cbn [enumerate_from map event_line length]. rewrite IH.
  replace (i <? 0)%nat with false by (symmetry; apply Nat.ltb_ge; lia).
  now rewrite cleanup_empty, app_nil_r.
Qed.

(** X16. Blocks without content (no [dst] and an empty [prompt_text]) count for
    nothing: [save] writes the headers and then every template prefix with
    an empty text, and warns when there is a template. *)
Theorem save_without_content (self0 : t) (blocks : list TextBlock) :
  forallb (fun b => negb (Re.nonempty (content b))) blocks = true ->
  written (save self0 blocks) = write_lines (headers self0 ++ event_templates self0)
  /\ warning (save self0 blocks)
     = match event_templates self0 with
       | [] => None
       | _ :: _ => Some (0%nat, length (event_templates self0))
       end.
Proof.
  intros H. unfold save, collect. cbv zeta. rewrite (collect_from blocks [] H).
  change (translated_units (normalize [])) with (@nil str).
  cbn [written warning]. unfold event_lines, enumerate.
  rewrite event_lines_no_units_from, write_lines_app. split; [reflexivity|].
  now destruct (event_templates self0).
Qed.

Lemma save_without_content_witness :
  let self0 := {| path := []; headers := [lit "[Events]"];
                  events_header := None;
                  event_templates := [lit "Dialogue: 0,0:00:01.00,0:00:02.00,Default,,0,0,0,,"];
                  total_event_count := 1 |} in
  let blocks := [{| dst := Some []; prompt_text := [] |};
                 {| dst := None; prompt_text := [] |}] in
  written (save self0 blocks)
  = lit "[Events]" ++ [0x0A]
    ++ lit "Dialogue: 0,0:00:01.00,0:00:02.00,Default,,0,0,0,," ++ [0x0A]
  /\ warning (save self0 blocks) = Some (0%nat, 1%nat).
Proof.
  cbv zeta.
  match goal with
  | |- written (save ?s ?b) = _ /\ _ =>
      destruct (save_without_content s b eq_refl) as [H1 H2]
  end.
  split; [rewrite H1; reflexivity | exact H2].
Defined.

(** *** Streams without a digit *)

Lemma flat_map_nil {A B} (f : A -> list B) l :
  (forall x, In x l -> f x = []) -> flat_map f l = [].
Proof.
  induction l as [|x l IH]; intros H; [reflexivity|]. cbn [flat_map].
  rewrite (H x) by now left. apply IH. intros y Hy. apply H. now right.
Qed.

Lemma existsb_suffix {A} (f : A -> bool) m r :
  existsb f (m ++ r) = false -> existsb f r = false.
Proof. rewrite existsb_app. intros H. now apply orb_false_iff in H. Qed.

Lemma run_seq_nil a b prev s :
  (forall q, In q (Re.run a prev s) -> Re.run b (fst q) (snd q) = []) ->
  Re.run (Re.Seq a b) prev s = [].
Proof. intros H. cbn [Re.run]. now apply flat_map_nil. Qed.

Lemma run_header_digitless prev s :
  existsb is_digit s = false -> Re.run header_pattern prev s = [].
Proof.
  intros H. unfold header_pattern. apply run_seq_nil. intros q1 H1.
  destruct (run_suffix _ _ _ _ H1) as [m1 E1].
  apply run_seq_nil. intros q2 H2.
  destruct (run_suffix _ _ _ _ H2) as [m2 E2].
  assert (Hd : existsb is_digit (snd q2) = false).
  { rewrite E1, E2 in H. apply existsb_suffix in H. now apply existsb_suffix in H. }
  unfold Re.Plus. cbn [Re.run]. destruct (snd q2) as [|c r]; [reflexivity|].
  cbn [existsb] in Hd. apply orb_false_iff in Hd as [Hc _]. rewrite Hc. reflexivity.
Qed.

Lemma pieces_header_digitless s : forall prev,
  existsb is_digit s = false -> Re.pieces header_pattern prev s 0 = map Re.Lit s.
Proof.
  induction s as [|c s IH]; intros prev H.
  - cbn [Re.pieces]. now rewrite run_header_digitless.
  - cbn [Re.pieces]. rewrite (run_header_digitless prev (c :: s) H). cbn [map].
    rewrite IH; [reflexivity|]. cbn [existsb] in H. now apply orb_false_iff in H.
Qed.

Lemma split_pieces_literals s : forall cur,
  Re.split_pieces (map Re.Lit s) cur = [rev cur ++ s].
Proof.
  induction s as [|c s IH]; intros cur; cbn [map Re.split_pieces].
  - now rewrite app_nil_r.
  - rewrite IH. cbn [rev]. now rewrite <- app_assoc.
Qed.

(** X17. A header needs an index: on a stream without a decimal digit the
    header pattern cuts nothing, and the units are the blank-line
    segments. *)
Theorem digitless_stream_falls_back (full_stream : str) :
  existsb is_digit full_stream = false ->
  Re.split header_pattern full_stream = [full_stream]
  /\ translated_units full_stream = blank_line_segments full_stream.
Proof.
  intros H.
  assert (E : Re.split header_pattern full_stream = [full_stream]).
  { unfold Re.split. rewrite (pieces_header_digitless _ _ H).
    now rewrite split_pieces_literals. }
  split; [exact E|]. unfold translated_units. cbv zeta. rewrite E. reflexivity.
Qed.

Lemma digitless_stream_falls_back_witness :
  translated_units (lit "Hello" ++ [0x0A; 0x0A] ++ lit "World" ++ [0x0A; 0x0A])
  = [lit "Hello"; lit "World"].
Proof.
  match goal with
  | |- translated_units ?s = _ =>
      destruct (digitless_stream_falls_back s eq_refl) as [_ H]; rewrite H
  end.
  reflexivity.
Defined.

(** *** The injected hint *)

Lemma closing_app (close : char -> bool) a r c :
  existsb close a = false -> forallb Re.dot a = true -> close c = true ->
  closing close (a ++ c :: r) = Some r.
Proof.
  intros Ha Hd Hc. induction a as [|x a IH]; cbn [app closing].
  - now rewrite Hc.
  - cbn [existsb forallb] in Ha, Hd. apply orb_false_iff in Ha as [Hx Ha].
    apply andb_true_iff in Hd as [Hdx Hd]. rewrite Hx, Hdx. now apply IH.
Qed.

Lemma lstrip_idem s : lstrip (lstrip s) = lstrip s.
Proof.
  induction s as [|c s IH]; [reflexivity|]. cbn [lstrip].
  destruct (is_space c) eqn:E; [exact IH|]. cbn [lstrip]. now rewrite E.
Qed.

Lemma strip_lstrip s : strip (lstrip s) = strip s.
Proof. unfold strip. now rewrite lstrip_idem. Qed.


Lemma strip_hint_injected (actor_name style_name raw_text : str) :
  char_in 0x5D actor_name = false -> one_line actor_name = true ->
  existsb (fun c => eqc c 0x29 || eqc c 0xFF09) style_name = false ->
  one_line style_name = true ->
  Re.nonempty actor_name && negb (contains raw_text actor_name)
  || is_meaningful_style style_name raw_text = true ->
  strip_hint (final_prompt_text actor_name style_name raw_text) = lstrip raw_text.
Proof.
  intros Ha Hal Hs Hsl Hinj.
  unfold final_prompt_text. cbv zeta.
  change (lit "[") with [0x5B]. change (lit "]") with [0x5D].
  change (lit "(") with [0x28]. change (lit ")") with [0x29].
  change (lit " ") with [0x20].
  destruct (Re.nonempty actor_name && negb (contains raw_text actor_name)) eqn:Ea;
    destruct (is_meaningful_style style_name raw_text) eqn:Es;
    cbn [orb] in Hinj; try discriminate.
  - cbn [app Re.nonempty]. unfold strip_hint, skip_opt, bracket_tag, skip_tag.
    rewrite <- !app_assoc. cbn [app]. cbn [eqc Z.eqb Pos.eqb].
    rewrite (closing_app (eqc 0x5D) actor_name _ 0x5D Ha Hal eq_refl).
    unfold paren_tag, skip_tag. cbn [eqc Z.eqb Pos.eqb orb].
    rewrite <- ?app_assoc. cbn [app].
    rewrite (closing_app _ style_name _ 0x29 Hs Hsl eq_refl). reflexivity.
  - cbn [app Re.nonempty]. unfold strip_hint, skip_opt, bracket_tag, skip_tag.
    rewrite <- !app_assoc. cbn [app]. cbn [eqc Z.eqb Pos.eqb].
    rewrite (closing_app (eqc 0x5D) actor_name _ 0x5D Ha Hal eq_refl).
    reflexivity.
  - cbn [app Re.nonempty]. unfold strip_hint, skip_opt, bracket_tag, skip_tag.
    rewrite <- !app_assoc. cbn [app]. cbn [eqc Z.eqb Pos.eqb].
    unfold paren_tag, skip_tag. cbn [eqc Z.eqb Pos.eqb orb].
    rewrite <- ?app_assoc. cbn [app].
    rewrite (closing_app _ style_name _ 0x29 Hs Hsl eq_refl). reflexivity.
Qed.

(** X18. The hint [load] puts before the text is the hint [save] removes: when
    a speaker or a style was injected, and the speaker holds no []] and the
    style no closing parenthesis, the cleanup of the prompt text is the
    cleanup the text alone gets after the hint stage. *)
Theorem cleanup_removes_injected_hint (actor_name style_name raw_text : str) :
  char_in 0x5D actor_name = false -> one_line actor_name = true ->
  existsb (fun c => eqc c 0x29 || eqc c 0xFF09) style_name = false ->
  one_line style_name = true ->
  Re.nonempty actor_name && negb (contains raw_text actor_name)
  || is_meaningful_style style_name raw_text = true ->
  strip_hint (final_prompt_text actor_name style_name raw_text) = lstrip raw_text
  /\ cleanup (final_prompt_text actor_name style_name raw_text)
     = dedup (replace (strip raw_text) [0x0A] BACKSLASH_N).
Proof.
  intros Ha Hal Hs Hsl Hinj.
  pose proof (strip_hint_injected actor_name style_name raw_text Ha Hal Hs Hsl Hinj) as E.
  split; [exact E|]. rewrite cleanup_strip_hint, E. now rewrite strip_lstrip.
Qed.

Lemma cleanup_removes_injected_hint_witness :
  final_prompt_text (lit "Bob") (lit "Sign") (lit "[sic] hello") = lit "[Bob](Sign) [sic] hello"
  /\ cleanup (lit "[Bob](Sign) [sic] hello") = lit "[sic] hello".
Proof.
  split; [reflexivity|].
  destruct (cleanup_removes_injected_hint (lit "Bob") (lit "Sign") (lit "[sic] hello")
              eq_refl eq_refl eq_refl eq_refl eq_refl) as [_ H].
  exact H.
Defined.

End SaveExtras.

(** ** The load and save cycle through the identity transformer *)

Section DigitFacts.

Import StreamSpec.

Lemma ascii_digit_cases c :
  is_ascii_digit c = true ->
  c = 48 \/ c = 49 \/ c = 50 \/ c = 51 \/ c = 52 \/ c = 53 \/ c = 54 \/ c = 55
  \/ c = 56 \/ c = 57.
Proof.
  unfold is_ascii_digit. intros H. apply andb_true_iff in H as [H1 H2].
  apply Z.leb_le in H1, H2. lia.
Qed.

Ltac by_digit_cases H :=
  apply ascii_digit_cases in H;
  repeat (destruct H as [H|H]; [subst; reflexivity|]); subst; reflexivity.

Lemma ascii_digit_is_digit c : is_ascii_digit c = true -> is_digit c = true.
Proof. intros H. by_digit_cases H. Qed.

Lemma ascii_digit_not_space c : is_ascii_digit c = true -> is_space c = false.
Proof. intros H. by_digit_cases H. Qed.

Lemma ascii_digit_not_newline c : is_ascii_digit c = true -> eqc 0x0A c = false.
Proof. intros H. by_digit_cases H. Qed.

Lemma ascii_digit_not_backslash c : is_ascii_digit c = true -> eqc 0x5C c = false.
Proof. intros H. by_digit_cases H. Qed.

Lemma uint_chars_digits d : forallb is_ascii_digit (uint_chars d) = true.
Proof. induction d; cbn [uint_chars forallb]; try reflexivity; rewrite IHd; reflexivity. Qed.

Lemma uint_chars_nonempty d : d <> Decimal.Nil -> uint_chars d <> [].
Proof. destruct d; cbn; congruence. Qed.

Lemma str_of_nat_digits n : forallb is_ascii_digit (str_of_nat n) = true.
Proof. apply uint_chars_digits. Qed.

Lemma str_of_nat_nonempty n : str_of_nat n <> [].
Proof.
  unfold str_of_nat. apply uint_chars_nonempty.
  rewrite <- (DecimalNat.Unsigned.of_to n) at 1. rewrite DecimalNat.Unsigned.to_of.
  apply DecimalFacts.unorm_nonnil.
Qed.

End DigitFacts.

Section HeadCalculus.

Import StreamSpec.

Import ReSpec.

Lemma heads_seq a b prev s s1 s2 :
  heads (Re.run a prev s) s1 ->
  (forall prev', heads (Re.run b prev' s1) s2) ->
  heads (Re.run (Re.Seq a b) prev s) s2.
Proof.
  intros (q & tl & Ha) Hb. cbn [Re.run]. rewrite Ha. cbn [flat_map fst snd].
  destruct (Hb q) as (q' & tl' & ->). cbn [app]. unfold heads. eauto.
Qed.

Lemma heads_cls (p : char -> bool) prev c s :
  p c = true -> heads (Re.run (Re.Cls p) prev (c :: s)) s.
Proof. intros H. cbn [Re.run]. rewrite H. unfold heads. eauto. Qed.

Lemma heads_star (p : char -> bool) prev m rest :
  forallb p m = true ->
  negb (match rest with c :: _ => p c | [] => false end) = true ->
  heads (Re.run (Re.Star p) prev (m ++ rest)) rest.
Proof.
  intros Hm Hr. cbn [Re.run]. destruct (star_head p (m ++ rest) prev) as [tl ->].
  destruct (take_while_all p m rest Hm Hr) as [_ ->]. unfold heads. eauto.
Qed.

Lemma heads_star_none (p : char -> bool) prev c rest :
  p c = false -> heads (Re.run (Re.Star p) prev (c :: rest)) (c :: rest).
Proof.
  intros H. apply (heads_star p prev [] (c :: rest)); [reflexivity|].
  now rewrite H.
Qed.

Lemma heads_plus (p : char -> bool) prev c m rest :
  p c = true -> forallb p m = true ->
  negb (match rest with c :: _ => p c | [] => false end) = true ->
  heads (Re.run (Re.Plus p) prev (c :: m ++ rest)) rest.
Proof.
  intros Hc Hm Hr. unfold Re.Plus. eapply heads_seq.
  - now apply heads_cls.
  - intros prev'. now apply heads_star.
Qed.

Lemma heads_alt_l a b prev s r :
  heads (Re.run a prev s) r -> heads (Re.run (Re.Alt a b) prev s) r.
Proof. intros (q & tl & H). cbn [Re.run]. rewrite H. cbn [app]. unfold heads. eauto. Qed.

Lemma heads_alt_r a b prev s r :
  Re.run a prev s = [] -> heads (Re.run b prev s) r ->
  heads (Re.run (Re.Alt a b) prev s) r.
Proof. intros Ha H. cbn [Re.run]. now rewrite Ha. Qed.

Lemma heads_opt_cls (p : char -> bool) prev c s :
  p c = true -> heads (Re.run (Re.Opt (Re.Cls p)) prev (c :: s)) s.
Proof. intros H. unfold Re.Opt. apply heads_alt_l. now apply heads_cls. Qed.

Lemma heads_star_lazy (p : char -> bool) prev s :
  heads (Re.run (Re.StarLazy p) prev s) s.
Proof. cbn [Re.run]. destruct s; cbn [Re.star_lazy]; unfold heads; eauto. Qed.

(** The one place where the header pattern backtracks: [\s*] takes the
    newline after the index and has to give it back. *)
Lemma heads_space_newline (R : Re.re) prev s r :
  head_is is_ascii_digit s = true ->
  (forall prev', heads (Re.run R prev' s) r) ->
  heads (Re.run (Re.Seq (Re.Star is_space) (Re.Seq (Re.Chr 0x0A) R))
                prev (0x0A :: s)) r.
Proof.
  intros Hd HR. destruct s as [|d s]; [discriminate|]. cbn [head_is] in Hd.
  cbn [Re.run Re.star]. change (is_space 10) with true. cbv iota.
  rewrite (ascii_digit_not_space d Hd). cbn [app flat_map fst snd Re.Chr Re.run].
  rewrite (ascii_digit_not_newline d Hd). change (eqc 10 10) with true. cbv iota.
  cbn [flat_map app fst snd]. rewrite !app_nil_r. apply HR.
Qed.

End HeadCalculus.

Section HeaderMatch.

Import StreamSpec.

Import AssDocument ReSpec.

Lemma forallb_impl {A} (p q : A -> bool) l :
  (forall x, p x = true -> q x = true) -> forallb p l = true -> forallb q l = true.
Proof.
  intros H. induction l as [|x l IH]; [reflexivity|]. cbn [forallb].
  intros E. apply andb_true_iff in E as [E1 E2]. now rewrite (H x E1), IH.
Qed.

Lemma head_digit_not_space s :
  head_is is_ascii_digit s = true -> negb (head_is is_space s) = true.
Proof.
  destruct s as [|c s]; [discriminate|]. cbn [head_is]. intros H.
  now rewrite (ascii_digit_not_space c H).
Qed.

Lemma srt_time_shape s :
  is_srt_time s = true ->
  exists h1 h2 m1 m2 s1 s2 f1 f2 f3,
    s = [h1; h2; 0x3A; m1; m2; 0x3A; s1; s2; 0x2C; f1; f2; f3]
    /\ forallb is_ascii_digit [h1; h2; m1; m2; s1; s2; f1; f2; f3] = true.
Proof.
  unfold is_srt_time.
  destruct s as [|h1 [|h2 [|c1 [|m1 [|m2 [|c2 [|s1 [|s2 [|c3 [|f1 [|f2 [|f3 [|x s]]]]]]]]]]]]];
    try discriminate.
  intros H. apply andb_true_iff in H as [H H3]. apply andb_true_iff in H as [H H2].
  apply andb_true_iff in H as [H H1]. apply Z.eqb_eq in H1, H2, H3. subst.
  exists h1, h2, m1, m2, s1, s2, f1, f2, f3. auto.
Qed.

Lemma srt_head_digit T rest :
  is_srt_time T = true -> head_is is_ascii_digit (T ++ rest) = true.
Proof.
  intros H. destruct (srt_time_shape T H) as (h1 & h2 & m1 & m2 & s1 & s2 & f1 & f2 & f3 & -> & Hd).
  cbn [forallb] in Hd. apply andb_true_iff in Hd as [Hd _]. exact Hd.
Qed.

Lemma heads_timecode prev T rest :
  is_srt_time T = true -> heads (Re.run TIMECODE prev (T ++ rest)) rest.
Proof.
  intros H. destruct (srt_time_shape T H) as (h1 & h2 & m1 & m2 & s1 & s2 & f1 & f2 & f3 & -> & Hd).
  apply (forallb_impl _ is_digit _ ascii_digit_is_digit) in Hd. cbn [forallb] in Hd.
  repeat (apply andb_true_iff in Hd as [? Hd]). clear Hd.
  cbn [app]. unfold TIMECODE, D2, D1_3, Re.Chr.
  eapply heads_seq; [eapply heads_seq; [now apply heads_cls | intros; now apply heads_cls]|intros].
  eapply heads_seq; [now apply heads_cls | intros].
  eapply heads_seq; [eapply heads_seq; [now apply heads_cls | intros; now apply heads_cls]|intros].
  eapply heads_seq; [now apply heads_cls | intros].
  eapply heads_seq; [eapply heads_seq; [now apply heads_cls | intros; now apply heads_cls]|intros].
  eapply heads_seq; [now apply heads_cls | intros].
  eapply heads_seq; [now apply heads_cls | intros]. unfold Re.Opt at 1.
  apply heads_alt_l.
  eapply heads_seq; [now apply heads_cls | intros]. now apply heads_opt_cls.
Qed.

(** The header pattern after its first alternative, on the white space
    before a header and the header: the index line, the line of the two
    timecodes, up to its newline. *)
Lemma heads_header_tail A B prev nls idx T1 T2 rest :
  header_pattern = Re.Seq A B ->
  forallb is_space nls = true ->
  idx <> [] -> forallb is_ascii_digit idx = true ->
  is_srt_time T1 = true -> is_srt_time T2 = true ->
  heads (Re.run B prev (nls ++ idx ++ 0x0A :: T1 ++ lit " --> " ++ T2 ++ 0x0A :: rest))
        rest.
Proof.
  intros E Hn Hne Hidx H1 H2. unfold header_pattern in E. injection E as _ <-.
  destruct idx as [|c m]; [congruence|]. cbn [forallb] in Hidx.
  apply andb_true_iff in Hidx as [Hc Hm].
  eapply heads_seq.
  { apply heads_star; [exact Hn|]. cbn [app]. now rewrite (ascii_digit_not_space c Hc). }
  intros p1. cbn [app]. eapply heads_seq.
  { apply heads_plus; [now apply ascii_digit_is_digit | | reflexivity].
    exact (forallb_impl _ _ _ ascii_digit_is_digit Hm). }
  intros p2. apply heads_space_newline; [now apply srt_head_digit|].
  intros p3. eapply heads_seq.
  { apply (heads_star is_space p3 []); [reflexivity|].
    apply head_digit_not_space. now apply srt_head_digit. }
  intros p4. eapply heads_seq; [now apply heads_timecode|].
  intros p5. change (lit " --> ") with ([0x20] ++ 0x2D :: [0x2D; 0x3E] ++ [0x20]).
  rewrite <- !app_assoc. eapply heads_seq.
  { apply heads_star; reflexivity. }
  intros p6. eapply heads_seq.
  { cbn [app]. apply (heads_plus is_arrow p6 0x2D [0x2D; 0x3E]); reflexivity. }
  intros p7. eapply heads_seq.
  { apply (heads_star is_space p7 [0x20]); [reflexivity|].
    apply head_digit_not_space. now apply srt_head_digit. }
  intros p8. eapply heads_seq; [now apply heads_timecode|].
  intros p9. eapply heads_seq; [apply heads_star_lazy|].
  intros p10. apply heads_alt_l. unfold Re.Chr. now apply heads_cls.
Qed.

(** A header at the start of the stream or of a line. *)
Lemma heads_header_at_line prev idx T1 T2 rest :
  Re.at_bol true prev = true ->
  idx <> [] -> forallb is_ascii_digit idx = true ->
  is_srt_time T1 = true -> is_srt_time T2 = true ->
  heads (Re.run header_pattern prev
           (idx ++ 0x0A :: T1 ++ lit " --> " ++ T2 ++ 0x0A :: rest)) rest.
Proof.
  intros Hb Hne Hidx H1 H2.
  assert (E : exists A B, header_pattern = Re.Seq A B) by (unfold header_pattern; eauto).
  destruct E as (A & B & E).
  pose proof (fun p => heads_header_tail A B p [] idx T1 T2 rest E eq_refl Hne Hidx H1 H2) as Ht.
  cbn [app] in Ht. rewrite E. eapply heads_seq; [|exact Ht].
  unfold header_pattern in E. injection E as <- _.
  apply heads_alt_l. cbn [Re.run]. rewrite Hb. unfold heads. eauto.
Qed.

(** A header after the end of a line that is not empty: the match starts
    at the newline that ends the line. *)
Lemma heads_header_at_newline x nls idx T1 T2 rest :
  eqc x 0x0A = false -> forallb is_space nls = true ->
  idx <> [] -> forallb is_ascii_digit idx = true ->
  is_srt_time T1 = true -> is_srt_time T2 = true ->
  heads (Re.run header_pattern (Some x)
           (0x0A :: nls ++ idx ++ 0x0A :: T1 ++ lit " --> " ++ T2 ++ 0x0A :: rest)) rest.
Proof.
  intros Hx Hn Hne Hidx H1 H2.
  assert (E : exists A B, header_pattern = Re.Seq A B) by (unfold header_pattern; eauto).
  destruct E as (A & B & E).
  pose proof (fun p => heads_header_tail A B p nls idx T1 T2 rest E Hn Hne Hidx H1 H2) as Ht.
  rewrite E. eapply heads_seq; [|exact Ht].
  unfold header_pattern in E. injection E as <- _.
  apply heads_alt_r.
  - cbn [Re.run Re.at_bol andb]. now rewrite Hx.
  - unfold Re.Chr. now apply heads_cls.
Qed.

End HeaderMatch.

Section StreamPieces.

Import StreamSpec.

Import AssDocument ReSpec.

Lemma pieces_hit r prev c m rest :
  heads (Re.run r prev (c :: m ++ rest)) rest ->
  Re.pieces r prev (c :: m ++ rest) 0
  = Re.Hit (c :: m) :: Re.pieces r (prev_after (Some c) m) rest 0.
Proof.
  intros (q & tl & H).
  pose proof (matched_app (c :: m) rest q) as Hm. cbn [app] in Hm.
  pose proof (pieces_skip r m (Some c) rest) as Hk.
  cbn [Re.pieces]. cbv delta [str char] in *. rewrite H. cbn [map]. rewrite Hm.
  cbn [length]. replace (S (length m) - 1)%nat with (length m) by lia.
  now rewrite Hk.
Qed.

Lemma run_header_inside prev c s :
  Re.at_bol true prev = false \/ (is_space c = false /\ is_digit c = false) ->
  eqc 0x0A c = false ->
  Re.run header_pattern prev (c :: s) = [].
Proof.
  intros H Hc. unfold header_pattern. apply run_seq_nil. intros q Hq.
  cbn [Re.run Re.Chr] in Hq. rewrite Hc, app_nil_r in Hq.
  destruct (Re.at_bol true prev); [|destruct Hq].
  destruct Hq as [<-|[]]. cbn [fst snd].
  destruct H as [H|[Hs Hd]]; [discriminate|].
  apply run_seq_nil. intros q Hq. cbn [Re.run Re.star] in Hq. rewrite Hs in Hq.
  destruct Hq as [<-|[]]. cbn [fst snd].
  apply run_seq_nil. intros q Hq. exfalso. unfold Re.Plus in Hq.
  cbn [Re.run] in Hq. rewrite Hd in Hq. exact Hq.
Qed.

Lemma dot_not_newline c : Re.dot c = true -> eqc 0x0A c = false /\ eqc c 0x0A = false.
Proof.
  unfold Re.dot, eqc. intros H. apply negb_true_iff in H. split; [|exact H].
  now rewrite Z.eqb_sym.
Qed.

(** No header starts inside a line, nor at the start of a line whose
    first character is neither white space nor a digit. *)
Lemma pieces_line P : forall prev rest,
  forallb Re.dot P = true ->
  Re.at_bol true prev = false
  \/ head_is (fun c => negb (is_space c) && negb (is_digit c)) P = true ->
  Re.pieces header_pattern prev (P ++ rest) 0
  = map Re.Lit P ++ Re.pieces header_pattern (prev_after prev P) rest 0.
Proof.
  induction P as [|c P IH]; intros prev rest Hd Hp; [reflexivity|].
  cbn [forallb] in Hd. apply andb_true_iff in Hd as [Hc Hd].
  destruct (dot_not_newline c Hc) as [Hc1 Hc2].
  cbn [app Re.pieces]. rewrite run_header_inside; [|  |exact Hc1].
  - cbn [map app prev_after fold_left]. f_equal. apply IH; [exact Hd|].
    left. cbn [Re.at_bol andb]. exact Hc2.
  - destruct Hp as [Hp|Hp]; [now left|]. right. cbn [head_is] in Hp.
    apply andb_true_iff in Hp as [H1 H2]. now apply negb_true_iff in H1, H2.
Qed.

Lemma prev_after_snoc prev m x : prev_after prev (m ++ [x]) = Some x.
Proof. unfold prev_after. now rewrite fold_left_app. Qed.

Lemma prev_after_line P : forall prev,
  P <> [] -> forallb Re.dot P = true ->
  exists y, prev_after prev P = Some y /\ eqc y 0x0A = false.
Proof.
  induction P as [|c P IH]; intros prev Hne Hd; [congruence|].
  cbn [forallb] in Hd. apply andb_true_iff in Hd as [Hc Hd].
  destruct P as [|d P].
  - exists c. split; [reflexivity|]. now apply dot_not_newline.
  - apply (IH (Some c)); [discriminate | exact Hd].
Qed.

Lemma good_prompt_parts P :
  good_prompt P = true ->
  head_is (fun c => negb (is_space c) && negb (is_digit c)) P = true
  /\ head_is (fun c => negb (is_space c)) (rev P) = true
  /\ forallb Re.dot P = true /\ P <> [].
Proof.
  unfold good_prompt. intros H. apply andb_true_iff in H as [H H3].
  apply andb_true_iff in H as [H1 H2]. repeat split; auto.
  destruct P; [discriminate | discriminate].
Qed.

Lemma pieces_tail bs : forall P,
  good_prompt P = true -> Forall good_block bs ->
  Re.pieces header_pattern (Some 0x0A) (P ++ NL4 ++ stream_of bs) 0 = tail_pieces P bs.
Proof.
  induction bs as [|[H P'] bs IH]; intros P HP Hbs.
  - destruct (good_prompt_parts P HP) as (H1 & _ & H3 & _).
    cbn [stream_of flat_map tail_pieces]. rewrite app_nil_r.
    rewrite pieces_line by auto. f_equal. now apply pieces_header_digitless.
  - destruct (good_prompt_parts P HP) as (H1 & _ & H3 & Hne).
    inversion Hbs as [|b bs' [Hh HP'] Hbs']. subst. cbn [fst snd] in Hh, HP'.
    destruct Hh as (idx & T1 & T2 & Hi & Hidx & HT1 & HT2 & ->).
    cbn [tail_pieces stream_of flat_map fst snd]. fold (stream_of bs).
    rewrite pieces_line by auto. f_equal.
    destruct (prev_after_line P (Some 0x0A) Hne H3) as (y & -> & Hy).
    set (rest := P' ++ NL4 ++ stream_of bs).
    set (m := [0x0A; 0x0A; 0x0A] ++ idx ++ 0x0A :: T1 ++ lit " --> " ++ T2 ++ [0x0A]).
    assert (E1 : NL4 ++ ((idx ++ 0x0A :: T1 ++ lit " --> " ++ T2 ++ [0x0A]) ++ P' ++ NL4)
                 ++ stream_of bs = 0x0A :: m ++ rest).
    { unfold m, rest, NL4. cbn [app]. repeat (rewrite <- app_assoc; cbn [app]).
      reflexivity. }
    assert (E2 : NL4 ++ idx ++ 0x0A :: T1 ++ lit " --> " ++ T2 ++ [0x0A] = 0x0A :: m)
      by reflexivity.
    rewrite E1, E2. rewrite pieces_hit.
    + f_equal.
      assert (Em : m = ([0x0A; 0x0A; 0x0A] ++ idx ++ 0x0A :: T1 ++ lit " --> " ++ T2)
                       ++ [0x0A]).
      { unfold m. cbn [app]. repeat (rewrite <- app_assoc; cbn [app]). reflexivity. }
      rewrite Em, prev_after_snoc. unfold rest. now apply IH.
    + assert (E3 : 0x0A :: m ++ rest
                   = 0x0A :: [0x0A; 0x0A; 0x0A] ++ idx ++ 0x0A :: T1 ++ lit " --> "
                     ++ T2 ++ 0x0A :: rest).
      { unfold m. cbn [app]. repeat (rewrite <- app_assoc; cbn [app]). reflexivity. }
      cbv delta [str char] in *. rewrite E3. now apply heads_header_at_newline.
Qed.

Lemma pieces_stream H P bs :
  good_block (H, P) -> Forall good_block bs ->
  Re.pieces header_pattern None (stream_of ((H, P) :: bs)) 0
  = Re.Hit H :: tail_pieces P bs.
Proof.
  intros [Hh HP] Hbs. cbn [fst snd] in Hh, HP.
  destruct Hh as (idx & T1 & T2 & Hi & Hidx & HT1 & HT2 & ->).
  destruct idx as [|c idx]; [congruence|].
  cbn [stream_of flat_map fst snd]. fold (stream_of bs).
  set (rest := P ++ NL4 ++ stream_of bs).
  set (m := idx ++ 0x0A :: T1 ++ lit " --> " ++ T2 ++ [0x0A]).
  assert (E1 : (((c :: idx) ++ 0x0A :: T1 ++ lit " --> " ++ T2 ++ [0x0A]) ++ P ++ NL4)
               ++ stream_of bs = c :: m ++ rest).
  { unfold m, rest. cbn [app]. repeat (rewrite <- app_assoc; cbn [app]). reflexivity. }
  assert (E2 : (c :: idx) ++ 0x0A :: T1 ++ lit " --> " ++ T2 ++ [0x0A] = c :: m)
    by reflexivity.
  rewrite E1, E2. rewrite pieces_hit.
  - f_equal.
    assert (Em : m = (idx ++ 0x0A :: T1 ++ lit " --> " ++ T2) ++ [0x0A]).
    { unfold m. cbn [app]. repeat (rewrite <- app_assoc; cbn [app]). reflexivity. }
    rewrite Em, prev_after_snoc. unfold rest. now apply pieces_tail.
  - assert (E3 : c :: m ++ rest
                 = (c :: idx) ++ 0x0A :: T1 ++ lit " --> " ++ T2 ++ 0x0A :: rest).
    { unfold m. cbn [app]. repeat (rewrite <- app_assoc; cbn [app]). reflexivity. }
    cbv delta [str char] in *. rewrite E3. now apply heads_header_at_line.
Qed.

Lemma split_pieces_lits P ps : forall cur,
  Re.split_pieces (map Re.Lit P ++ ps) cur = Re.split_pieces ps (rev P ++ cur).
Proof.
  induction P as [|c P IH]; intros cur; [reflexivity|].
  cbn [map app Re.split_pieces rev]. rewrite IH. now rewrite <- app_assoc.
Qed.

Lemma split_tail bs : forall P,
  Re.split_pieces (tail_pieces P bs) [] = segments_of P bs.
Proof.
  induction bs as [|b bs IH]; intros P; cbn [tail_pieces segments_of].
  - rewrite <- map_app. now rewrite split_pieces_literals.
  - rewrite split_pieces_lits. cbn [Re.split_pieces]. rewrite app_nil_r, rev_involutive.
    now rewrite IH.
Qed.

Lemma lstrip_plain (p : char -> bool) s :
  (forall c, p c = true -> is_space c = false) -> head_is p s = true -> lstrip s = s.
Proof.
  intros Hp. destruct s as [|c s]; [reflexivity|]. cbn [head_is lstrip]. intros H.
  now rewrite (Hp c H).
Qed.

Lemma strip_good_prompt P :
  good_prompt P = true -> strip P = P /\ strip (P ++ NL4) = P.
Proof.
  intros HP. destruct (good_prompt_parts P HP) as (H1 & H2 & _ & Hne).
  assert (L1 : lstrip P = P).
  { apply (lstrip_plain _ P) in H1; [exact H1|]. intros c Hc.
    apply andb_true_iff in Hc as [Hc _]. now apply negb_true_iff in Hc. }
  assert (L2 : lstrip (rev P) = rev P).
  { apply (lstrip_plain _ (rev P)) in H2; [exact H2|]. intros c Hc.
    now apply negb_true_iff in Hc. }
  assert (L3 : lstrip (P ++ NL4) = P ++ NL4).
  { destruct P as [|c P]; [congruence|]. cbn [head_is] in H1.
    apply andb_true_iff in H1 as [Hs _]. apply negb_true_iff in Hs.
    cbn [app lstrip]. now rewrite Hs. }
  unfold strip, rstrip. rewrite L1, L2, rev_involutive. split; [reflexivity|].
  rewrite L3, rev_app_distr. cbn [NL4 rev app lstrip].
  change (is_space 10) with true. cbv iota. now rewrite L2, rev_involutive.
Qed.

Lemma strip_segments bs : forall P,
  good_prompt P = true -> Forall good_block bs ->
  map strip (segments_of P bs) = P :: map snd bs.
Proof.
  induction bs as [|b bs IH]; intros P HP Hbs; cbn [segments_of map].
  - now destruct (strip_good_prompt P HP) as [_ ->].
  - inversion Hbs as [|b' bs' [_ Hb] Hbs']. subst.
    destruct (strip_good_prompt P HP) as [-> _]. f_equal. now apply IH.
Qed.

(** The units [save] cuts out of a stream of well-formed blocks are the
    prompt texts of the blocks. *)
Lemma translated_units_stream bs :
  Forall good_block bs -> translated_units (stream_of bs) = map snd bs.
Proof.
  intros Hbs. destruct bs as [|[H P] bs]; [reflexivity|].
  inversion Hbs as [|b bs' Hb Hbs']. subst.
  unfold translated_units, Re.split. cbv zeta.
  rewrite (pieces_stream H P bs Hb Hbs'). cbn [Re.split_pieces rev].
  rewrite split_tail. cbn [length tl].
  assert (Hl : (1 <? S (length (segments_of P bs)))%nat = true).
  { apply Nat.ltb_lt. destruct bs; cbn; lia. }
  rewrite Hl. destruct Hb as [_ HP]. cbn [map snd]. now apply strip_segments.
Qed.

End StreamPieces.

Section RoundTrip.

Import AssDocument AssSpec HintSpec OrderSpec ReSpec StreamSpec RoundSpec.

(** *** What [load] stores and returns *)

Lemma pseudo_block_parts i line :
  pseudo_srt_block i (fields line) = ev_head i line ++ ev_prompt line ++ NL2.
Proof.
  unfold pseudo_srt_block, ev_head, ev_prompt, ev_start, ev_end, ev_actor, ev_style,
    ev_text, NL2. cbv zeta.
  cbn [app]. repeat (rewrite <- app_assoc; cbn [app]). reflexivity.
Qed.

Lemma load_line_event st line0 :
  let line := clean_line line0 in
  let ev := if negb (startswith line (lit "[Events]"))
               && is_events st && parsed_dialogue line
            then [line] else [] in
  event_templates (self (load_line st line0))
  = event_templates (self st) ++ map ev_prefix ev
  /\ items (load_line st line0)
     = items st ++ map block_item (map (fun l => (ev_head (event_idx st) l, ev_prompt l)) ev)
  /\ event_idx (load_line st line0) = (event_idx st + length ev)%nat
  /\ is_events (load_line st line0)
     = (is_events st || startswith line (lit "[Events]")).
Proof.
  cbv zeta. unfold load_line. cbv zeta.
  change (if startswith (strip line0) [0xFEFF] then tl (strip line0) else strip line0)
    with (clean_line line0).
  generalize (clean_line line0). intros line. unfold parsed_dialogue.
  destruct (Re.nonempty line) eqn:Hne; cbn [negb].
  - destruct (startswith line (lit "[Events]")) eqn:Hev; cbn [negb andb].
    + unfold append_header, enter_events.
      cbn [self event_templates items event_idx is_events map length].
      rewrite !app_nil_r, orb_true_r, Nat.add_0_r. auto.
    + rewrite orb_false_r. destruct (is_events st) eqn:His; cbn [andb].
      * destruct (startswith line (lit "Format:")) eqn:Hf.
        -- rewrite (startswith_format_not_dialogue _ Hf). cbn [andb].
           unfold append_header, set_events_header.
           cbn [self event_templates items event_idx is_events map length].
           rewrite !app_nil_r, Nat.add_0_r. auto.
        -- destruct (startswith line (lit "Dialogue:")); cbn [andb].
           ++ destruct (length (split line (lit ",") (Some 9%nat)) <? 10)%nat eqn:Hl.
              ** replace (10 <=? _)%nat with false
                   by (symmetry; apply Nat.leb_gt; now apply Nat.ltb_lt).
                 unfold append_header.
                 cbn [self event_templates items event_idx is_events map length].
                 rewrite !app_nil_r, Nat.add_0_r. auto.
              ** replace (10 <=? _)%nat with true
                   by (symmetry; apply Nat.leb_le; now apply Nat.ltb_ge).
                 unfold append_event.
                 cbn [self event_templates items event_idx is_events map length].
                 unfold block_item. cbn [fst snd].
                 rewrite <- pseudo_block_parts. unfold ev_prefix, fields.
                 repeat split; auto. lia.
           ++ unfold append_header.
              cbn [self event_templates items event_idx is_events map length].
              rewrite !app_nil_r, Nat.add_0_r. auto.
      * unfold append_header.
        cbn [self event_templates items event_idx is_events map length].
        rewrite !app_nil_r, Nat.add_0_r. auto.
  - assert (Hev : startswith line (lit "[Events]") = false).
    { destruct (startswith line (lit "[Events]")) eqn:E; [|reflexivity].
      apply startswith_nonempty in E; [congruence | reflexivity]. }
    rewrite Hev. cbn [negb andb]. rewrite orb_false_r.
    assert (Hd : startswith line (lit "Dialogue:") = false).
    { destruct (startswith line (lit "Dialogue:")) eqn:E; [|reflexivity].
      apply startswith_nonempty in E; [congruence | reflexivity]. }
    rewrite Hd. rewrite andb_false_r. cbn [andb].
    unfold append_header.
    cbn [self event_templates items event_idx is_events map length].
    rewrite !app_nil_r, Nat.add_0_r. auto.
Qed.

Lemma load_fold_events lines : forall st,
  let st' := fold_left load_line lines st in
  let evs := event_lines_of (is_events st) lines in
  event_templates (self st') = event_templates (self st) ++ map ev_prefix evs
  /\ items st' = items st ++ map block_item (blocks_from (event_idx st) evs).
Proof.
  induction lines as [|l ls IH]; intros st; cbv zeta.
  - cbn. now rewrite !app_nil_r.
  - cbn [fold_left event_lines_of].
    destruct (load_line_event st l) as (H1 & H2 & H3 & H4). cbv zeta in *.
    destruct (IH (load_line st l)) as (I1 & I2). cbv zeta in *.
    rewrite I1, I2, H1, H2, H3, H4.
    destruct (startswith (clean_line l) (lit "[Events]")) eqn:E; cbn [negb andb].
    + cbn [map length]. rewrite !app_nil_r, orb_true_r, Nat.add_0_r. auto.
    + rewrite orb_false_r.
      destruct (is_events st && parsed_dialogue (clean_line l)); cbn [map length blocks_from].
      * rewrite <- !app_assoc. cbn [app].
        replace (event_idx st + 1)%nat with (S (event_idx st)) by lia. auto.
      * rewrite !app_nil_r, Nat.add_0_r. auto.
Qed.

Lemma event_lines_of_parsed lines : forall b,
  Forall (fun l => parsed_dialogue l = true) (event_lines_of b lines).
Proof.
  induction lines as [|l ls IH]; intros b; cbn [event_lines_of]; [constructor|].
  destruct (startswith (clean_line l) (lit "[Events]")); [apply IH|].
  destruct (b && parsed_dialogue (clean_line l)) eqn:E; [|apply IH].
  constructor; [|apply IH]. now apply andb_true_iff in E.
Qed.

(** X7. The template prefixes [load] appends to [event_templates] are one
    for each event line, in order, and each of them followed by the text
    field, the tenth field of the bounded split, is the event line itself:
    the commas of the text stay in the text. *)
Theorem load_prefix_and_text_make_line (self0 : t) (lines : list str) :
  exists stored,
    event_templates (fst (load self0 lines)) = event_templates self0 ++ stored
    /\ Forall2 (fun prefix line =>
                  prefix ++ nth 9 (split line (lit ",") (Some 9%nat)) [] = line)
               stored (event_lines_of false lines).
Proof.
  exists (map ev_prefix (event_lines_of false lines)). split.
  - unfold load. cbn [fst event_templates].
    exact (proj1 (load_fold_events lines
                    {| self := self0; items := []; is_events := false; event_idx := 1 |})).
  - pose proof (event_lines_of_parsed lines false) as Hp.
    induction Hp as [|l ls Hl Hls IH]; cbn [map]; constructor; [|exact IH].
    apply andb_true_iff in Hl as [_ Hl]. apply Nat.leb_le in Hl.
    exact (prefix_and_text l Hl).
Qed.

Lemma load_prefix_and_text_make_line_witness :
  let line := lit "Dialogue: 0,0:00:01.00,0:00:02.00,Default,,0,0,0,,Yes, no, maybe" in
  let self1 := fst (load (init []) [lit "[Events]" ++ [0x0A]; line ++ [0x0A]]) in
  event_templates self1 = [lit "Dialogue: 0,0:00:01.00,0:00:02.00,Default,,0,0,0,,"]
  /\ nth 9 (split line (lit ",") (Some 9%nat)) [] = lit "Yes, no, maybe"
  /\ Forall (fun prefix => prefix ++ lit "Yes, no, maybe" = line) (event_templates self1).
Proof.
  cbv zeta. split; [reflexivity|]. split; [reflexivity|].
  destruct (load_prefix_and_text_make_line (init [])
              [lit "[Events]" ++ [0x0A];
               lit "Dialogue: 0,0:00:01.00,0:00:02.00,Default,,0,0,0,,Yes, no, maybe"
               ++ [0x0A]]) as (stored & E & F).
  cbn [init event_templates app] in E. rewrite E.
  change (event_lines_of false _)
    with [lit "Dialogue: 0,0:00:01.00,0:00:02.00,Default,,0,0,0,,Yes, no, maybe"] in F.
  inversion F as [|prefix l stored' ls' Hpl HF' E1 E2]; subst.
  inversion HF'; subst. constructor; [exact Hpl | constructor].
Defined.

(** *** The stream of the identity transformer *)

Lemma nonempty_app_cons (a : str) x b : Re.nonempty (a ++ x :: b) = true.
Proof. now destruct a. Qed.

Lemma collect_blocks bs : forall acc,
  Forall (fun b => Re.nonempty (fst b) = true) bs ->
  fold_left (fun full_stream b =>
               if Re.nonempty (content b) then full_stream ++ content b ++ NL2
               else full_stream)
            (identity_blocks (map block_item bs)) acc
  = acc ++ stream_of bs.
Proof.
  induction bs as [|b bs IH]; intros acc H.
  - cbn. now rewrite app_nil_r.
  - inversion H as [|b' bs' Hb Hbs]. subst.
    cbn [map identity_blocks fold_left block_item text content dst prompt_text].
    assert (Hn : Re.nonempty (fst b ++ snd b ++ NL2) = true).
    { destruct (fst b); [discriminate | reflexivity]. }
    unfold identity_blocks in IH. rewrite Hn, IH by exact Hbs.
    cbn [stream_of flat_map]. unfold NL2, NL4.
    repeat (rewrite <- app_assoc; cbn [app]). reflexivity.
Qed.

Lemma blocks_from_heads ls : forall i,
  Forall (fun b => Re.nonempty (fst b) = true) (blocks_from i ls).
Proof.
  induction ls as [|l ls IH]; intros i; cbn [blocks_from]; constructor; [|apply IH].
  cbn [fst]. unfold ev_head. apply nonempty_app_cons.
Qed.

Lemma blocks_from_prompts ls : forall i, map snd (blocks_from i ls) = map ev_prompt ls.
Proof.
  induction ls as [|l ls IH]; intros i; cbn [blocks_from map snd]; [reflexivity|].
  now rewrite IH.
Qed.

(** *** Text without a backslash *)

Lemma replace_go_absent a old new s : forall k,
  (k = 0)%nat -> char_in a s = false -> replace_go (a :: old) new s k = s.
Proof.
  unfold char_in. induction s as [|x s IH]; intros k -> H; [reflexivity|].
  cbn [existsb] in H. apply orb_false_iff in H as [Hx H].
  cbn [replace_go startswith]. unfold eqc in *. rewrite Z.eqb_sym, Hx. cbn [andb].
  f_equal. now apply IH.
Qed.

Lemma replace_absent a old new s :
  char_in a s = false -> replace s (a :: old) new = s.
Proof. intros H. unfold replace. now apply replace_go_absent. Qed.

Lemma normalize_plain s : char_in 0x5C s = false -> normalize s = s.
Proof.
  intros H. unfold normalize, BACKSLASH_N, BACKSLASH_n.
  pose proof (replace_absent 0x5C [0x4E] [0x0A] s H) as E.
  cbv delta [str char] in *. rewrite E. now apply replace_absent.
Qed.

Lemma contains_absent a sub s : char_in a s = false -> contains s (a :: sub) = false.
Proof.
  unfold char_in. induction s as [|x s IH]; intros H; [reflexivity|].
  cbn [existsb] in H. apply orb_false_iff in H as [Hx H].
  cbn [contains startswith]. unfold eqc in *. rewrite Z.eqb_sym, Hx. cbn [andb orb].
  now apply IH.
Qed.

Lemma dedup_plain s : char_in 0x5C s = false -> dedup s = s.
Proof.
  intros H. unfold dedup.
  assert (E : forall fuel, dedup_loop fuel s = Some s).
  { intros fuel. destruct fuel; cbn [dedup_loop BACKSLASH_N app];
      now rewrite (contains_absent 0x5C _ s H). }
  now rewrite E.
Qed.

Lemma run_karaoke_plain prev s : char_in 0x5C s = false -> Re.run KARAOKE prev s = [].
Proof.
  intros H. unfold KARAOKE. apply run_seq_nil. intros q Hq.
  unfold Re.Chr in Hq. cbn [Re.run] in Hq.
  destruct s as [|c s]; [destruct Hq|]. destruct (eqc 123 c); [|destruct Hq].
  destruct Hq as [<-|[]]. cbn [fst snd].
  apply run_seq_nil. intros q Hq. exfalso. unfold Re.Chr in Hq. cbn [Re.run] in Hq.
  unfold char_in in H. cbn [existsb] in H. apply orb_false_iff in H as [_ H].
  destruct s as [|d s]; [exact Hq|]. cbn [existsb] in H.
  apply orb_false_iff in H as [Hd _]. rewrite Hd in Hq. exact Hq.
Qed.

Lemma sub_karaoke_plain s :
  char_in 0x5C s = false -> Re.sub KARAOKE (fun _ _ => []) s = s.
Proof.
  intros H. unfold Re.sub.
  assert (E : forall prev, Re.pieces KARAOKE prev s 0 = map Re.Lit s).
  { induction s as [|c s IH]; intros prev.
    - cbn [Re.pieces]. now rewrite run_karaoke_plain.
    - cbn [Re.pieces]. rewrite (run_karaoke_plain prev (c :: s) H). cbn [map].
      rewrite IH; [reflexivity|]. unfold char_in in *. cbn [existsb] in H.
      now apply orb_false_iff in H. }
  rewrite E. apply sub_literals.
Qed.

(** *** One plain event *)

Lemma plain_event_facts line : plain_event line = true -> plain_facts line.
Proof.
  unfold plain_event, plain_text, no_backslash. intros H.
  repeat match goal with
         | X : _ && _ = true |- _ => apply andb_true_iff in X as [? ?]
         end.
  repeat match goal with
         | X : negb _ = true |- _ => apply negb_true_iff in X
         end.
  constructor; assumption.
Qed.

Lemma head_is_impl (p q : char -> bool) s :
  (forall c, p c = true -> q c = true) -> head_is p s = true -> head_is q s = true.
Proof. intros H. destruct s as [|c s]; [discriminate|]. cbn [head_is]. apply H. Qed.

Lemma head_is_app (p : char -> bool) a b :
  head_is p a = true -> head_is p (a ++ b) = true.
Proof. now destruct a. Qed.

Lemma one_line_no_newline s : one_line s = true -> char_in 0x0A s = false.
Proof.
  unfold one_line, char_in. induction s as [|c s IH]; [reflexivity|].
  cbn [forallb existsb]. intros H. apply andb_true_iff in H as [Hc H].
  destruct (dot_not_newline c Hc) as [-> _]. now apply IH.
Qed.

Lemma plain_text_good line : plain_facts line -> good_prompt (ev_text line) = true.
Proof.
  intros F. unfold good_prompt.
  rewrite (head_is_impl _ (fun c => negb (is_space c) && negb (is_digit c)) _
             (fun c H => proj1 (proj1 (andb_true_iff _ _) H)) (pf_head line F)).
  rewrite (pf_last line F). exact (pf_line line F).
Qed.

Lemma prompt_of_plain line :
  plain_facts line ->
  ev_prompt line = final_prompt_text (ev_actor line) (ev_style line) (ev_text line).
Proof. intros F. unfold ev_prompt. now rewrite (sub_karaoke_plain _ (pf_bs line F)). Qed.

(** The prompt text is the text, or the text after an injected prefix. *)
Lemma final_prompt_shape a s t :
  (Re.nonempty a && negb (contains t a) || is_meaningful_style s t = false
   /\ final_prompt_text a s t = t)
  \/ (Re.nonempty a && negb (contains t a) || is_meaningful_style s t = true
      /\ exists pre,
           final_prompt_text a s t = pre ++ 0x20 :: t
           /\ (pre = 0x5B :: a ++ [0x5D]
               \/ pre = 0x5B :: a ++ 0x5D :: 0x28 :: s ++ [0x29]
               \/ pre = 0x28 :: s ++ [0x29])).
Proof.
  unfold final_prompt_text. cbv zeta.
  change (lit "[") with [0x5B]. change (lit "]") with [0x5D].
  change (lit "(") with [0x28]. change (lit ")") with [0x29].
  change (lit " ") with [0x20].
  destruct (Re.nonempty a && negb (contains t a));
    destruct (is_meaningful_style s t); cbn [orb app Re.nonempty].
  - right. split; [reflexivity|]. exists (0x5B :: a ++ 0x5D :: 0x28 :: s ++ [0x29]).
    split; [|auto]. cbn [app]. repeat (rewrite <- app_assoc; cbn [app]). reflexivity.
  - right. split; [reflexivity|]. exists (0x5B :: a ++ [0x5D]).
    split; [|auto]. cbn [app]. repeat (rewrite <- app_assoc; cbn [app]). reflexivity.
  - right. split; [reflexivity|]. exists (0x28 :: s ++ [0x29]).
    split; [|auto]. cbn [app]. repeat (rewrite <- app_assoc; cbn [app]). reflexivity.
  - left. auto.
Qed.

Lemma prefix_facts a s pre :
  one_line a = true -> one_line s = true ->
  char_in 0x5C a = false -> char_in 0x5C s = false ->
  pre = 0x5B :: a ++ [0x5D]
  \/ pre = 0x5B :: a ++ 0x5D :: 0x28 :: s ++ [0x29]
  \/ pre = 0x28 :: s ++ [0x29] ->
  head_is (fun c => negb (is_space c) && negb (is_digit c)) pre = true
  /\ forallb Re.dot pre = true /\ char_in 0x5C pre = false.
Proof.
  unfold one_line, char_in. intros Ha Hs Hab Hsb [ -> | [ -> | -> ] ];
    (split; [reflexivity|]);
    cbn [forallb existsb]; rewrite ?forallb_app, ?existsb_app;
    cbn [forallb existsb]; rewrite ?forallb_app, ?existsb_app;
    cbn [forallb existsb]; rewrite ?Ha, ?Hs, ?Hab, ?Hsb; split; reflexivity.
Qed.

Lemma good_prompt_event line : plain_facts line -> good_prompt (ev_prompt line) = true.
Proof.
  intros F. rewrite (prompt_of_plain line F).
  destruct (final_prompt_shape (ev_actor line) (ev_style line) (ev_text line))
    as [[_ E]|[_ [pre [E Hpre]]]]; rewrite E; [now apply plain_text_good|].
  destruct (prefix_facts _ _ pre (pf_actor_line line F) (pf_style_line line F)
              (pf_actor_bs line F) (pf_style_bs line F) Hpre) as (H1 & H2 & _).
  unfold good_prompt. rewrite (head_is_app _ pre _ H1).
  rewrite rev_app_distr. cbn [rev]. rewrite <- app_assoc.
  rewrite (head_is_app _ (rev (ev_text line)) _ (pf_last line F)).
  pose proof (pf_line line F) as H3. unfold one_line in H3.
  cbv delta [str char] in *. rewrite forallb_app, H2. cbn [forallb andb]. exact H3.
Qed.

Lemma forallb_existsb_false {A} (p q : A -> bool) l :
  (forall x, p x = true -> q x = false) -> forallb p l = true -> existsb q l = false.
Proof.
  intros H. induction l as [|x l IH]; [reflexivity|]. cbn [forallb existsb].
  intros E. apply andb_true_iff in E as [E1 E2]. now rewrite (H x E1), IH.
Qed.

Lemma srt_no_backslash T : is_srt_time T = true -> char_in 0x5C T = false.
Proof.
  intros H.
  destruct (srt_time_shape T H) as (h1 & h2 & m1 & m2 & s1 & s2 & f1 & f2 & f3 & -> & Hd).
  cbn [forallb] in Hd. repeat (apply andb_true_iff in Hd as [? Hd]). clear Hd.
  unfold char_in. cbn [existsb].
  repeat match goal with
         | X : is_ascii_digit ?c = true |- _ =>
             rewrite (ascii_digit_not_backslash c X); clear X
         end.
  reflexivity.
Qed.

Lemma prompt_no_backslash line : plain_facts line -> char_in 0x5C (ev_prompt line) = false.
Proof.
  intros F. rewrite (prompt_of_plain line F).
  destruct (final_prompt_shape (ev_actor line) (ev_style line) (ev_text line))
    as [[_ E]|[_ [pre [E Hpre]]]]; rewrite E; [exact (pf_bs line F)|].
  destruct (prefix_facts _ _ pre (pf_actor_line line F) (pf_style_line line F)
              (pf_actor_bs line F) (pf_style_bs line F) Hpre) as (_ & _ & H3).
  pose proof (pf_bs line F) as H4.
  unfold char_in in *. cbv delta [str char] in *. rewrite existsb_app, H3.
  cbn [existsb orb]. exact H4.
Qed.

Lemma head_no_backslash i line : plain_facts line -> char_in 0x5C (ev_head i line) = false.
Proof.
  intros F. unfold ev_head, char_in.
  rewrite existsb_app. cbn [existsb]. rewrite !existsb_app.
  rewrite (forallb_existsb_false _ _ _ ascii_digit_not_backslash (str_of_nat_digits i)).
  pose proof (srt_no_backslash _ (pf_start line F)) as H1.
  pose proof (srt_no_backslash _ (pf_end line F)) as H2.
  unfold char_in in H1, H2. cbv delta [str char] in *. rewrite H1, H2. reflexivity.
Qed.

Lemma stream_no_backslash ls : forall i,
  Forall plain_facts ls -> char_in 0x5C (stream_of (blocks_from i ls)) = false.
Proof.
  induction ls as [|l ls IH]; intros i H; [reflexivity|].
  inversion H as [|l' ls' Hl Hls]. subst.
  cbn [blocks_from stream_of flat_map fst snd]. fold (stream_of (blocks_from (S i) ls)).
  pose proof (head_no_backslash i l Hl) as H1.
  pose proof (prompt_no_backslash l Hl) as H2.
  pose proof (IH (S i) Hls) as H3.
  unfold char_in in *. cbv delta [str char] in *.
  rewrite !existsb_app, H1, H2, H3. reflexivity.
Qed.

Lemma blocks_from_good ls : forall i,
  Forall plain_facts ls -> Forall good_block (blocks_from i ls).
Proof.
  induction ls as [|l ls IH]; intros i H; cbn [blocks_from]; [constructor|].
  inversion H as [|l' ls' Hl Hls]. subst. constructor; [|now apply IH].
  split; cbn [fst snd]; [|now apply good_prompt_event].
  exists (str_of_nat i), (ev_start l), (ev_end l).
  repeat split; [apply str_of_nat_nonempty | apply str_of_nat_digits
                 | exact (pf_start l Hl) | exact (pf_end l Hl)].
Qed.

(** *** The text comes back *)

Lemma strip_hint_plain t :
  head_is (fun c => negb (is_space c) && negb (is_digit c)
             && negb (eqc 0x5B c || eqc 0x3010 c || eqc c 0x28 || eqc c 0xFF08)) t = true ->
  strip_hint t = lstrip t.
Proof.
  destruct t as [|c t]; [discriminate|]. cbn [head_is]. intros H.
  apply andb_true_iff in H as [_ H]. apply negb_true_iff in H.
  apply orb_false_iff in H as [H H4]. apply orb_false_iff in H as [H H3].
  apply orb_false_iff in H as [H1 H2].
  unfold strip_hint, skip_opt, bracket_tag, paren_tag, skip_tag.
  now rewrite H1, H2, H3, H4.
Qed.

Lemma cleanup_prompt line : plain_facts line -> cleanup (ev_prompt line) = ev_text line.
Proof.
  intros F. rewrite (prompt_of_plain line F), cleanup_strip_hint.
  assert (E : strip_hint (final_prompt_text (ev_actor line) (ev_style line) (ev_text line))
              = lstrip (ev_text line)).
  { destruct (final_prompt_shape (ev_actor line) (ev_style line) (ev_text line))
      as [[_ E]|[Hinj _]].
    - rewrite E. apply strip_hint_plain. exact (pf_head line F).
    - apply strip_hint_injected; [exact (pf_actor_close line F) | exact (pf_actor_line line F)
        | exact (pf_style_close line F) | exact (pf_style_line line F) | exact Hinj]. }
  rewrite E, strip_lstrip.
  destruct (strip_good_prompt _ (plain_text_good line F)) as [-> _].
  pose proof (replace_absent 0x0A [] BACKSLASH_N (ev_text line)
                (one_line_no_newline _ (pf_line line F))) as R.
  cbv delta [str char] in *. rewrite R. apply dedup_plain. exact (pf_bs line F).
Qed.

Lemma event_restored line :
  parsed_dialogue line = true -> plain_facts line ->
  ev_prefix line ++ cleanup (ev_prompt line) = line.
Proof.
  intros Hp F. rewrite (cleanup_prompt line F). unfold ev_prefix, ev_text, fields.
  apply andb_true_iff in Hp as [_ Hp]. apply Nat.leb_le in Hp.
  rewrite join_ten.
  - apply (join_split 0x2C).
  - apply Nat.le_antisymm; [apply (split_go_bound 0x2C line 9 []) | exact Hp].
Qed.

Lemma event_lines_restored (f g : str -> str) ls :
  Forall (fun l => f l ++ cleanup (g l) = l) ls ->
  event_lines (map f ls) (map g ls) = ls.
Proof.
  intros H. rewrite event_lines_bind. unfold bind.
  rewrite length_map, <- (length_map f ls), skipn_all, app_nil_r.
  induction H as [|l ls Hl Hls IH]; [reflexivity|].
  cbn [map combine fst snd]. now rewrite Hl, IH.
Qed.

Lemma forallb_plain_facts ls :
  forallb plain_event ls = true -> Forall plain_facts ls.
Proof.
  intros H. apply Forall_forall. intros l Hl.
  apply plain_event_facts. rewrite forallb_forall in H. now apply H.
Qed.

(** X19. Through the identity transformer, [save] writes back the event lines
    [load] read, when they are plain: the headers first, then every event
    line as it was after stripping, and no mismatch is reported. *)
Theorem round_trip_plain_events (p : str) (lines : list str) :
  forallb plain_event (event_lines_of false lines) = true ->
  let r := load (init p) lines in
  let out := save (fst r) (identity_blocks (snd r)) in
  event_lines (event_templates (fst r))
              (translated_units (normalize (collect (identity_blocks (snd r)))))
  = event_lines_of false lines
  /\ written out = write_lines (headers (fst r) ++ event_lines_of false lines)
  /\ warning out = None.
Proof.
  intros Hall. cbv zeta.
  pose proof (forallb_plain_facts _ Hall) as HF.
  set (evs := event_lines_of false lines) in *.
  destruct (load_fold_events lines
              {| self := init p; items := []; is_events := false; event_idx := 1 |})
    as (HT & HI).
  cbv zeta in HT, HI. cbn [self init event_templates items is_events event_idx app] in HT, HI.
  fold evs in HT, HI.
  unfold save, load. cbn [fst snd event_templates headers written warning].
  rewrite HT, HI. unfold collect.
  rewrite (collect_blocks _ [] (blocks_from_heads evs 1)). cbn [app].
  rewrite (normalize_plain _ (stream_no_backslash evs 1 HF)).
  rewrite (translated_units_stream _ (blocks_from_good evs 1 HF)).
  rewrite blocks_from_prompts.
  assert (E : event_lines (map ev_prefix evs) (map ev_prompt evs) = evs).
  { apply event_lines_restored. apply Forall_forall. intros l Hl.
    apply event_restored.
    - pose proof (event_lines_of_parsed lines false) as Hp.
      rewrite Forall_forall in Hp. now apply Hp.
    - rewrite Forall_forall in HF. now apply HF. }
  rewrite E, !length_map, Nat.eqb_refl, write_lines_app. auto.
Qed.

Lemma round_trip_plain_events_witness :
  let content :=
    lit "[Events]" ++ [0x0A]
    ++ lit "Format: Layer, Start, End, Style, Name, MarginL, MarginR, MarginV, Effect, Text"
    ++ [0x0A]
    ++ lit "Dialogue: 0,0:00:01.00,0:00:02.50,Default,Bob,0,0,0,,Hello, world" ++ [0x0A]
    ++ lit "Dialogue: 0,0:00:03.00,0:00:04.00,Sign,,0,0,0,,Exit" ++ [0x0A] in
  forallb plain_event (event_lines_of false (readlines content)) = true
  /\ length (event_lines_of false (readlines content)) = 2%nat
  /\ round_trip content = content.
Proof.
  cbv zeta. split; [reflexivity|]. split; [reflexivity|].
  unfold round_trip.
  match goal with
  | |- written (save (fst (load (init ?p) ?l)) _) = _ =>
      destruct (round_trip_plain_events p l eq_refl) as (_ & H & _)
  end.
  cbv zeta in H. rewrite H. reflexivity.
Defined.

End RoundTrip.

(** ** The [Format:] line *)

Section FormatLine.

Import AssDocument AssSpec.

Lemma load_line_format st line0 :
  let line := clean_line line0 in
  let st' := load_line st line0 in
  let recorded := negb (startswith line (lit "[Events]")) && is_events st
                  && startswith line (lit "Format:") in
  events_header (self st')
  = (if recorded then Some line else events_header (self st))
  /\ is_events st' = (is_events st || startswith line (lit "[Events]"))
  /\ (forall h, In h (headers (self st)) -> In h (headers (self st')))
  /\ (recorded = true -> In line (headers (self st'))).
Proof.
  cbv zeta. unfold load_line. cbv zeta.
  change (if startswith (strip line0) [0xFEFF] then tl (strip line0) else strip line0)
    with (clean_line line0).
  generalize (clean_line line0). intros line.
  assert (K : forall (hs : list str) x h, In h hs -> In h (hs ++ [x]))
    by (intros hs x h Hh; apply in_or_app; now left).
  destruct (Re.nonempty line) eqn:Hne; cbn [negb].
  - destruct (startswith line (lit "[Events]")) eqn:Hev; cbn [negb andb].
    + unfold append_header, enter_events. cbn [self events_header headers is_events].
      rewrite orb_true_r.
      split; [reflexivity|]. split; [reflexivity|]. split; [apply K | discriminate].
    + rewrite orb_false_r. destruct (is_events st) eqn:His; cbn [andb].
      * destruct (startswith line (lit "Format:")) eqn:Hf.
        -- unfold append_header, set_events_header.
           cbn [self events_header headers is_events]. rewrite ?His.
           split; [reflexivity|]. split; [reflexivity|]. split; [apply K|].
           intros _. apply in_or_app. right. now left.
        -- destruct (startswith line (lit "Dialogue:"));
             [destruct (length (split line (lit ",") (Some 9%nat)) <? 10)%nat|];
             unfold append_header, append_event;
             cbn [self events_header headers is_events]; rewrite ?His;
             (split; [reflexivity|]); (split; [reflexivity|]);
             (split; [|discriminate]); auto.
      * unfold append_header. cbn [self events_header headers is_events].
        rewrite ?His.
        split; [reflexivity|]. split; [reflexivity|]. split; [apply K | discriminate].
  - assert (Hev : startswith line (lit "[Events]") = false).
    { destruct (startswith line (lit "[Events]")) eqn:E; [|reflexivity].
      apply startswith_nonempty in E; [congruence | reflexivity]. }
    assert (Hf : startswith line (lit "Format:") = false).
    { destruct (startswith line (lit "Format:")) eqn:E; [|reflexivity].
      apply startswith_nonempty in E; [congruence | reflexivity]. }
    rewrite Hev, Hf, andb_false_r, orb_false_r.
    unfold append_header. cbn [self events_header headers is_events].
    split; [reflexivity|]. split; [reflexivity|]. split; [apply K | discriminate].
Qed.

Lemma load_fold_headers_kept lines : forall st h,
  In h (headers (self st)) -> In h (headers (self (fold_left load_line lines st))).
Proof.
  induction lines as [|l ls IH]; intros st h Hh; [exact Hh|].
  cbn [fold_left]. apply IH.
  destruct (load_line_format st l) as (_ & _ & K & _). now apply K.
Qed.

Lemma last_format_line (l : list str) : forall o,
  fold_left (fun _ h => Some h) l o
  = match rev l with h :: _ => Some h | [] => o end.
Proof.
  induction l as [|a l IH]; intros o; [reflexivity|].
  cbn [fold_left rev]. rewrite IH.
  destruct (rev l); reflexivity.
Qed.

Lemma load_fold_format lines : forall st,
  let st' := fold_left load_line lines st in
  events_header (self st')
  = fold_left (fun _ h => Some h) (format_lines (is_events st) lines)
              (events_header (self st))
  /\ Forall (fun h => In h (headers (self st'))) (format_lines (is_events st) lines).
Proof.
  induction lines as [|l ls IH]; intros st; cbv zeta; [split; [reflexivity | constructor]|].
  cbn [fold_left format_lines].
  destruct (load_line_format st l) as (H1 & H2 & _ & H4). cbv zeta in *.
  destruct (IH (load_line st l)) as (I1 & I2). cbv zeta in *.
  rewrite H2 in I1, I2. rewrite I1, H1. clear I1 H1 H2.
  destruct (startswith (clean_line l) (lit "[Events]")) eqn:E; cbn [negb andb] in *.
  - rewrite orb_true_r in *. auto.
  - rewrite orb_false_r in *.
    destruct (is_events st && startswith (clean_line l) (lit "Format:")) eqn:F.
    + cbn [fold_left]. split; [reflexivity|]. constructor; [|exact I2].
      apply load_fold_headers_kept. now apply H4.
    + auto.
Qed.

Lemma format_lines_position lines : forall b h,
  In h (format_lines b lines) ->
  startswith h (lit "Format:") = true
  /\ exists before line0 after,
       lines = before ++ line0 :: after
       /\ clean_line line0 = h
       /\ (b || existsb (fun l => startswith (clean_line l) (lit "[Events]")) before) = true.
Proof.
  induction lines as [|l ls IH]; intros b h Hh; [destruct Hh|].
  cbn [format_lines] in Hh.
  destruct (startswith (clean_line l) (lit "[Events]")) eqn:E.
  - destruct (IH true h Hh) as (Hf & before & line0 & after & -> & Hc & _).
    split; [exact Hf|]. exists (l :: before), line0, after.
    cbn [app existsb]. rewrite E, orb_true_r. auto.
  - assert (Hrec : In h (format_lines b ls) ->
              startswith h (lit "Format:") = true
              /\ exists before line0 after,
                   l :: ls = before ++ line0 :: after
                   /\ clean_line line0 = h
                   /\ (b || existsb (fun l => startswith (clean_line l) (lit "[Events]"))
                                    before) = true).
    { intros Hin. destruct (IH b h Hin) as (Hf & before & line0 & after & -> & Hc & Hb).
      split; [exact Hf|]. exists (l :: before), line0, after.
      cbn [app existsb]. rewrite E. auto. }
    destruct (b && startswith (clean_line l) (lit "Format:")) eqn:F; [|now apply Hrec].
    destruct Hh as [<-|Hin]; [|now apply Hrec].
    apply andb_true_iff in F as [Hb Hf]. split; [exact Hf|].
    exists [], l, ls. cbn [app existsb]. rewrite Hb. auto.
Qed.

(** X20. [events_header] after [load] is the last stripped line that starts
    with [Format:] and was read inside the events section, after an
    [[Events]] line, or what the object held before when there is no such
    line; a [Format:] line before the [[Events]] line is never recorded.
    Every such line is also kept among the headers. *)
Theorem load_events_header_is_format_line (self0 : t) (lines : list str) :
  events_header (fst (load self0 lines))
  = match rev (format_lines false lines) with
    | h :: _ => Some h
    | [] => events_header self0
    end
  /\ (forall h, In h (format_lines false lines) ->
        startswith h (lit "Format:") = true
        /\ In h (headers (fst (load self0 lines)))
        /\ exists before line0 after,
             lines = before ++ line0 :: after
             /\ clean_line line0 = h
             /\ existsb (fun l => startswith (clean_line l) (lit "[Events]")) before
                = true).
Proof.
  unfold load. cbn [fst events_header headers].
  destruct (load_fold_format lines
              {| self := self0; items := []; is_events := false; event_idx := 1 |})
    as (H1 & H2).
  cbv zeta in H1, H2. cbn [self is_events] in H1, H2. split.
  - rewrite H1. apply last_format_line.
  - intros h Hh. destruct (format_lines_position lines false h Hh) as (Hf & Hpos).
    split; [exact Hf|]. split; [|exact Hpos].
    rewrite Forall_forall in H2. now apply H2.
Qed.

Lemma load_events_header_is_format_line_witness :
  let lines := [lit "Format: early"; lit "[Events]"; lit "Format: Layer, Start";
                lit "Dialogue: x"] in
  format_lines false lines = [lit "Format: Layer, Start"]
  /\ events_header (fst (load (init []) lines)) = Some (lit "Format: Layer, Start")
  /\ In (lit "Format: Layer, Start") (headers (fst (load (init []) lines)))
  /\ events_header (fst (load (init []) [lit "Format: early"; lit "Dialogue: x"])) = None.
Proof.
  cbv zeta. split; [reflexivity|].
  destruct (load_events_header_is_format_line (init [])
              [lit "Format: early"; lit "[Events]"; lit "Format: Layer, Start";
               lit "Dialogue: x"]) as [H1 H2].
  split; [exact H1|]. split.
  - exact (proj1 (proj2 (H2 (lit "Format: Layer, Start") (or_introl eq_refl)))).
  - exact (proj1 (load_events_header_is_format_line (init [])
                    [lit "Format: early"; lit "Dialogue: x"])).
Defined.

End FormatLine.
